(** * A feed-forward neural-network trainer: model and properties

    Shallow embedding of [neural_network_implementation.ipynb]: sigmoid
    network, initializer, forward and backward propagation, cost, the four
    update rules (plain, momentum, RMSProp, Adam), the predictor, the
    accuracy measure, the mini-batch sampler and the training loop,
    followed by the properties proved of them.

    Conventions of the embedding.
    - [np.float64] is idealised as the real numbers [R]: every arithmetic
      operation is exact, [np.exp], [np.log] and [np.sqrt] are [exp], [ln]
      and [sqrt] of the Standard Library (total: [ln x = 0] for [x <= 0],
      [sqrt x = 0] for [x <= 0], and [x / 0] is some real).  Rounding,
      overflow, [inf] and [nan] are outside the model.  A property that
      they would change is stated on the domain where the code and the
      model agree, or is said to hold over the reals; where the sigmoid
      saturates, the binary64 computation itself is modelled ([sigmoid64],
      on the primitive floats).
    - A two-dimensional [ndarray] is a record of its shape and its rows;
      shape mismatches raise [ValueError] as numpy does, and element-wise
      binary operations broadcast dimensions of extent one.
    - A Python [dict] keyed by ['W'+str(i)] and the like is a
      [gmap string ndarray]; a missing key raises [KeyError].
    - Exceptions are values of [exn], carried by the error monad [res].  A
      function that mutates its arguments in place returns their new
      values; what it had mutated before raising is not observable.
    - [np.random] is an oracle: the Gaussian samples and the permutations it
      returns are arguments of the functions that draw them.
    - The training loop records the calls it makes (sampler, update rule,
      report) in a trace, which stays available when the run raises. *)

From Stdlib Require Import Reals Lra Lia ZArith.
From Stdlib Require PrimFloat.
From stdpp Require Import gmap strings list fin_maps pretty.

(** ** Exceptions and the error monad *)

Inductive exn : Type :=
| KeyError (k : string)
| ZeroDivisionError
| ValueError
| IndexError
| TypeError
| UnboundLocalError.

Inductive res (A : Type) : Type :=
| Ok (a : A)
| Raise (e : exn).

Arguments Ok {A} a.
Arguments Raise {A} e.

#[global] Instance res_ret : MRet res := @Ok.

#[global] Instance res_bind : MBind res :=
  λ A B f m, match m with Ok a => f a | Raise e => Raise e end.

#[global] Instance res_fmap : FMap res :=
  λ A B f m, match m with Ok a => Ok (f a) | Raise e => Raise e end.

(** [for i in l: s = body(i, s)] with exceptions. *)
Fixpoint for_ {S : Type} (l : list nat) (body : nat → S → res S) (s : S) : res S :=
  match l with
  | [] => Ok s
  | i :: l' => match body i s with
               | Ok s' => for_ l' body s'
               | Raise e => Raise e
               end
  end.

(** [range(a, b)] for natural bounds, and [range(a, 0, -1)]. *)
Definition range (a b : nat) : list nat := seq a (b - a).

Definition range_down (a : nat) : list nat := rev (seq 1 a).

(** ** Arrays *)

Record ndarray : Type := mk_array { shape0 : nat; shape1 : nat; rows : list (list R) }.

(** The array of shape [(n, m)] whose entry [(i, j)] is [f i j]. *)
Definition tabulate (n m : nat) (f : nat → nat → R) : ndarray :=
  mk_array n m (map (λ i, map (f i) (seq 0 m)) (seq 0 n)).

Definition get (A : ndarray) (i j : nat) : R := nth j (nth i (rows A) []) 0%R.

(** [np.array(l)] for a rectangular list of rows. *)
Definition array (l : list (list R)) : ndarray :=
  mk_array (length l) (length (hd [] l)) l.

Definition well_formed (A : ndarray) : Prop :=
  length (rows A) = shape0 A ∧ Forall (λ r, length r = shape1 A) (rows A).

Definition Rsum (l : list R) : R := foldr Rplus 0%R l.

(** [sum(f(j) for j in range(n))] *)
Definition sum_upto (n : nat) (f : nat → R) : R := Rsum (map f (seq 0 n)).

Definition mmap (f : R → R) (A : ndarray) : ndarray :=
  tabulate (shape0 A) (shape1 A) (λ i j, f (get A i j)).

(** Scalar times array. *)
Definition scal (c : R) (A : ndarray) : ndarray := mmap (Rmult c) A.

(** numpy's broadcasting of one dimension. *)
Definition bdim (a c : nat) : res nat :=
  if decide (a = c) then Ok a
  else if decide (a = 1) then Ok c
  else if decide (c = 1) then Ok a
  else Raise ValueError.

Definition bidx (a i : nat) : nat := if decide (a = 1) then 0 else i.

(** Element-wise binary operation with broadcasting. *)
Definition broadcast (f : R → R → R) (A B : ndarray) : res ndarray :=
  n ← bdim (shape0 A) (shape0 B);
  m ← bdim (shape1 A) (shape1 B);
  Ok (tabulate n m (λ i j,
        f (get A (bidx (shape0 A) i) (bidx (shape1 A) j))
          (get B (bidx (shape0 B) i) (bidx (shape1 B) j)))).

(** In-place [A -= B]: the broadcast result must have the shape of [A]. *)
Definition isub (A B : ndarray) : res ndarray :=
  C ← broadcast Rminus A B;
  if decide (shape0 C = shape0 A ∧ shape1 C = shape1 A) then Ok C else Raise ValueError.

(** [np.dot(A, B)] *)
Definition dot (A B : ndarray) : res ndarray :=
  if decide (shape1 A = shape0 B)
  then Ok (tabulate (shape0 A) (shape1 B)
             (λ i k, sum_upto (shape1 A) (λ j, get A i j * get B j k)%R))
  else Raise ValueError.

(** [A.T] *)
Definition transpose (A : ndarray) : ndarray :=
  tabulate (shape1 A) (shape0 A) (λ i j, get A j i).

(** [np.sum(A)] *)
Definition np_sum (A : ndarray) : R :=
  sum_upto (shape0 A) (λ i, sum_upto (shape1 A) (get A i)).

(** [np.sum(A, axis=1, keepdims=True)] *)
Definition sum_axis1 (A : ndarray) : ndarray :=
  tabulate (shape0 A) 1 (λ i _, sum_upto (shape1 A) (get A i)).

(** [np.zeros(shape)] *)
Definition zeros (n m : nat) : ndarray := tabulate n m (λ _ _, 0%R).

(** [A[:, idx]] for a list of column indices. *)
Definition take_cols (A : ndarray) (idx : list nat) : res ndarray :=
  if forallb (λ p, p <? shape1 A) idx
  then Ok (tabulate (shape0 A) (length idx) (λ i j, get A i (nth j idx 0)))
  else Raise IndexError.

(** Python's normalisation of a slice bound against a length. *)
Definition clamp_index (len i : Z) : Z :=
  if (i <? 0)%Z then Z.max 0 (i + len) else Z.min i len.

(** The index range of [a:b] over a sequence of length [len]. *)
Definition slice_bounds (len : nat) (a b : Z) : nat * nat :=
  let a' := clamp_index (Z.of_nat len) a in
  let b' := clamp_index (Z.of_nat len) b in
  (Z.to_nat a', Z.to_nat (b' - a')).

(** [l[a:b]] *)
Definition slice {A : Type} (a b : Z) (l : list A) : list A :=
  let '(start, width) := slice_bounds (length l) a b in
  take width (drop start l).

(** [A[:, a:b]] *)
Definition slice_cols (a b : Z) (A : ndarray) : ndarray :=
  let '(start, width) := slice_bounds (shape1 A) a b in
  tabulate (shape0 A) width (λ i j, get A i (start + j)).

(** [A.reshape((1, m))] *)
Definition reshape_row (m : nat) (A : ndarray) : res ndarray :=
  if decide (shape0 A * shape1 A = m)
  then Ok (tabulate 1 m (λ _ k, get A (k / shape1 A) (k mod shape1 A)))
  else Raise ValueError.

(** Python's [a / m] for a float [a] and an int [m]. *)
Definition py_div (a : R) (m : nat) : res R :=
  if decide (m = 0) then Raise ZeroDivisionError else Ok (a / INR m)%R.

(** ** Dictionaries *)

(** The key ['W'+str(i)]. *)
Definition key (prefix : string) (i : nat) : string := prefix +:+ pretty i.

(** [d[k]] *)
Definition getitem {V : Type} (d : gmap string V) (k : string) : res V :=
  match d !! k with
  | Some v => Ok v
  | None => Raise (KeyError k)
  end.

(** ** Activation *)

(** The logistic function over the reals.  It is strictly increasing and
    never reaches 0 or 1; the binary64 computation is only weakly
    increasing and does reach them, see [sigmoid64]. *)
Definition logistic (z : R) : R := (1 / (1 + exp (- z)))%R.

(** [sigmoid(z)]: [1/(1+np.exp(-z))], element-wise. *)
Definition sigmoid (z : ndarray) : ndarray := mmap logistic z.

Section binary64_activation.
Import PrimFloat.



End binary64_activation.

(** [sigmoid_derivative(a)]: [np.multiply(a, 1-a)]. *)
Definition sigmoid_derivative (a : ndarray) : res ndarray :=
  broadcast Rmult a (mmap (λ x, 1 - x)%R a).

(** ** Initializer *)

(** [np.random.randn(d0, d1)], the samples being given by [g]. *)
Definition randn (g : nat → nat → R) (d0 d1 : Z) : res ndarray :=
  if decide (d0 < 0 ∨ d1 < 0)%Z then Raise ValueError
  else Ok (tabulate (Z.to_nat d0) (Z.to_nat d1) g).

Definition initialize_parameters (g : nat → nat → R) (n_input_nodes n_output_nodes : Z)
  : res (ndarray * ndarray) :=
  G ← randn g n_output_nodes n_input_nodes;
  c ← (if decide (n_input_nodes = 0%Z) then Raise ZeroDivisionError
       else Ok (sqrt (1 / IZR n_input_nodes)));
  let W := mmap (λ x, x * c)%R G in
  let b := zeros (Z.to_nat n_output_nodes) 1 in
  Ok (W, b).

(** The body of the loop of [create_layers]; [gauss idx] supplies the
    samples drawn for layer [idx]. *)
Definition create_layer (gauss : nat → nat → nat → R) (layers_list : list Z)
    (idx : nat) (parameters : gmap string ndarray) : res (gmap string ndarray) :=
  '(W, b) ← initialize_parameters (gauss idx)
              (nth (idx - 1) layers_list 0%Z) (nth idx layers_list 0%Z);
  Ok (<[key "b" idx := b]> (<[key "W" idx := W]> parameters)).

Definition create_layers (gauss : nat → nat → nat → R) (layers_list : list Z)
  : res (gmap string ndarray) :=
  for_ (range 1 (length layers_list)) (create_layer gauss layers_list) ∅.

(** ** Forward propagation *)

(** The pre-activation [np.dot(W, A) + b] of one layer. *)
Definition pre_activation (parameters activations : gmap string ndarray) (idx : nat)
  : res ndarray :=
  W ← getitem parameters (key "W" idx);
  A ← getitem activations (key "A" (idx - 1));
  WA ← dot W A;
  b ← getitem parameters (key "b" idx);
  broadcast Rplus WA b.

Definition forward_propagation (X : ndarray) (parameters : gmap string ndarray)
  : res (gmap string ndarray * ndarray) :=
  let activations := <["A0" := X]> (∅ : gmap string ndarray) in
  let limit := 1 + size parameters `div` 2 in
  activations ← for_ (range 1 limit)
    (λ idx activations,
       Z ← pre_activation parameters activations idx;
       Ok (<[key "A" idx := sigmoid Z]> activations))
    activations;
  out ← getitem activations (key "A" (limit - 1));
  Ok (activations, out).

(** ** Cost *)

(** [np.log] is [ln], exact and with [ln 0 = 0].  In binary64 [1 - a]
    rounds to 1 for [a < 2^-53] and [np.log(0)] is [-inf]: the properties
    of the cost take the predictions strictly inside (0,1) and claim no
    strict inequality that rounding can turn into an equality. *)
Definition compute_cost (act y : ndarray) (parameters : gmap string ndarray)
    (lambd : R) (regularization : string) : res R :=
  let m := shape1 y in
  l1 ← broadcast Rmult (mmap ln act) y;
  l2 ← broadcast Rmult (mmap (λ a, ln (1 - a))%R act) (mmap (λ x, 1 - x)%R y);
  logprobs ← broadcast Rplus l1 l2;
  reg_term ← (if decide (regularization = "l2") then
                reg_term ← for_ (range 1 (1 + size parameters `div` 2))
                  (λ i reg_term,
                     W ← getitem parameters (key "W" i);
                     Ok (reg_term + np_sum (mmap (λ x, x ^ 2)%R W))%R)
                  0%R;
                c ← py_div lambd (2 * m);
                Ok (c * reg_term)%R
              else Ok 0%R);
  c ← py_div (-1) m;
  Ok (c * np_sum logprobs + reg_term)%R.

(** ** Backward propagation *)

(** The body of the loop over [l = last-1 .. 1]:
    [dZ_l = sigmoid'(A_l) * (W_{l+1}.T . dZ_{l+1})]. *)
Definition error_term_layer (parameters activations : gmap string ndarray) (l : nat)
    (dz_dict : gmap string ndarray) : res (gmap string ndarray) :=
  Al ← getitem activations (key "A" l);
  sd ← sigmoid_derivative Al;
  W ← getitem parameters (key "W" (l + 1));
  dZn ← getitem dz_dict (key "dZ" (l + 1));
  WdZ ← dot (transpose W) dZn;
  dZ ← broadcast Rmult sd WdZ;
  Ok (<[key "dZ" l := dZ]> dz_dict).

(** The error terms [dz_dict], starting from [dZ_last = A_last - y]. *)
Definition error_terms (y : ndarray) (parameters activations : gmap string ndarray)
  : res (gmap string ndarray) :=
  let last := size parameters `div` 2 in
  AL ← getitem activations (key "A" last);
  dZL ← broadcast Rminus AL y;
  for_ (range_down (last - 1)) (error_term_layer parameters activations)
    (<[key "dZ" last := dZL]> (∅ : gmap string ndarray)).

(** The body of the loop over [i = last .. 1]: [dW_i] and [db_i], each
    scaled by [1/m]. *)
Definition gradient_layer (m : nat) (dz_dict activations : gmap string ndarray) (i : nat)
    (gradients : gmap string ndarray) : res (gmap string ndarray) :=
  c ← py_div 1 m;
  dZ ← getitem dz_dict (key "dZ" i);
  A ← getitem activations (key "A" (i - 1));
  D ← dot dZ (transpose A);
  let gradients := <[key "dW" i := scal c D]> gradients in
  c ← py_div 1 m;
  dZ ← getitem dz_dict (key "dZ" i);
  Ok (<[key "db" i := scal c (sum_axis1 dZ)]> gradients).

(** The body of the regularization loop: [dW_i + (lambd/m) W_i]. *)
Definition regularize_layer (m : nat) (lambd : R) (parameters : gmap string ndarray)
    (i : nat) (gradients : gmap string ndarray) : res (gmap string ndarray) :=
  dW ← getitem gradients (key "dW" i);
  c ← py_div lambd m;
  W ← getitem parameters (key "W" i);
  G ← broadcast Rplus dW (scal c W);
  Ok (<[key "dW" i := G]> gradients).

(** [m = y.shape[0]] scales every gradient. *)
Definition backward_propagation (y : ndarray) (parameters activations : gmap string ndarray)
    (lambd : R) (regularization : string) : res (gmap string ndarray) :=
  let m := shape0 y in
  let last := size parameters `div` 2 in
  dz_dict ← error_terms y parameters activations;
  gradients ← for_ (range_down last) (gradient_layer m dz_dict activations)
                 (∅ : gmap string ndarray);
  if decide (regularization = "l2") then
    for_ (range 1 (1 + size parameters `div` 2)) (regularize_layer m lambd parameters)
      gradients
  else Ok gradients.

(** ** Update rules *)

(** Classical gradient descent. *)
Definition update_parameters (parameters gradients : gmap string ndarray)
    (learning_rate : R) : res (gmap string ndarray) :=
  let lim := 1 + size parameters `div` 2 in
  for_ (range 1 lim)
    (λ i parameters,
       W ← getitem parameters (key "W" i);
       dW ← getitem gradients (key "dW" i);
       W' ← isub W (scal learning_rate dW);
       let parameters := <[key "W" i := W']> parameters in
       b ← getitem parameters (key "b" i);
       db ← getitem gradients (key "db" i);
       b' ← isub b (scal learning_rate db);
       Ok (<[key "b" i := b']> parameters))
    parameters.

(** The accumulators all start as zeros of the shapes of the parameters;
    momentum, RMSProp and Adam share this initialisation. *)
Definition initialize_accumulator (parameters : gmap string ndarray)
  : res (gmap string ndarray) :=
  let lim := 1 + size parameters `div` 2 in
  for_ (range 1 lim)
    (λ i v,
       W ← getitem parameters (key "W" i);
       let v := <[key "dW" i := zeros (shape0 W) (shape1 W)]> v in
       b ← getitem parameters (key "b" i);
       Ok (<[key "db" i := zeros (shape0 b) (shape1 b)]> v))
    (∅ : gmap string ndarray).

Definition initialize_momentum_params := initialize_accumulator.

Definition initialize_rmsprop_params := initialize_accumulator.

Definition initialize_adam_params (parameters : gmap string ndarray)
  : res (gmap string ndarray * gmap string ndarray) :=
  let lim := 1 + size parameters `div` 2 in
  for_ (range 1 lim)
    (λ i vs,
       let '(v, s) := vs in
       W ← getitem parameters (key "W" i);
       let v := <[key "dW" i := zeros (shape0 W) (shape1 W)]> v in
       W ← getitem parameters (key "W" i);
       let s := <[key "dW" i := zeros (shape0 W) (shape1 W)]> s in
       b ← getitem parameters (key "b" i);
       let v := <[key "db" i := zeros (shape0 b) (shape1 b)]> v in
       b ← getitem parameters (key "b" i);
       let s := <[key "db" i := zeros (shape0 b) (shape1 b)]> s in
       Ok (v, s))
    (∅ : gmap string ndarray, ∅ : gmap string ndarray).

(** [beta*acc[k] + (1-beta)*g], the exponentially decayed average. *)
Definition decay (beta : R) (acc g : ndarray) : res ndarray :=
  broadcast Rplus (scal beta acc) (scal (1 - beta) g).

(** Gradient descent with momentum. *)
Definition update_parameters_momentum (parameters gradients : gmap string ndarray)
    (learning_rate : R) (v : gmap string ndarray) (beta : R)
  : res (gmap string ndarray * gmap string ndarray) :=
  let lim := 1 + size parameters `div` 2 in
  for_ (range 1 lim)
    (λ i pv,
       let '(parameters, v) := pv in
       a ← getitem v (key "dW" i);
       g ← getitem gradients (key "dW" i);
       a' ← decay beta a g;
       let v := <[key "dW" i := a']> v in
       a ← getitem v (key "db" i);
       g ← getitem gradients (key "db" i);
       a' ← decay beta a g;
       let v := <[key "db" i := a']> v in
       W ← getitem parameters (key "W" i);
       vW ← getitem v (key "dW" i);
       W' ← isub W (scal learning_rate vW);
       let parameters := <[key "W" i := W']> parameters in
       b ← getitem parameters (key "b" i);
       vb ← getitem v (key "db" i);
       b' ← isub b (scal learning_rate vb);
       Ok (<[key "b" i := b']> parameters, v))
    (parameters, v).

(** Python's [b ** t] for a float [b] and an int [t]: [0.0 ** t] raises
    [ZeroDivisionError] for a negative [t].  Python also raises
    [OverflowError] when [t] does not convert to a float or the power
    leaves the binary64 range ([10.0 ** 400], [0.5 ** -2000]); that path
    is not modelled, and the properties of RMSProp, of Adam and of the
    training loop take [t] and the base where it cannot be taken
    ([step_counter], [decay_rate]). *)
Definition py_pow (b : R) (t : Z) : res R :=
  if decide (t < 0)%Z
  then (if Req_EM_T b 0 then Raise ZeroDivisionError else Ok (powerRZ b t))
  else Ok (powerRZ b t).

(** The body of the RMSProp loop for layer [i].  The state is
    [(parameters, s, s_corrected)].  The divisions by [1 - bt] and by
    [epsilon + sqrt x] are those of [R], total; numpy returns [inf] or
    [nan] on a zero divisor and [nan] for the root of a negative number, so
    the body is the code's where [1 - bt] and [epsilon + sqrt x] are not
    zero and the accumulators are not negative. *)
Definition rmsprop_layer (gradients : gmap string ndarray) (learning_rate : R) (t : Z)
    (beta epsilon : R) (i : nat)
    (st : gmap string ndarray * gmap string ndarray * gmap string ndarray)
  : res (gmap string ndarray * gmap string ndarray * gmap string ndarray) :=
  let '(parameters, s, s_corrected) := st in
  a ← getitem s (key "dW" i);
  g ← getitem gradients (key "dW" i);
  a' ← broadcast Rplus (scal beta a) (scal (1 - beta) (mmap (λ x, x ^ 2)%R g));
  let s := <[key "dW" i := a']> s in
  a ← getitem s (key "db" i);
  g ← getitem gradients (key "db" i);
  a' ← broadcast Rplus (scal beta a) (scal (1 - beta) (mmap (λ x, x ^ 2)%R g));
  let s := <[key "db" i := a']> s in
  sW ← getitem s (key "dW" i);
  bt ← py_pow beta t;
  let s_corrected := <[key "dW" i := mmap (λ x, x / (1 - bt))%R sW]> s_corrected in
  sb ← getitem s (key "db" i);
  bt ← py_pow beta t;
  let s_corrected := <[key "db" i := mmap (λ x, x / (1 - bt))%R sb]> s_corrected in
  W ← getitem parameters (key "W" i);
  cW ← getitem s_corrected (key "dW" i);
  W' ← isub W (mmap (λ x, learning_rate * 1 / (epsilon + sqrt x))%R cW);
  let parameters := <[key "W" i := W']> parameters in
  b ← getitem parameters (key "b" i);
  cb ← getitem s_corrected (key "db" i);
  b' ← isub b (mmap (λ x, learning_rate * 1 / (epsilon + sqrt x))%R cb);
  Ok (<[key "b" i := b']> parameters, s, s_corrected).

(** Gradient descent with RMSProp.  [s] is mutated in place and so returned
    together with the parameters. *)
Definition update_parameters_rmsprop (parameters gradients : gmap string ndarray)
    (learning_rate : R) (s : gmap string ndarray) (t : Z) (beta epsilon : R)
  : res (gmap string ndarray * gmap string ndarray) :=
  let lim := 1 + size parameters `div` 2 in
  '(parameters, s, _) ← for_ (range 1 lim)
    (rmsprop_layer gradients learning_rate t beta epsilon)
    (parameters, s, ∅ : gmap string ndarray);
  Ok (parameters, s).

(** Adam.  The state is [(parameters, v, s, v_corrected, s_corrected)].
    As in [rmsprop_layer], the divisions by [1 - beta1 ** t], by
    [1 - beta2 ** t] and by [epsilon + sqrt x] are those of [R]: the body
    is the code's where these divisors are not zero ([t = 0] makes the
    first two zero, and numpy then fills the parameters with [nan]). *)
Definition update_parameters_adam (parameters gradients : gmap string ndarray)
    (learning_rate : R) (v s : gmap string ndarray) (t : Z) (beta1 beta2 epsilon : R)
  : res (gmap string ndarray * gmap string ndarray * gmap string ndarray) :=
  let lim := 1 + size parameters `div` 2 in
  '(parameters, v, s, _, _) ← for_ (range 1 lim)
    (λ i st,
       let '(parameters, v, s, v_corrected, s_corrected) := st in
       a ← getitem v (key "dW" i);
       g ← getitem gradients (key "dW" i);
       a' ← decay beta1 a g;
       let v := <[key "dW" i := a']> v in
       a ← getitem v (key "db" i);
       g ← getitem gradients (key "db" i);
       a' ← decay beta1 a g;
       let v := <[key "db" i := a']> v in
       a ← getitem s (key "dW" i);
       g ← getitem gradients (key "dW" i);
       a' ← broadcast Rplus (scal beta2 a) (scal (1 - beta2) (mmap (λ x, x ^ 2)%R g));
       let s := <[key "dW" i := a']> s in
       a ← getitem s (key "db" i);
       g ← getitem gradients (key "db" i);
       a' ← broadcast Rplus (scal beta2 a) (scal (1 - beta2) (mmap (λ x, x ^ 2)%R g));
       let s := <[key "db" i := a']> s in
       vW ← getitem v (key "dW" i);
       bt ← py_pow beta1 t;
       let v_corrected := <[key "dW" i := mmap (λ x, x / (1 - bt))%R vW]> v_corrected in
       vb ← getitem v (key "db" i);
       bt ← py_pow beta1 t;
       let v_corrected := <[key "db" i := mmap (λ x, x / (1 - bt))%R vb]> v_corrected in
       sW ← getitem s (key "dW" i);
       bt ← py_pow beta2 t;
       let s_corrected := <[key "dW" i := mmap (λ x, x / (1 - bt))%R sW]> s_corrected in
       sb ← getitem s (key "db" i);
       bt ← py_pow beta2 t;
       let s_corrected := <[key "db" i := mmap (λ x, x / (1 - bt))%R sb]> s_corrected in
       W ← getitem parameters (key "W" i);
       cv ← getitem v_corrected (key "dW" i);
       cs ← getitem s_corrected (key "dW" i);
       q ← broadcast Rdiv cv (mmap (λ x, epsilon + sqrt x)%R cs);
       W' ← isub W (scal learning_rate q);
       let parameters := <[key "W" i := W']> parameters in
       b ← getitem parameters (key "b" i);
       cv ← getitem v_corrected (key "db" i);
       cs ← getitem s_corrected (key "db" i);
       q ← broadcast Rdiv cv (mmap (λ x, epsilon + sqrt x)%R cs);
       b' ← isub b (scal learning_rate q);
       Ok (<[key "b" i := b']> parameters, v, s, v_corrected, s_corrected))
    (parameters, v, s, ∅ : gmap string ndarray, ∅ : gmap string ndarray);
  Ok (parameters, v, s).

(** ** Predictor *)

(** [predictions = np.zeros(op.shape); predictions[op > 0.5] = 1] *)
Definition threshold (a : R) : R := if Rlt_dec 0.5 a then 1%R else 0%R.

Definition predict (parameters : gmap string ndarray) (X : ndarray) : res ndarray :=
  '(_, op) ← forward_propagation X parameters;
  Ok (mmap threshold op).

(** ** Accuracy *)

(** [A[i, j]] read, and [A[i, j] = x] written, for indices that are not
    negative. *)
Definition item (A : ndarray) (i j : nat) : res R :=
  if decide (i < shape0 A ∧ j < shape1 A) then Ok (get A i j) else Raise IndexError.

Definition setitem (A : ndarray) (i j : nat) (x : R) : res ndarray :=
  if decide (i < shape0 A ∧ j < shape1 A)
  then Ok (tabulate (shape0 A) (shape1 A)
             (λ i' j', if decide (i' = i ∧ j' = j) then x else get A i' j'))
  else Raise IndexError.

(** [A[i, :]] *)
Definition row (A : ndarray) (i : nat) : res (list R) :=
  if decide (i < shape0 A) then Ok (map (get A i) (seq 0 (shape1 A))) else Raise IndexError.

Definition agree (a b : R) : bool := if Req_EM_T a b then true else false.

(** [a == b] for one-dimensional arrays.  On lengths that do not broadcast
    numpy raises [ValueError] (releases before 1.25 gave a deprecation
    warning and the scalar [False] instead). *)
Definition equal (a b : list R) : res (list bool) :=
  n ← bdim (length a) (length b);
  Ok (map (λ j, agree (nth (bidx (length a) j) a 0%R) (nth (bidx (length b) j) b 0%R))
        (seq 0 n)).

(** [np.mean] of a one-dimensional boolean array. *)
Definition mean (l : list bool) : R :=
  (Rsum (map (λ c : bool, if c then 1 else 0)%R l) / INR (length l))%R.

Definition accuracy (X y : ndarray) (parameters : gmap string ndarray) : res R :=
  let m := shape1 X in
  let p := zeros 1 m in
  '(_, act) ← forward_propagation X parameters;
  p ← for_ (range 0 (shape1 act))
        (λ i p,
           a ← item act 0 i;
           if Rlt_dec 0.5 a then setitem p 0 i 1%R else setitem p 0 i 0%R)
        p;
  p0 ← row p 0;
  y0 ← row y 0;
  e ← equal p0 y0;
  Ok (mean e).

(** ** Mini-batch sampler *)

(** [1 + math.floor(m/mini_batch_size)].  The source divides floats and
    takes the floor; for operands of machine-integer size that is the
    floor division of the integers.  A quotient that underflows
    ([m / -10**400] is [-0.0], whose floor is 0) is outside the model:
    the properties on negative widths bound them. *)
Definition num_complete_minibatches (m : nat) (mini_batch_size : Z) : res Z :=
  if decide (mini_batch_size = 0%Z) then Raise ZeroDivisionError
  else Ok (1 + Z.of_nat m `div` mini_batch_size)%Z.

(** [permutation] is the list returned by [np.random.permutation(m)]. *)
Definition generate_random_mini_batches (permutation : list nat) (X Y : ndarray)
    (mini_batch_size : Z) : res (list (ndarray * ndarray)) :=
  let m := shape1 X in
  shuffled_X ← take_cols X permutation;
  Yp ← take_cols Y permutation;
  shuffled_Y ← reshape_row m Yp;
  num ← num_complete_minibatches m mini_batch_size;
  Ok (map (λ k : nat,
             (slice_cols (Z.of_nat k * mini_batch_size) ((Z.of_nat k + 1) * mini_batch_size)
                shuffled_X,
              slice_cols (Z.of_nat k * mini_batch_size) ((Z.of_nat k + 1) * mini_batch_size)
                shuffled_Y))
          (seq 0 (Z.to_nat num))).

(** ** Training loop *)

(** The calls a run makes, recorded as a trace: the sampler with its chunk
    width, the update rule with its step counter, and the report line. *)
Inductive update_call : Type :=
| call_update_parameters
| call_update_parameters_momentum
| call_update_parameters_rmsprop (t : Z)
| call_update_parameters_adam (t : Z).

Inductive event : Type :=
| ev_sampler (mini_batch_size : Z)
| ev_update (c : update_call)
| ev_print (epoch : nat) (average_cost : R).

(** A computation that records events and may raise. *)
Definition traced (A : Type) : Type := list event * res A.

#[global] Instance traced_ret : MRet traced := λ A a, ([], Ok a).

#[global] Instance traced_bind : MBind traced :=
  λ A B f m, match m with
             | (tr, Ok a) => let '(tr', r) := f a in (tr ++ tr', r)
             | (tr, Raise e) => (tr, Raise e)
             end.

Definition tell (e : event) : traced unit := ([e], Ok tt).

Definition lift {A : Type} (r : res A) : traced A := ([], r).

Fixpoint for_traced {I S : Type} (l : list I) (body : I → S → traced S) (s : S) : traced S :=
  match l with
  | [] => mret s
  | i :: l' => s' ← body i s; for_traced l' body s'
  end.

(** A local variable that is bound only on some paths. *)
Definition local {A : Type} (x : option A) : res A :=
  match x with Some a => Ok a | None => Raise UnboundLocalError end.

(** The keyword parameters of [train_nn_model]. *)
Record kwargs : Type := mk_kwargs {
  hidden_layers : list Z;
  epochs : Z;
  learning_rate : R;
  lambd : R;
  regularization : string;
  optimization : string;
  beta1 : R;
  beta2 : R;
  epsilon : R;
  t : Z
}.

Definition defaults : kwargs :=
  {| hidden_layers := []; epochs := 1500; learning_rate := 0.0001; lambd := 2.0;
     regularization := "l2"; optimization := "adam"; beta1 := 0.9; beta2 := 0.999;
     epsilon := 1e-8; t := 2 |}.

(** The draws of [np.random] during one run: the Gaussian samples of layer
    [idx], and the permutation drawn in epoch [epoch]. *)
Record np_random : Type := mk_np_random {
  gauss : nat → nat → nat → R;
  permutation : nat → list nat
}.

(** The locals of the loop: [parameters], [v], [s] and the running [cost]. *)
Record locals : Type := mk_locals {
  l_parameters : gmap string ndarray;
  l_v : option (gmap string ndarray);
  l_s : option (gmap string ndarray);
  l_cost : R
}.

(** The body of [for minibatch in minibatches]. *)
Definition minibatch_step (a : kwargs) (minibatch : ndarray * ndarray) (st : locals)
  : traced locals :=
  let '(minibatch_X, minibatch_y) := minibatch in
  let parameters := l_parameters st in
  '(activations, prediction) ← lift (forward_propagation minibatch_X parameters);
  grads ← lift (backward_propagation minibatch_y parameters activations
                  (lambd a) (regularization a));
  c ← lift (compute_cost prediction minibatch_y parameters (lambd a) (regularization a));
  let cost := (l_cost st + c)%R in
  if decide (optimization a = "rmsprop") then
    s ← lift (local (l_s st));
    _ ← tell (ev_update (call_update_parameters_rmsprop (t a)));
    '(parameters, s) ← lift (update_parameters_rmsprop parameters grads (learning_rate a)
                               s (t a) (beta2 a) (epsilon a));
    mret (mk_locals parameters (l_v st) (Some s) cost)
  else if decide (optimization a = "adam") then
    v ← lift (local (l_v st));
    s ← lift (local (l_s st));
    _ ← tell (ev_update (call_update_parameters_adam (t a)));
    '(parameters, v, s) ← lift (update_parameters_adam parameters grads (learning_rate a)
                                  v s (t a) (beta1 a) (beta2 a) (epsilon a));
    mret (mk_locals parameters (Some v) (Some s) cost)
  else if decide (optimization a = "momentum") then
    v ← lift (local (l_v st));
    _ ← tell (ev_update call_update_parameters_momentum);
    '(parameters, v) ← lift (update_parameters_momentum parameters grads (learning_rate a)
                               v (beta1 a));
    mret (mk_locals parameters (Some v) (l_s st) cost)
  else
    _ ← tell (ev_update call_update_parameters);
    parameters ← lift (update_parameters parameters grads (learning_rate a));
    mret (mk_locals parameters (l_v st) (l_s st) cost).

(** The body of [for epoch in range(1, 1+epochs)]. *)
Definition epoch_step (rng : np_random) (X y : ndarray) (a : kwargs)
    (mini_batch_size : Z) (epoch : nat) (st : locals) : traced locals :=
  let st := mk_locals (l_parameters st) (l_v st) (l_s st) 0 in
  _ ← tell (ev_sampler mini_batch_size);
  minibatches ← lift (generate_random_mini_batches (permutation rng epoch) X y
                        mini_batch_size);
  st ← for_traced minibatches (minibatch_step a) st;
  if decide (epoch `mod` 100 = 0) then
    avg ← lift (py_div (l_cost st) (length minibatches));
    _ ← tell (ev_print epoch avg);
    mret st
  else mret st.

Definition train_nn_model (rng : np_random) (X y : ndarray) (a : kwargs)
  : traced (gmap string ndarray) :=
  let layers := [Z.of_nat (shape0 X)] ++ hidden_layers a ++ [1%Z] in
  parameters ← lift (create_layers (gauss rng) layers);
  '(v, s) ← lift (if decide (optimization a = "rmsprop") then
                    s ← initialize_rmsprop_params parameters; Ok (None, Some s)
                  else if decide (optimization a = "adam") then
                    '(v, s) ← initialize_adam_params parameters; Ok (Some v, Some s)
                  else if decide (optimization a = "momentum") then
                    v ← initialize_momentum_params parameters; Ok (Some v, None)
                  else Ok (None, None));
  let mini_batch_size := 64%Z in
  st ← for_traced (seq 1 (Z.to_nat (epochs a)))
         (epoch_step rng X y a mini_batch_size)
         (mk_locals parameters v s 0);
  mret (l_parameters st).

(** *** Calling [train_nn_model] with keyword arguments *)

Inductive pyval : Type :=
| PyInt (z : Z)
| PyFloat (r : R)
| PyStr (s : string)
| PyList (l : list Z).

(** Binding one keyword argument.  A name that is not a parameter of the
    function is a [TypeError] of the call.  Values are taken at the types
    the body computes with: an int for [epochs] and [t], an int or a float
    for the rates, a string for the two names, a list of ints for
    [hidden_layers]; a value of another type is outside the model and is
    reported as a [TypeError] too. *)
Definition bind_keyword (a : kwargs) (kw : string * pyval) : res kwargs :=
  let '(name, value) := kw in
  let '(mk_kwargs h e lr la rg op b1 b2 ep t) := a in
  let float (r : R) : res kwargs :=
    if decide (name = "learning_rate") then Ok (mk_kwargs h e r la rg op b1 b2 ep t)
    else if decide (name = "lambd") then Ok (mk_kwargs h e lr r rg op b1 b2 ep t)
    else if decide (name = "beta1") then Ok (mk_kwargs h e lr la rg op r b2 ep t)
    else if decide (name = "beta2") then Ok (mk_kwargs h e lr la rg op b1 r ep t)
    else if decide (name = "epsilon") then Ok (mk_kwargs h e lr la rg op b1 b2 r t)
    else Raise TypeError in
  match value with
  | PyList l =>
      if decide (name = "hidden_layers") then Ok (mk_kwargs l e lr la rg op b1 b2 ep t)
      else Raise TypeError
  | PyInt z =>
      if decide (name = "epochs") then Ok (mk_kwargs h z lr la rg op b1 b2 ep t)
      else if decide (name = "t") then Ok (mk_kwargs h e lr la rg op b1 b2 ep z)
      else float (IZR z)
  | PyFloat r => float r
  | PyStr s =>
      if decide (name = "regularization") then Ok (mk_kwargs h e lr la s op b1 b2 ep t)
      else if decide (name = "optimization") then Ok (mk_kwargs h e lr la rg s b1 b2 ep t)
      else Raise TypeError
  end.

Fixpoint bind_keywords (a : kwargs) (kws : list (string * pyval)) : res kwargs :=
  match kws with
  | [] => Ok a
  | kw :: kws' => a' ← bind_keyword a kw; bind_keywords a' kws'
  end.

(** [train_nn_model(X, y, **kws)] *)
Definition call_train_nn_model (rng : np_random) (X y : ndarray)
    (kws : list (string * pyval)) : traced (gmap string ndarray) :=
  a ← lift (bind_keywords defaults kws);
  train_nn_model rng X y a.

(** * Vocabulary of the statements *)

(** ** Shapes and entries *)

Definition has_shape (A : ndarray) (n m : nat) : Prop :=
  shape0 A = n ∧ shape1 A = m.

Definition same_shape (A B : ndarray) : Prop :=
  shape0 A = shape0 B ∧ shape1 A = shape1 B.

(** Every entry of the array satisfies [P]. *)
Definition all_entries (P : R → Prop) (A : ndarray) : Prop :=
  Forall (Forall P) (rows A).

Definition unit_interval (a : R) : Prop := (0 < a < 1)%R.

(** The parameter store holds exactly [W_i] of shape [(n_i, n_{i-1})] and
    [b_i] of shape [(n_i, 1)] for the layers [i = 1 .. L] of the topology
    [[n_0; ...; n_L]]. *)
Definition consistent (topology : list nat) (parameters : gmap string ndarray) : Prop :=
  size parameters = 2 * (length topology - 1) ∧
  ∀ i, 1 ≤ i < length topology →
    ∃ W b, parameters !! key "W" i = Some W ∧ parameters !! key "b" i = Some b ∧
           has_shape W (nth i topology 0) (nth (i - 1) topology 0) ∧
           has_shape b (nth i topology 0) 1.

(** The activation cache holds [A_i] of shape [(n_i, B)] for every layer
    [i = 0 .. L] of the topology. *)
Definition cache_of (topology : list nat) (B : nat) (activations : gmap string ndarray) : Prop :=
  ∀ i, i < length topology →
       ∃ A, activations !! key "A" i = Some A ∧ has_shape A (nth i topology 0) B.

(** ** Initializer *)

(** The widths for which [initialize_parameters] returns. *)
Definition layer_accepted (n_input_nodes n_output_nodes : Z) : Prop :=
  (0 < n_input_nodes ∧ 0 ≤ n_output_nodes)%Z.

(** ** Backward propagation *)

(** [dZ] is the error term of the last layer: [A_L - Y]. *)
Definition last_error_term (Y : ndarray) (activations : gmap string ndarray) (last : nat)
    (dZ : ndarray) : Prop :=
  ∃ AL, activations !! key "A" last = Some AL ∧ broadcast Rminus AL Y = Ok dZ.

(** [dZ] is the error term of a layer [l] below the last:
    [sigmoid'(A_l) * (W_{l+1}.T . dZ_{l+1})]. *)
Definition inner_error_term (parameters activations dz_dict : gmap string ndarray)
    (l : nat) (dZ : ndarray) : Prop :=
  ∃ Al W dZn sd WdZ,
    activations !! key "A" l = Some Al ∧ parameters !! key "W" (l + 1) = Some W ∧
    dz_dict !! key "dZ" (l + 1) = Some dZn ∧
    sigmoid_derivative Al = Ok sd ∧ dot (transpose W) dZn = Ok WdZ ∧
    broadcast Rmult sd WdZ = Ok dZ.

(** The error terms of a network: every layer has its own, of the shape of
    its activation. *)
Definition error_terms_of (topology : list nat) (B : nat) (Y : ndarray)
    (parameters activations dz_dict : gmap string ndarray) : Prop :=
  ∀ l, 1 ≤ l < length topology →
    ∃ dZ, dz_dict !! key "dZ" l = Some dZ ∧ has_shape dZ (nth l topology 0) B ∧
          (l = length topology - 1 → last_error_term Y activations l dZ) ∧
          (l < length topology - 1 → inner_error_term parameters activations dz_dict l dZ).

(** The weight gradient of one layer with the scaling [1/m]: [(1/m) dZ .
    A_prev^T], plus [(lambd/m) W] under L2 regularization. *)
Definition layer_dW (m : nat) (dZ A_prev W : ndarray) (lambd : R) (regularization : string)
  : res ndarray :=
  D ← dot dZ (transpose A_prev);
  if decide (regularization = "l2")
  then broadcast Rplus (scal (1 / INR m) D) (scal (lambd / INR m) W)
  else Ok (scal (1 / INR m) D).

(** The bias gradient of one layer with the scaling [1/m]. *)
Definition layer_db (m : nat) (dZ : ndarray) : ndarray :=
  scal (1 / INR m) (sum_axis1 dZ).

(** Layer [l] of the gradient store before regularization. *)
Definition plain_gradient_of (m : nat) (topology : list nat)
    (dz_dict activations gradients : gmap string ndarray) (l : nat) : Prop :=
  ∃ dZ A D,
    dz_dict !! key "dZ" l = Some dZ ∧ activations !! key "A" (l - 1) = Some A ∧
    dot dZ (transpose A) = Ok D ∧ has_shape D (nth l topology 0) (nth (l - 1) topology 0) ∧
    gradients !! key "dW" l = Some (scal (1 / INR m) D) ∧
    gradients !! key "db" l = Some (layer_db m dZ).

(** Layer [l] of the gradient store that [backward_propagation] returns
    when it scales by [1/m]. *)
Definition gradient_of (m : nat) (lambd : R) (regularization : string)
    (parameters activations dz_dict gradients : gmap string ndarray) (l : nat) : Prop :=
  ∃ dZ A_prev W dW,
    dz_dict !! key "dZ" l = Some dZ ∧ activations !! key "A" (l - 1) = Some A_prev ∧
    parameters !! key "W" l = Some W ∧
    layer_dW m dZ A_prev W lambd regularization = Ok dW ∧ same_shape dW W ∧
    gradients !! key "dW" l = Some dW ∧
    gradients !! key "db" l = Some (layer_db m dZ).

(** The gradients of one layer in the words of the specification: the
    scaling is [1/m] with [m] the number of columns of [Y]. *)
Definition stated_dW (Y dZ A_prev W : ndarray) (lambd : R) (regularization : string)
  : res ndarray :=
  layer_dW (shape1 Y) dZ A_prev W lambd regularization.

Definition stated_db (Y dZ : ndarray) : ndarray := layer_db (shape1 Y) dZ.

(** ** RMSProp *)

(** The step counters on which [beta ** t] is used for a bias correction:
    positive, and small enough to convert to a float exactly. *)
Definition step_counter (t : Z) : Prop := (1 ≤ t ≤ 2 ^ 53)%Z.

(** The decay rates of the moving averages. *)
Definition decay_rate (beta : R) : Prop := (0 <= beta < 1)%R.

(** No entry of the array is negative. *)
Definition nonnegative (A : ndarray) : Prop :=
  ∀ i j, i < shape0 A → j < shape1 A → (0 <= get A i j)%R.

(** The accumulators of layer [i] in the store [s] are not negative. *)
Definition nonnegative_layer (s : gmap string ndarray) (i : nat) : Prop :=
  ∀ A, s !! key "dW" i = Some A ∨ s !! key "db" i = Some A → nonnegative A.

(** The step [alpha / (eps + sqrt (a / (1 - bt)))] is defined at every
    entry [a] of the accumulator: the root is taken of a number that is not
    negative and the divisor is positive. *)
Definition root_defined (eps bt : R) (A : ndarray) : Prop :=
  ∀ i j, i < shape0 A → j < shape1 A →
    (0 <= get A i j / (1 - bt))%R ∧ (0 < eps + sqrt (get A i j / (1 - bt)))%R.

(** The accumulators of layer [i] in [s] are not negative and the step is
    defined on them. *)
Definition layer_defined (eps bt : R) (s : gmap string ndarray) (i : nat) : Prop :=
  ∀ A, s !! key "dW" i = Some A ∨ s !! key "db" i = Some A →
       nonnegative A ∧ root_defined eps bt A.

(** One RMSProp update of a tensor [theta] with gradient [g] and accumulator
    [s], entry by entry; [bt] stands for [beta ** t]. *)
Definition rmsprop_entrywise (alpha beta eps bt : R) (theta g s theta' s' : ndarray) : Prop :=
  same_shape theta' theta ∧ same_shape s' theta ∧
  ∀ i j, i < shape0 theta → j < shape1 theta →
    get s' i j = (beta * get s i j + (1 - beta) * get g i j ^ 2)%R ∧
    get theta' i j = (get theta i j - alpha * 1 / (eps + sqrt (get s' i j / (1 - bt))))%R.

(** Layer [i] has its weight, bias, gradients and accumulators, of matching
    shapes. *)
Definition layer_ready (parameters gradients s : gmap string ndarray) (i : nat) : Prop :=
  ∃ W b gW gb sW sb,
    parameters !! key "W" i = Some W ∧ parameters !! key "b" i = Some b ∧
    gradients !! key "dW" i = Some gW ∧ gradients !! key "db" i = Some gb ∧
    s !! key "dW" i = Some sW ∧ s !! key "db" i = Some sb ∧
    same_shape gW W ∧ same_shape sW W ∧ same_shape gb b ∧ same_shape sb b.

(** Layer [i] of [(parameters', s')] is the RMSProp update of layer [i] of
    [(parameters, s)]. *)
Definition layer_rmsprop (alpha beta eps bt : R)
    (parameters gradients s parameters' s' : gmap string ndarray) (i : nat) : Prop :=
  ∃ W b gW gb sW sb W' b' sW' sb',
    parameters !! key "W" i = Some W ∧ parameters !! key "b" i = Some b ∧
    gradients !! key "dW" i = Some gW ∧ gradients !! key "db" i = Some gb ∧
    s !! key "dW" i = Some sW ∧ s !! key "db" i = Some sb ∧
    parameters' !! key "W" i = Some W' ∧ parameters' !! key "b" i = Some b' ∧
    s' !! key "dW" i = Some sW' ∧ s' !! key "db" i = Some sb' ∧
    rmsprop_entrywise alpha beta eps bt W gW sW W' sW' ∧
    rmsprop_entrywise alpha beta eps bt b gb sb b' sb'.

(** ** Mini-batch sampler *)

(** The column indices of chunk [k]: [permutation[k*B : (k+1)*B]]. *)
Definition chunk_indices (permutation : list nat) (mini_batch_size : Z) (k : nat) : list nat :=
  slice (Z.of_nat k * mini_batch_size) ((Z.of_nat k + 1) * mini_batch_size) permutation.

(** ** Traces of the training loop *)

(** The update calls and the sampler widths of a trace, and the exception
    of a result. *)
Definition update_of (e : event) : option update_call :=
  match e with ev_update c => Some c | _ => None end.

Definition sampler_of (e : event) : option Z :=
  match e with ev_sampler w => Some w | _ => None end.

Definition raised {A : Type} (r : res A) : option exn :=
  match r with Ok _ => None | Raise e => Some e end.

(** The update call that a run with keyword arguments [a] makes. *)
Definition selected_update (a : kwargs) : update_call :=
  if decide (optimization a = "rmsprop") then call_update_parameters_rmsprop (t a)
  else if decide (optimization a = "adam") then call_update_parameters_adam (t a)
  else if decide (optimization a = "momentum") then call_update_parameters_momentum
  else call_update_parameters.

(** What every event of a run with keyword arguments [a] looks like. *)
Definition event_of_run (a : kwargs) (e : event) : Prop :=
  match e with
  | ev_sampler w => w = 64%Z
  | ev_update c => c = selected_update a
  | ev_print _ _ => True
  end.

Definition with_optimization (name : string) (a : kwargs) : kwargs :=
  mk_kwargs (hidden_layers a) (epochs a) (learning_rate a) (lambd a) (regularization a)
    name (beta1 a) (beta2 a) (epsilon a) (t a).

(** ** Cost *)

(** The sum of the squared weights of all layers, biases left out. *)
Definition squared_weights (parameters : gmap string ndarray) : R :=
  Rsum (map (λ i, match parameters !! key "W" i with
                  | Some W => np_sum (mmap (λ x, x ^ 2)%R W)
                  | None => 0%R
                  end)
          (range 1 (1 + size parameters `div` 2))).

(** Every layer of the store has its weight matrix. *)
Definition has_weights (parameters : gmap string ndarray) : Prop :=
  ∀ i, 1 ≤ i ≤ size parameters `div` 2 → is_Some (parameters !! key "W" i).

(** ** Update rules *)

(** One step of gradient descent on a tensor, entry by entry. *)
Definition descent_entrywise (alpha : R) (theta g theta' : ndarray) : Prop :=
  same_shape theta' theta ∧
  ∀ i j, i < shape0 theta → j < shape1 theta →
    get theta' i j = (get theta i j - alpha * get g i j)%R.

(** One momentum update of a tensor [theta] with gradient [g] and velocity
    [v], entry by entry. *)
Definition momentum_entrywise (alpha beta : R) (theta g v theta' v' : ndarray) : Prop :=
  same_shape theta' theta ∧ same_shape v' theta ∧
  ∀ i j, i < shape0 theta → j < shape1 theta →
    get v' i j = (beta * get v i j + (1 - beta) * get g i j)%R ∧
    get theta' i j = (get theta i j - alpha * get v' i j)%R.

(** One Adam update of a tensor, entry by entry; [bt1] and [bt2] stand for
    [beta1 ** t] and [beta2 ** t]. *)
Definition adam_entrywise (alpha beta1 beta2 eps bt1 bt2 : R)
    (theta g v s theta' v' s' : ndarray) : Prop :=
  same_shape theta' theta ∧ same_shape v' theta ∧ same_shape s' theta ∧
  ∀ i j, i < shape0 theta → j < shape1 theta →
    get v' i j = (beta1 * get v i j + (1 - beta1) * get g i j)%R ∧
    get s' i j = (beta2 * get s i j + (1 - beta2) * get g i j ^ 2)%R ∧
    get theta' i j
    = (get theta i j
       - alpha * (get v' i j / (1 - bt1) / (eps + sqrt (get s' i j / (1 - bt2)))))%R.

(** Layer [i] has its weight, bias and gradients, of matching shapes. *)
Definition layer_has_gradients (parameters gradients : gmap string ndarray) (i : nat) : Prop :=
  ∃ W b gW gb,
    parameters !! key "W" i = Some W ∧ parameters !! key "b" i = Some b ∧
    gradients !! key "dW" i = Some gW ∧ gradients !! key "db" i = Some gb ∧
    same_shape gW W ∧ same_shape gb b.

(** Layer [i] of [parameters'] is the gradient-descent update of layer [i]
    of [parameters]. *)
Definition layer_descent (alpha : R) (parameters gradients parameters' : gmap string ndarray)
    (i : nat) : Prop :=
  ∃ W b gW gb W' b',
    parameters !! key "W" i = Some W ∧ parameters !! key "b" i = Some b ∧
    gradients !! key "dW" i = Some gW ∧ gradients !! key "db" i = Some gb ∧
    parameters' !! key "W" i = Some W' ∧ parameters' !! key "b" i = Some b' ∧
    descent_entrywise alpha W gW W' ∧ descent_entrywise alpha b gb b'.

(** Layer [i] of [(parameters', v')] is the momentum update of layer [i]
    of [(parameters, v)]. *)
Definition layer_momentum (alpha beta : R)
    (parameters gradients v parameters' v' : gmap string ndarray) (i : nat) : Prop :=
  ∃ W b gW gb vW vb W' b' vW' vb',
    parameters !! key "W" i = Some W ∧ parameters !! key "b" i = Some b ∧
    gradients !! key "dW" i = Some gW ∧ gradients !! key "db" i = Some gb ∧
    v !! key "dW" i = Some vW ∧ v !! key "db" i = Some vb ∧
    parameters' !! key "W" i = Some W' ∧ parameters' !! key "b" i = Some b' ∧
    v' !! key "dW" i = Some vW' ∧ v' !! key "db" i = Some vb' ∧
    momentum_entrywise alpha beta W gW vW W' vW' ∧
    momentum_entrywise alpha beta b gb vb b' vb'.

(** Layer [i] of [(parameters', v', s')] is the Adam update of layer [i]
    of [(parameters, v, s)]. *)
Definition layer_adam (alpha beta1 beta2 eps bt1 bt2 : R)
    (parameters gradients v s parameters' v' s' : gmap string ndarray) (i : nat) : Prop :=
  ∃ W b gW gb vW vb sW sb W' b' vW' vb' sW' sb',
    parameters !! key "W" i = Some W ∧ parameters !! key "b" i = Some b ∧
    gradients !! key "dW" i = Some gW ∧ gradients !! key "db" i = Some gb ∧
    v !! key "dW" i = Some vW ∧ v !! key "db" i = Some vb ∧
    s !! key "dW" i = Some sW ∧ s !! key "db" i = Some sb ∧
    parameters' !! key "W" i = Some W' ∧ parameters' !! key "b" i = Some b' ∧
    v' !! key "dW" i = Some vW' ∧ v' !! key "db" i = Some vb' ∧
    s' !! key "dW" i = Some sW' ∧ s' !! key "db" i = Some sb' ∧
    adam_entrywise alpha beta1 beta2 eps bt1 bt2 W gW vW sW W' vW' sW' ∧
    adam_entrywise alpha beta1 beta2 eps bt1 bt2 b gb vb sb b' vb' sb'.

(** Every layer of the store has its weight and its bias. *)
Definition has_layers (parameters : gmap string ndarray) : Prop :=
  ∀ i, 1 ≤ i ≤ size parameters `div` 2 →
       is_Some (parameters !! key "W" i) ∧ is_Some (parameters !! key "b" i).

(** ** Initial values *)

(** Layer [i] as the Initializer makes it from the samples [g]: the
    weights are the samples scaled by [sqrt(1/n_in)], the biases are
    zero. *)
Definition initial_layer (g : nat → nat → R) (n_in n_out : Z)
    (parameters : gmap string ndarray) (i : nat) : Prop :=
  ∃ W, parameters !! key "W" i = Some W ∧
       parameters !! key "b" i = Some (zeros (Z.to_nat n_out) 1) ∧
       has_shape W (Z.to_nat n_out) (Z.to_nat n_in) ∧
       ∀ r c, r < Z.to_nat n_out → c < Z.to_nat n_in →
              get W r c = (g r c * sqrt (1 / IZR n_in))%R.

(** ** Layers of the forward pass *)

(** [Z = W . A_prev + b], entry by entry, the bias being added to every
    column. *)
Definition affine (W b A_prev Z : ndarray) : Prop :=
  has_shape Z (shape0 W) (shape1 A_prev) ∧
  ∀ r c, r < shape0 W → c < shape1 A_prev →
    get Z r c = (sum_upto (shape1 W) (λ k, get W r k * get A_prev k c) + get b r 0)%R.

(** Layer [i] of the cache is the sigmoid of the affine image of layer
    [i - 1]. *)
Definition layer_of_cache (parameters activations : gmap string ndarray) (i : nat) : Prop :=
  ∃ W b A_prev Z,
    parameters !! key "W" i = Some W ∧ parameters !! key "b" i = Some b ∧
    activations !! key "A" (i - 1) = Some A_prev ∧
    affine W b A_prev Z ∧ activations !! key "A" i = Some (sigmoid Z).

(** ** Accuracy *)

(** The number of columns [j < m] at which row 0 of [A] and of [B] agree. *)
Definition agreements (A B : ndarray) (m : nat) : nat :=
  length (List.filter (λ j, agree (get A 0 j) (get B 0 j)) (seq 0 m)).

(** ** Outcomes of a training run *)

(** A traced computation that ends in an exception. *)
Definition fails {A : Type} (m : traced A) : Prop := ∃ e, snd m = Raise e.

(** The store [d] holds, for every layer of the topology, an array of the
    shape of the weight under ['dW'] and one of the shape of the bias under
    ['db']: the shape of a gradient store and of an accumulator store. *)
Definition shaped_like (topology : list nat) (d : gmap string ndarray) : Prop :=
  ∀ i, 1 ≤ i < length topology →
    ∃ dW db, d !! key "dW" i = Some dW ∧ d !! key "db" i = Some db ∧
             has_shape dW (nth i topology 0) (nth (i - 1) topology 0) ∧
             has_shape db (nth i topology 0) 1.

(** What the loop of [train_nn_model] keeps: the parameters stay
    consistent with the topology, and the accumulators of the selected
    update rule are bound and have the shapes of the parameters. *)
Definition ready_for (topology : list nat) (a : kwargs) (st : locals) : Prop :=
  consistent topology (l_parameters st) ∧
  (optimization a = "rmsprop" → ∃ s, l_s st = Some s ∧ shaped_like topology s) ∧
  (optimization a = "adam" →
   ∃ v s, l_v st = Some v ∧ l_s st = Some s ∧ shaped_like topology v ∧ shaped_like topology s) ∧
  (optimization a = "momentum" → ∃ v, l_v st = Some v ∧ shaped_like topology v).

(** The exponents [beta ** t] of the bias corrections are defined. *)
Definition powers_defined (a : kwargs) : Prop :=
  (0 ≤ t a)%Z ∨ (beta1 a ≠ 0%R ∧ beta2 a ≠ 0%R).

(** The hyperparameters of the bias corrections are in the range the
    update rules are meant for: a step counter [t >= 1] and decay rates in
    [[0, 1)].  No power [beta ** t] overflows there. *)
Definition hyperparameters_in_range (a : kwargs) : Prop :=
  step_counter (t a) ∧ decay_rate (beta1 a) ∧ decay_rate (beta2 a).

(** The topology that [train_nn_model] builds. *)
Definition topology_of (X : ndarray) (a : kwargs) : list nat :=
  shape0 X :: (Z.to_nat <$> hidden_layers a) ++ [1].

(** * Concrete inputs *)

(** ** The logistic-regression scenario

    Topology [[2; 1]], [W_1 = [[0.5, -0.5]]], [b_1 = [[0]]], one example
    [X = [[1], [1]]] with label [Y = [[1]]]. *)

Definition scenario_W1 : ndarray := array [[0.5; -0.5]]%R.

Definition scenario_b1 : ndarray := array [[0]]%R.

Definition scenario_X : ndarray := array [[1]; [1]]%R.

Definition scenario_Y : ndarray := array [[1]]%R.

Definition scenario_parameters : gmap string ndarray :=
  <["b1" := scenario_b1]> (<["W1" := scenario_W1]> ∅).

Definition scenario_activations : gmap string ndarray :=
  <["A1" := array [[0.5]]%R]> (<["A0" := scenario_X]> ∅).

Definition scenario_gradients : gmap string ndarray :=
  <["db1" := array [[-0.5]]%R]> (<["dW1" := array [[-0.5; -0.5]]%R]> ∅).

(** Zero accumulators for the scenario. *)
Definition scenario_s : gmap string ndarray :=
  <["db1" := zeros 1 1]> (<["dW1" := zeros 1 2]> ∅).

(** ** A batch of two examples

    Topology [[1; 1]], [W_1 = [[1]]], [b_1 = [[-1]]], two examples
    [X = [[1, 1]]] with labels [Y = [[1, 1]]]. *)

Definition pair_X : ndarray := array [[1; 1]]%R.

Definition pair_Y : ndarray := array [[1; 1]]%R.

Definition pair_parameters : gmap string ndarray :=
  <["b1" := array [[-1]]%R]> (<["W1" := array [[1]]%R]> ∅).

Definition pair_activations : gmap string ndarray :=
  <["A1" := array [[0.5; 0.5]]%R]> (<["A0" := pair_X]> ∅).

Definition pair_error_terms : gmap string ndarray :=
  <["dZ1" := array [[-0.5; -0.5]]%R]> ∅.

(** What [backward_propagation] returns on it. *)
Definition pair_gradients : gmap string ndarray :=
  <["db1" := array [[-1]]%R]> (<["dW1" := array [[1]]%R]> ∅).

(** ** Small data sets *)

(** Four examples and five examples, one feature each. *)
Definition four_X : ndarray := array [[1; 2; 3; 4]]%R.

Definition four_Y : ndarray := array [[1; 0; 1; 0]]%R.

Definition five_X : ndarray := array [[1; 2; 3; 4; 5]]%R.

Definition five_Y : ndarray := array [[1; 0; 1; 0; 1]]%R.

(** A generator that draws zeros and the one-element permutation, and a
    data set of one example. *)
Definition zero_rng : np_random := mk_np_random (λ _ _ _, 0%R) (λ _, [0]).

Definition one_X : ndarray := array [[1]]%R.

Definition one_y : ndarray := array [[1]]%R.

(** A generator that draws zeros and, in every epoch, the identity
    permutation of 64 examples. *)
Definition ordered_rng : np_random := mk_np_random (λ _ _ _, 0%R) (λ _, seq 0 64).

(** ** A saturated unit *)

Section binary64_inputs.
Import PrimFloat.


End binary64_inputs.

(** ** Fixed-point bounds of the exponential

    Arithmetic with 60 fractional bits: [fx_exp_lower p q n] is a lower
    approximation of [(1 + (p/q)/2^n)^(2^n)], itself at most [exp (p/q)]. *)

Definition fx_one : Z := (2 ^ 60)%Z.

Definition fx_square (z : Z) : Z := ((z * z) `div` fx_one)%Z.

Definition fx_pow2 (n : nat) (z : Z) : Z := Nat.iter n fx_square z.

Definition fx_exp_lower (p q : Z) (n : nat) : Z :=
  fx_pow2 n (fx_one + (p * fx_one) `div` (q * 2 ^ Z.of_nat n))%Z.

(** * Properties *)

(** ** Loops *)

(** A loop whose body keeps an invariant, indexed by the iterations already
    run, and never raises under it, returns with the invariant. *)
Lemma for_total {S : Type} (I : list nat → S → Prop) (l : list nat)
    (body : nat → S → res S) (s : S) :
  I [] s →
  (∀ done i s1, done ++ [i] `prefix_of` l → I done s1 →
                ∃ s2, body i s1 = Ok s2 ∧ I (done ++ [i]) s2) →
  ∃ s', for_ l body s = Ok s' ∧ I l s'.
Proof.
  intros H0 Hstep.
  assert (∀ rest done s1, l = done ++ rest → I done s1 →
                          ∃ s', for_ rest body s1 = Ok s' ∧ I l s') as Hgen.
  { induction rest as [|i rest IH]; intros done s1 Hl Hd; simpl.
    - exists s1. by rewrite Hl, app_nil_r.
    - destruct (Hstep done i s1) as (s2 & -> & H2); [|done|].
      { exists rest. by rewrite Hl, <- app_assoc. }
      apply (IH (done ++ [i]) s2); [by rewrite <- app_assoc | done]. }
  by apply (Hgen l [] s).
Qed.

(** A loop raises only what its body raises. *)
Lemma for_Raise {S : Type} (l : list nat) (body : nat → S → res S) (s : S) (e : exn) :
  for_ l body s = Raise e → ∃ i s1, i ∈ l ∧ body i s1 = Raise e.
Proof.
  revert s. induction l as [|i l IH]; intros s H; simpl in H; [done|].
  destruct (body i s) as [s'|e'] eqn:Hb.
  - destruct (IH s' H) as (j & s1 & Hj & Hr). exists j, s1. split; [by right | done].
  - injection H as ->. exists i, s. split; [by left | done].
Qed.

(** When a loop returns, its body has returned at every index. *)
Lemma for_Ok_each {S : Type} (l : list nat) (body : nat → S → res S) (s s' : S) :
  for_ l body s = Ok s' → ∀ i, i ∈ l → ∃ s1 s2, body i s1 = Ok s2.
Proof.
  revert s. induction l as [|j l IH]; intros s H i Hi; simpl in H.
  - by apply elem_of_nil in Hi.
  - destruct (body j s) as [s2|] eqn:Hb; [|done].
    apply elem_of_cons in Hi as [->|Hi]; [by exists s, s2 | by apply (IH s2)].
Qed.

(** The iteration that follows [done] in [range(a, a+n)]. *)
Lemma prefix_seq_snoc (done : list nat) (i a n : nat) :
  done ++ [i] `prefix_of` seq a n → done = seq a (length done) ∧ i = a + length done ∧ length done < n.
Proof.
  intros [rest Hrest].
  assert (length (seq a n) = length ((done ++ [i]) ++ rest)) as Hlen by (by rewrite Hrest).
  rewrite length_seq, !length_app in Hlen. simpl in Hlen.
  assert (n = length done + (1 + length rest)) as Hn by lia.
  rewrite Hn, seq_app in Hrest. simpl in Hrest.
  rewrite <- app_assoc in Hrest. simpl in Hrest.
  apply app_inj_1 in Hrest as [Hd Hr]; [|by rewrite length_seq].
  injection Hr as Hi _. split; [done|]. split; lia.
Qed.

(** The iteration that follows [done] in [range(n, 0, -1)]. *)
Lemma prefix_range_down_snoc (done : list nat) (i n : nat) :
  done ++ [i] `prefix_of` range_down n → i = n - length done ∧ length done < n.
Proof.
  intros Hp. unfold range_down in Hp. rewrite rev_alt in Hp. fold (reverse (seq 1 n)) in Hp.
  pose proof (prefix_length _ _ Hp) as Hlen.
  rewrite length_app, length_reverse, length_seq in Hlen. simpl in Hlen.
  assert ((done ++ [i]) !! length done = Some i) as Hi by apply list_lookup_middle, eq_refl.
  pose proof (prefix_lookup_Some _ _ _ _ Hi Hp) as Hr.
  rewrite reverse_lookup, length_seq, lookup_seq_lt in Hr by (rewrite ?length_seq; lia).
  injection Hr as <-. lia.
Qed.

Lemma range_down_length (n : nat) : length (range_down n) = n.
Proof. unfold range_down. by rewrite length_rev, length_seq. Qed.

(** ** Arrays *)

Lemma nth_tabulate_row (n : nat) (g : nat → list R) (i : nat) :
  i < n → nth i (map g (seq 0 n)) [] = g i.
Proof.
  intros Hi. rewrite (nth_indep _ [] (g 0)) by (by rewrite length_map, length_seq).
  by rewrite (map_nth g), seq_nth.
Qed.

(** Reading an entry of a tabulated array. *)
Lemma get_tabulate (n m : nat) (f : nat → nat → R) (i j : nat) :
  i < n → j < m → get (tabulate n m f) i j = f i j.
Proof.
  intros Hi Hj. unfold get, tabulate; simpl.
  rewrite (nth_tabulate_row n (λ i, map (f i) (seq 0 m))) by done.
  rewrite (nth_indep _ 0%R (f i 0)) by (by rewrite length_map, length_seq).
  by rewrite (map_nth (f i)), seq_nth.
Qed.

Lemma tabulate_ext (n m : nat) (f g : nat → nat → R) :
  (∀ i j, i < n → j < m → f i j = g i j) → tabulate n m f = tabulate n m g.
Proof.
  intros H. unfold tabulate. f_equal.
  apply map_ext_in. intros i Hi%in_seq.
  apply map_ext_in. intros j Hj%in_seq. apply H; lia.
Qed.

Lemma well_formed_tabulate (n m : nat) (f : nat → nat → R) :
  well_formed (tabulate n m f).
Proof.
  split; simpl.
  - by rewrite length_map, length_seq.
  - apply Forall_map, Forall_forall. intros i _. simpl.
    by rewrite length_map, length_seq.
Qed.

Lemma all_entries_tabulate (P : R → Prop) (n m : nat) (f : nat → nat → R) :
  (∀ i j, i < n → j < m → P (f i j)) → all_entries P (tabulate n m f).
Proof.
  intros H. unfold all_entries, tabulate; simpl.
  apply Forall_map, Forall_forall. intros i Hi%elem_of_seq. simpl.
  apply Forall_map, Forall_forall. intros j Hj%elem_of_seq. simpl.
  apply H; lia.
Qed.

Lemma all_entries_get (P : R → Prop) (A : ndarray) (i j : nat) :
  well_formed A → all_entries P A → i < shape0 A → j < shape1 A → P (get A i j).
Proof.
  intros [Hr Hc] HP Hi Hj. unfold get.
  assert (is_Some (rows A !! i)) as [r Hri] by (apply lookup_lt_is_Some; lia).
  rewrite (nth_lookup_Some _ _ _ _ Hri).
  pose proof (proj1 (Forall_lookup _ _) Hc _ _ Hri) as Hlen. simpl in Hlen.
  assert (is_Some (r !! j)) as [x Hx] by (apply lookup_lt_is_Some; lia).
  rewrite (nth_lookup_Some _ _ _ _ Hx).
  eapply (proj1 (Forall_lookup _ _)); [|exact Hx].
  eapply (proj1 (Forall_lookup _ _) HP); exact Hri.
Qed.

Lemma get_mmap (f : R → R) (A : ndarray) (i j : nat) :
  i < shape0 A → j < shape1 A → get (mmap f A) i j = f (get A i j).
Proof. intros. unfold mmap. by rewrite get_tabulate. Qed.

Lemma get_scal (c : R) (A : ndarray) (i j : nat) :
  i < shape0 A → j < shape1 A → get (scal c A) i j = (c * get A i j)%R.
Proof. intros. unfold scal. by rewrite get_mmap. Qed.

Lemma bdim_same (a : nat) : bdim a a = Ok a.
Proof. unfold bdim. by rewrite decide_True. Qed.

Lemma bdim_one_r (a : nat) : bdim a 1 = Ok a.
Proof. unfold bdim. repeat case_decide; congruence. Qed.

Lemma dot_Ok (A B : ndarray) :
  shape1 A = shape0 B →
  dot A B = Ok (tabulate (shape0 A) (shape1 B)
                  (λ i k, sum_upto (shape1 A) (λ j, get A i j * get B j k)%R)).
Proof. intros H. unfold dot. by rewrite decide_True. Qed.

(** Element-wise operation on two arrays of one shape. *)
Lemma broadcast_same (f : R → R → R) (A B : ndarray) :
  shape0 A = shape0 B → shape1 A = shape1 B →
  ∃ C, broadcast f A B = Ok C ∧ has_shape C (shape0 A) (shape1 A) ∧
       ∀ i j, i < shape0 A → j < shape1 A → get C i j = f (get A i j) (get B i j).
Proof.
  intros H0 H1. unfold broadcast. rewrite <- H0, <- H1, !bdim_same. simpl.
  eexists; split; [done|]. split; [done|].
  intros i j Hi Hj. rewrite get_tabulate by done.
  unfold bidx. repeat case_decide; f_equal; f_equal; lia.
Qed.

(** Adding a column vector to every column. *)
Lemma broadcast_column (f : R → R → R) (A b : ndarray) :
  shape0 A = shape0 b → shape1 b = 1 →
  ∃ C, broadcast f A b = Ok C ∧ has_shape C (shape0 A) (shape1 A) ∧
       ∀ i j, i < shape0 A → j < shape1 A → get C i j = f (get A i j) (get b i 0).
Proof.
  intros H0 H1. unfold broadcast. rewrite <- H0, H1, bdim_same, bdim_one_r. simpl.
  eexists; split; [done|]. split; [done|].
  intros i j Hi Hj. rewrite get_tabulate by done.
  unfold bidx. rewrite (decide_True (P := 1 = 1)) by done.
  repeat case_decide; f_equal; f_equal; lia.
Qed.

Lemma isub_same (A B : ndarray) :
  same_shape B A →
  ∃ C, isub A B = Ok C ∧ same_shape C A ∧
       ∀ i j, i < shape0 A → j < shape1 A → get C i j = (get A i j - get B i j)%R.
Proof.
  intros [H0 H1]. unfold isub.
  destruct (broadcast_same Rminus A B) as (C & -> & [HC0 HC1] & HC); [done..|].
  simpl. rewrite decide_True by done. by exists C.
Qed.

Lemma take_cols_Ok (A : ndarray) (idx : list nat) :
  Forall (λ p, p < shape1 A) idx →
  take_cols A idx = Ok (tabulate (shape0 A) (length idx) (λ i j, get A i (nth j idx 0))).
Proof.
  intros H. unfold take_cols.
  assert (forallb (λ p, p <? shape1 A) idx = true) as ->; [|done].
  apply forallb_forall. intros p Hp.
  apply Nat.ltb_lt. rewrite Forall_forall in H. apply H. by apply list_elem_of_In.
Qed.

Lemma py_div_Ok (a : R) (m : nat) : m ≠ 0 → py_div a m = Ok (a / INR m)%R.
Proof. intros H. unfold py_div. by rewrite decide_False. Qed.

Lemma py_pow_Ok (b : R) (t : Z) :
  (0 ≤ t)%Z ∨ b ≠ 0%R → py_pow b t = Ok (powerRZ b t).
Proof.
  intros H. unfold py_pow. case_decide; [|done].
  destruct (Req_EM_T b 0); [|done]. destruct H; [lia | done].
Qed.

(** On a step counter and a decay rate, [beta ** t] lies in [[0, 1)]. *)
Lemma decay_power (beta : R) (t : Z) :
  step_counter t → decay_rate beta → (0 <= powerRZ beta t < 1)%R.
Proof.
  intros [Ht _] Hb.
  rewrite <- (Z2Nat.id t) by lia. rewrite <- pow_powerRZ.
  apply pow_lt_1_compat; [exact Hb | lia].
Qed.

Lemma step_counter_2 : step_counter 2.
Proof. split; [lia|]. apply Z.leb_le. reflexivity. Qed.

Lemma second_moment_nonnegative (beta a g : R) :
  decay_rate beta → (0 <= a)%R → (0 <= beta * a + (1 - beta) * g ^ 2)%R.
Proof.
  intros [H0 H1] Ha. pose proof (pow2_ge_0 g).
  apply Rplus_le_le_0_compat; apply Rmult_le_pos; lra.
Qed.

Lemma root_defined_of_nonnegative (eps bt : R) (A : ndarray) :
  (0 < eps)%R → (0 < 1 - bt)%R → nonnegative A → root_defined eps bt A.
Proof.
  intros He Hb HA i j Hi Hj.
  assert (0 <= get A i j / (1 - bt))%R as H.
  { unfold Rdiv. apply Rmult_le_pos; [by apply HA|]. left. by apply Rinv_0_lt_compat. }
  split; [done|]. pose proof (sqrt_pos (get A i j / (1 - bt))). lra.
Qed.

(** ** Keys and dictionaries *)

(** [str] is injective, so the keys of distinct layers are distinct. *)
Lemma key_inj (p : string) (i j : nat) : key p i = key p j → i = j.
Proof. unfold key. intros H%(inj (String.app p)). by apply (inj pretty). Qed.

Lemma key_ne (p : string) (i j : nat) : i ≠ j → key p i ≠ key p j.
Proof. intros Hne Heq. by apply key_inj in Heq. Qed.

Lemma key_A0 : key "A" 0 = "A0".
Proof. reflexivity. Qed.

Lemma key_W_b (i j : nat) : key "W" i ≠ key "b" j.
Proof. unfold key. intros H. injection H. discriminate. Qed.

Lemma key_dW_db (i j : nat) : key "dW" i ≠ key "db" j.
Proof. unfold key. intros H. injection H. discriminate. Qed.

Lemma getitem_Some {V : Type} (d : gmap string V) (k : string) (v : V) :
  getitem d k = Ok v ↔ d !! k = Some v.
Proof. unfold getitem. destruct (d !! k); split; congruence. Qed.

Lemma getitem_insert_eq {V : Type} (d : gmap string V) (k : string) (v : V) :
  getitem (<[k:=v]> d) k = Ok v.
Proof. unfold getitem. by rewrite lookup_insert_eq. Qed.
Lemma getitem_insert_ne {V : Type} (d : gmap string V) (k k' : string) (v : V) :
  k ≠ k' → getitem (<[k:=v]> d) k' = getitem d k'.
Proof. intros. unfold getitem. by rewrite lookup_insert_ne. Qed.

(** ** Evaluation on concrete inputs *)

Ltac norm_keys :=
  repeat match goal with
         | |- context [key ?p ?i] =>
             let r := eval vm_compute in (key p i) in change (key p i) with r
         end.
Ltac arr_eval t :=
  let r := eval cbv -[Rplus Rmult Rminus Ropp Rinv Rdiv exp ln sqrt IZR INR pow powerRZ
                      Rlt_dec Req_EM_T logistic threshold] in t in
  progress change t with r.
Ltac eval_arrays :=
  repeat match goal with
         | |- context [dot ?A ?B] => arr_eval (dot A B)
         | |- context [broadcast ?f ?A ?B] => arr_eval (broadcast f A B)
         | |- context [isub ?A ?B] => arr_eval (isub A B)
         | |- context [sigmoid_derivative ?A] => arr_eval (sigmoid_derivative A)
         | |- context [py_div ?a ?m] => arr_eval (py_div a m)
         | |- context [decay ?b ?A ?B] => arr_eval (decay b A B)
         | |- context [np_sum ?A] => arr_eval (np_sum A)
         | |- context [scal ?c ?A] => arr_eval (scal c A)
         | |- context [sum_axis1 ?A] => arr_eval (sum_axis1 A)
         | |- context [mmap ?f ?A] => arr_eval (mmap f A)
         | |- context [transpose ?A] => arr_eval (transpose A)
         end.
Ltac py_step :=
  first [ progress cbn [for_ mbind res_bind]
        | progress norm_keys
        | rewrite getitem_insert_eq
        | rewrite getitem_insert_ne by done
        | progress eval_arrays ].
Ltac py_eval := repeat py_step.
Ltac r_norm :=
  cbv -[Rplus Rmult Rminus Ropp Rinv Rdiv exp ln sqrt IZR pow powerRZ
        Rlt_dec Req_EM_T logistic threshold lookup insert empty
        gmap_lookup map_insert gmap_partial_alter gmap_empty].

Ltac solve_array_eq :=
  r_norm;
  repeat match goal with
         | |- mk_array _ _ _ = mk_array _ _ _ => f_equal
         | |- _ :: _ = _ :: _ => f_equal
         | |- @eq R _ _ => lra
         | |- _ => reflexivity
         end.
Ltac solve_map_eq :=
  apply map_eq; intros ?k; rewrite ?lookup_insert, ?lookup_empty;
  repeat case_decide; simplify_eq; try done; f_equal; solve_array_eq.

(** ** Initializer *)

Lemma initialize_parameters_Ok (g : nat → nat → R) (n_in n_out : Z) :
  layer_accepted n_in n_out →
  ∃ W b, initialize_parameters g n_in n_out = Ok (W, b) ∧
         has_shape W (Z.to_nat n_out) (Z.to_nat n_in) ∧ has_shape b (Z.to_nat n_out) 1 ∧
         b = zeros (Z.to_nat n_out) 1.
Proof.
  intros [Hin Hout]. unfold initialize_parameters, randn.
  rewrite decide_False by lia. cbn [mbind res_bind].
  rewrite decide_False by lia. cbn [mbind res_bind].
  eexists _, _. split; [done|]. done.
Qed.

Lemma initialize_parameters_Raise (g : nat → nat → R) (n_in n_out : Z) :
  ¬ layer_accepted n_in n_out →
  (initialize_parameters g n_in n_out = Raise ValueError ∧ (n_in < 0 ∨ n_out < 0)%Z) ∨
  (initialize_parameters g n_in n_out = Raise ZeroDivisionError ∧ n_in = 0%Z ∧ (0 ≤ n_out)%Z).
Proof.
  intros Hno. unfold layer_accepted in Hno. unfold initialize_parameters, randn.
  destruct (decide (n_out < 0 ∨ n_in < 0)%Z) as [Hneg|Hpos].
  - left. split; [done | tauto].
  - right. cbn [mbind res_bind]. rewrite decide_True by lia. split; [done | lia].
Qed.

Lemma initialize_parameters_cases (g : nat → nat → R) (n_in n_out : Z) :
  (layer_accepted n_in n_out ∧ ∃ Wb, initialize_parameters g n_in n_out = Ok Wb) ∨
  (¬ layer_accepted n_in n_out ∧
   ∃ e, initialize_parameters g n_in n_out = Raise e ∧ (e = ValueError ∨ e = ZeroDivisionError)).
Proof.
  destruct (decide (0 < n_in ∧ 0 ≤ n_out)%Z) as [Hok|Hno].
  - left. split; [done|].
    destruct (initialize_parameters_Ok g n_in n_out Hok) as (W & b & -> & _). eauto.
  - right. split; [done|].
    destruct (initialize_parameters_Raise g n_in n_out Hno) as [[-> _]|[-> _]]; eauto.
Qed.

Lemma create_layers_Ok (gauss : nat → nat → nat → R) (layers_list : list Z) :
  (∀ idx, 1 ≤ idx < length layers_list →
          layer_accepted (nth (idx - 1) layers_list 0%Z) (nth idx layers_list 0%Z)) →
  ∃ parameters, create_layers gauss layers_list = Ok parameters ∧
                consistent (Z.to_nat <$> layers_list) parameters.
Proof.
  intros Hacc. unfold create_layers, range.
  set (n := length layers_list - 1).
  destruct (for_total
    (λ done (p : gmap string ndarray),
       size p = 2 * length done ∧
       (∀ j, 1 ≤ j ≤ length done →
          ∃ W b, p !! key "W" j = Some W ∧ p !! key "b" j = Some b ∧
                 has_shape W (Z.to_nat (nth j layers_list 0%Z))
                             (Z.to_nat (nth (j - 1) layers_list 0%Z)) ∧
                 has_shape b (Z.to_nat (nth j layers_list 0%Z)) 1) ∧
       (∀ j, length done < j → p !! key "W" j = None ∧ p !! key "b" j = None))
    (seq 1 n) (create_layer gauss layers_list) ∅) as (p & Hrun & Hsize & Hin & _).
  - split; [done|]. split; [simpl; lia|]. intros j _. by rewrite !lookup_empty.
  - intros done i p (_ & -> & Hlt)%prefix_seq_snoc (Hsize & Hin & Hout).
    destruct (initialize_parameters_Ok (gauss (1 + length done))
                (nth (1 + length done - 1) layers_list 0%Z)
                (nth (1 + length done) layers_list 0%Z))
      as (W & b & HWb & HWs & Hbs & _); [apply Hacc; lia|].
    unfold create_layer. rewrite HWb. cbn [mbind res_bind].
    eexists. split; [done|].
    destruct (Hout (1 + length done)) as [HnW Hnb]; [lia|].
    rewrite length_app. simpl. split; [|split].
    + rewrite !map_size_insert_None; [lia | done |].
      rewrite lookup_insert_ne by apply key_W_b. done.
    + intros j Hj. destruct (decide (j = 1 + length done)) as [->|Hne].
      * exists W, b. rewrite lookup_insert_eq.
        rewrite lookup_insert_ne by (symmetry; apply key_W_b).
        rewrite lookup_insert_eq. done.
      * destruct (Hin j) as (W' & b' & ? & ? & ? & ?); [lia|].
        exists W', b'.
        rewrite (lookup_insert_ne _ (key "b" _) (key "W" j)) by (symmetry; apply key_W_b).
        rewrite (lookup_insert_ne _ (key "W" _) (key "W" j)) by (by apply key_ne).
        rewrite (lookup_insert_ne _ (key "b" _) (key "b" j)) by (by apply key_ne).
        rewrite (lookup_insert_ne _ (key "W" _) (key "b" j)) by apply key_W_b.
        done.
    + intros j Hj. destruct (Hout j) as [? ?]; [lia|].
      rewrite (lookup_insert_ne _ (key "b" _) (key "W" j)) by (symmetry; apply key_W_b).
      rewrite (lookup_insert_ne _ (key "W" _) (key "W" j)) by (apply key_ne; lia).
      rewrite (lookup_insert_ne _ (key "b" _) (key "b" j)) by (apply key_ne; lia).
      rewrite (lookup_insert_ne _ (key "W" _) (key "b" j)) by apply key_W_b.
      done.
  - exists p. split; [done|]. rewrite length_seq in Hsize, Hin.
    split; [by rewrite length_fmap|].
    intros i Hi. rewrite length_fmap in Hi.
    destruct (Hin i) as (W & b & ? & ? & ? & ?); [unfold n; lia|].
    exists W, b.
    change 0 with (Z.to_nat 0%Z). rewrite !(map_nth Z.to_nat). done.
Qed.

(** C7, as the code has it.  The Initializer validates nothing itself.  A
    topology with fewer than two entries yields the empty parameter store.
    Otherwise it returns exactly when every layer's input width is positive
    and output width is non-negative, that is, unless some width is negative
    or a width other than the last is zero; it then raises [ValueError]
    (negative width) or [ZeroDivisionError] (zero input width), never a
    configuration error of its own.  For every valid topology it returns a
    store consistent with the topology. *)
Theorem create_layers_outcome (gauss : nat → nat → nat → R) (layers_list : list Z) :
  (length layers_list < 2 → create_layers gauss layers_list = Ok ∅) ∧
  ((∃ parameters, create_layers gauss layers_list = Ok parameters) ↔
   (∀ idx, 1 ≤ idx < length layers_list →
           layer_accepted (nth (idx - 1) layers_list 0%Z) (nth idx layers_list 0%Z))) ∧
  (∀ e, create_layers gauss layers_list = Raise e → e = ValueError ∨ e = ZeroDivisionError) ∧
  (2 ≤ length layers_list → Forall (λ n, 0 < n)%Z layers_list →
   ∃ parameters, create_layers gauss layers_list = Ok parameters ∧
                 consistent (Z.to_nat <$> layers_list) parameters).
Proof.
  split; [|split; [|split]].
  - intros Hlen. unfold create_layers, range.
    replace (length layers_list - 1) with 0 by lia. done.
  - split.
    + intros [p Hp] idx Hidx. unfold create_layers, range in Hp.
      destruct (for_Ok_each _ _ _ _ Hp idx) as (s1 & s2 & Hb).
      { apply elem_of_seq. lia. }
      unfold create_layer in Hb.
      destruct (initialize_parameters_cases (gauss idx) (nth (idx - 1) layers_list 0%Z)
                  (nth idx layers_list 0%Z)) as [[Hok _]|[_ (e & He & _)]]; [done|].
      rewrite He in Hb. done.
    + intros Hacc. destruct (create_layers_Ok gauss layers_list Hacc) as (p & Hp & _). eauto.
  - intros e He. unfold create_layers in He.
    destruct (for_Raise _ _ _ _ He) as (i & s1 & _ & Hb). unfold create_layer in Hb.
    destruct (initialize_parameters_cases (gauss i) (nth (i - 1) layers_list 0%Z)
                (nth i layers_list 0%Z)) as [[_ ([W b] & HOk)]|[_ (e' & He' & Hcases)]].
    + rewrite HOk in Hb. done.
    + rewrite He' in Hb. injection Hb as ->. done.
  - intros Hlen Hpos. apply create_layers_Ok. intros idx Hidx.
    rewrite Forall_forall in Hpos. split.
    + apply Hpos. apply list_elem_of_In, nth_In. lia.
    + apply Z.lt_le_incl, Hpos. apply list_elem_of_In, nth_In. lia.
Qed.

(** Topologies that the Initializer accepts although they are not valid,
    and the exceptions it raises on others. *)
Lemma create_layers_counterexample :
  create_layers (λ _ _ _, 0%R) [5%Z] = Ok ∅ ∧
  create_layers (λ _ _ _, 0%R) [] = Ok ∅ ∧
  (∃ parameters, create_layers (λ _ _ _, 0%R) [3; 0]%Z = Ok parameters) ∧
  create_layers (λ _ _ _, 0%R) [3; -1]%Z = Raise ValueError ∧
  create_layers (λ _ _ _, 0%R) [0; 1]%Z = Raise ZeroDivisionError.
Proof.
  split; [reflexivity|]. split; [reflexivity|]. split; [|split].
  - eexists. vm_compute. reflexivity.
  - vm_compute. reflexivity.
  - vm_compute. reflexivity.
Qed.

(** ** Forward propagation *)

Lemma logistic_bounds (z : R) : (0 < logistic z < 1)%R.
Proof.
  unfold logistic. pose proof (exp_pos (- z)) as He.
  assert (0 < / (1 + exp (- z)) < 1)%R as [H0 H1].
  { split; [apply Rinv_0_lt_compat; lra|].
    rewrite <- Rinv_1 at 2. apply Rinv_lt_contravar; lra. }
  split; lra.
Qed.

Lemma logistic_0 : logistic 0 = 0.5%R.
Proof. unfold logistic. rewrite Ropp_0, exp_0. lra. Qed.

Lemma sigmoid_entries (Z : ndarray) : all_entries (λ a, 0 < a < 1)%R (sigmoid Z).
Proof. apply all_entries_tabulate. intros. apply logistic_bounds. Qed.

Lemma consistent_layers (topology : list nat) (parameters : gmap string ndarray) :
  consistent topology parameters → size parameters `div` 2 = length topology - 1.
Proof.
  intros [Hsize _]. rewrite Hsize.
  rewrite Nat.mul_comm. by apply Nat.div_mul.
Qed.

Lemma pre_activation_Ok (topology : list nat) (parameters activations : gmap string ndarray)
    (A : ndarray) (i B : nat) :
  consistent topology parameters → 1 ≤ i < length topology →
  activations !! key "A" (i - 1) = Some A → has_shape A (nth (i - 1) topology 0) B →
  ∃ Z, pre_activation parameters activations i = Ok Z ∧ has_shape Z (nth i topology 0) B.
Proof.
  intros [_ Hc] Hi HA [HA0 HA1].
  destruct (Hc i Hi) as (W & b & HW & Hb & [HW0 HW1] & [Hb0 Hb1]).
  unfold pre_activation.
  apply getitem_Some in HW, Hb, HA. rewrite HW; simpl. rewrite HA; simpl.
  rewrite dot_Ok by congruence. simpl. rewrite Hb; simpl.
  edestruct (broadcast_column Rplus) as (C & -> & [HC0 HC1] & _); [| exact Hb1 |].
  { simpl. congruence. }
  exists C. split; [done|]. simpl in *. split; congruence.
Qed.

Lemma forward_loop (topology : list nat) (X : ndarray) (parameters : gmap string ndarray) :
  consistent topology parameters → shape0 X = nth 0 topology 0 →
  ∃ activations,
    for_ (seq 1 (length topology - 1))
      (λ idx activations,
         Z ← pre_activation parameters activations idx;
         Ok (<[key "A" idx := sigmoid Z]> activations))
      (<["A0" := X]> ∅) = Ok activations ∧
    (∀ j, j ≤ length topology - 1 →
          ∃ A, activations !! key "A" j = Some A ∧ has_shape A (nth j topology 0) (shape1 X)) ∧
    (∀ k A, k ≠ "A0" → activations !! k = Some A → all_entries unit_interval A).
Proof.
  intros Hc HX.
  edestruct (for_total
    (λ done (acts : gmap string ndarray),
       (∀ j, j ≤ length done →
             ∃ A, acts !! key "A" j = Some A ∧ has_shape A (nth j topology 0) (shape1 X)) ∧
       (∀ k A, k ≠ "A0" → acts !! k = Some A → all_entries unit_interval A)))
    as (acts & Hrun & Hshape & Hunit); [| | exists acts; split; [exact Hrun|] ].
  - split.
    + intros j Hj. simpl in Hj. assert (j = 0) as -> by lia.
      exists X. rewrite key_A0, lookup_insert_eq. done.
    + intros k A Hk. rewrite lookup_insert_ne by done. by rewrite lookup_empty.
  - intros done i acts (_ & -> & Hlt)%prefix_seq_snoc [Hshape Hunit].
    destruct (Hshape (length done)) as (A & HA & HAs); [done|].
    destruct (pre_activation_Ok topology parameters acts A (1 + length done) (shape1 X))
      as (Z & HZ & HZs); [done | lia | | | ].
    { by replace (1 + length done - 1) with (length done) by lia. }
    { by replace (1 + length done - 1) with (length done) by lia. }
    rewrite HZ. simpl. eexists; split; [done|]. split.
    + intros j Hj. rewrite length_app in Hj. simpl in Hj.
      destruct (decide (j = 1 + length done)) as [->|Hne].
      * exists (sigmoid Z). rewrite lookup_insert_eq. split; [done|]. exact HZs.
      * rewrite lookup_insert_ne by (intros ?%key_inj; lia).
        destruct (Hshape j) as (A' & ? & ?); [lia|]. eauto.
    + intros k A' Hk. destruct (decide (k = key "A" (1 + length done))) as [->|Hne].
      * rewrite lookup_insert_eq. intros [= <-]. apply sigmoid_entries.
      * rewrite lookup_insert_ne by done. by apply Hunit.
  - split; [|done]. intros j Hj. apply Hshape. by rewrite length_seq.
Qed.


Section binary64_bounds.
Import PrimFloat.


End binary64_bounds.

Lemma forward_propagation_cache (topology : list nat) (X : ndarray)
    (parameters : gmap string ndarray) :
  consistent topology parameters → 1 ≤ length topology → shape0 X = nth 0 topology 0 →
  ∃ activations prediction,
    forward_propagation X parameters = Ok (activations, prediction) ∧
    cache_of topology (shape1 X) activations.
Proof.
  intros Hc Hlen HX.
  destruct (forward_loop topology X parameters Hc HX) as (acts & Hrun & Hshape & _).
  unfold forward_propagation, range.
  rewrite (consistent_layers topology) by done.
  replace (1 + (length topology - 1) - 1) with (length topology - 1) by lia.
  rewrite Hrun. cbn [mbind res_bind].
  destruct (Hshape (length topology - 1)) as (A & HA & _); [done|].
  rewrite (proj2 (getitem_Some _ _ _) HA). cbn [mbind res_bind].
  exists acts, A. split; [done|]. intros i Hi. apply Hshape. lia.
Qed.

(** ** Backward propagation *)

Lemma sigmoid_derivative_Ok (A : ndarray) :
  ∃ sd, sigmoid_derivative A = Ok sd ∧ has_shape sd (shape0 A) (shape1 A) ∧
        ∀ i j, i < shape0 A → j < shape1 A → get sd i j = (get A i j * (1 - get A i j))%R.
Proof.
  unfold sigmoid_derivative.
  destruct (broadcast_same Rmult A (mmap (λ x, 1 - x)%R A)) as (sd & -> & Hs & He);
    [done..|].
  exists sd. split; [done|]. split; [done|].
  intros i j Hi Hj. rewrite He by done. by rewrite get_mmap.
Qed.

Lemma error_term_layer_Ok (topology : list nat) (B : nat)
    (parameters activations dz_dict : gmap string ndarray) (l : nat) (dZn : ndarray) :
  consistent topology parameters → cache_of topology B activations →
  1 ≤ l → l + 1 < length topology →
  dz_dict !! key "dZ" (l + 1) = Some dZn → has_shape dZn (nth (l + 1) topology 0) B →
  ∃ dZ, error_term_layer parameters activations l dz_dict = Ok (<[key "dZ" l := dZ]> dz_dict) ∧
        has_shape dZ (nth l topology 0) B ∧
        inner_error_term parameters activations dz_dict l dZ.
Proof.
  intros [_ Hc] Hcache Hl Hl' HdZn [Hn0 Hn1].
  destruct (Hcache l) as (Al & HAl & [HA0 HA1]); [lia|].
  destruct (Hc (l + 1)) as (W & b & HW & _ & [HW0 HW1] & _); [lia|].
  replace (l + 1 - 1) with l in HW1 by lia.
  destruct (sigmoid_derivative_Ok Al) as (sd & Hsd & [Hsd0 Hsd1] & _).
  assert (dot (transpose W) dZn
          = Ok (tabulate (shape1 W) (shape1 dZn)
                  (λ i k, sum_upto (shape0 W) (λ j, get (transpose W) i j * get dZn j k)%R)))
    as Hdot by (apply dot_Ok; simpl; congruence).
  destruct (broadcast_same Rmult sd
              (tabulate (shape1 W) (shape1 dZn)
                 (λ i k, sum_upto (shape0 W) (λ j, get (transpose W) i j * get dZn j k)%R)))
    as (dZ & HdZ & [HdZ0 HdZ1] & _); [simpl; congruence..|].
  exists dZ. split; [|split].
  - unfold error_term_layer, getitem.
    rewrite HAl. cbn [mbind res_bind]. rewrite Hsd. cbn [mbind res_bind].
    rewrite HW. cbn [mbind res_bind]. rewrite HdZn. cbn [mbind res_bind].
    rewrite Hdot. cbn [mbind res_bind]. rewrite HdZ. done.
  - split; congruence.
  - exists Al, W, dZn, sd. eexists. repeat split; done.
Qed.

Lemma inner_error_term_insert (parameters activations dz_dict : gmap string ndarray)
    (l k : nat) (dZ dZ' : ndarray) :
  k ≠ l + 1 → inner_error_term parameters activations dz_dict l dZ →
  inner_error_term parameters activations (<[key "dZ" k := dZ']> dz_dict) l dZ.
Proof.
  intros Hk (Al & W & dZn & sd & WdZ & ? & ? & ? & ? & ? & ?).
  exists Al, W, dZn, sd, WdZ. rewrite lookup_insert_ne by (by apply key_ne). done.
Qed.

Lemma error_terms_Ok (topology : list nat) (B : nat) (Y : ndarray)
    (parameters activations : gmap string ndarray) :
  consistent topology parameters → cache_of topology B activations →
  2 ≤ length topology → has_shape Y (nth (length topology - 1) topology 0) B →
  ∃ dz_dict, error_terms Y parameters activations = Ok dz_dict ∧
             error_terms_of topology B Y parameters activations dz_dict.
Proof.
  intros Hc Hcache Hlen [HY0 HY1]. unfold error_terms.
  rewrite (consistent_layers topology) by done.
  set (L := length topology - 1) in *.
  destruct (Hcache L) as (AL & HAL & [HA0 HA1]); [lia|].
  unfold getitem at 1. rewrite HAL. cbn [mbind res_bind].
  destruct (broadcast_same Rminus AL Y) as (dZL & HdZL & [HdZ0 HdZ1] & _); [congruence..|].
  rewrite HdZL. cbn [mbind res_bind].
  destruct (for_total
    (λ done (dz : gmap string ndarray),
       ∀ l, L - length done ≤ l ≤ L →
         ∃ dZ, dz !! key "dZ" l = Some dZ ∧ has_shape dZ (nth l topology 0) B ∧
               (l = L → last_error_term Y activations l dZ) ∧
               (l < L → inner_error_term parameters activations dz l dZ))
    (range_down (L - 1)) (error_term_layer parameters activations)
    (<[key "dZ" L := dZL]> ∅)) as (dz & Hrun & Hinv).
  - intros l Hl. simpl in Hl. assert (l = L) as -> by lia.
    exists dZL. rewrite lookup_insert_eq. split; [done|]. split; [split; congruence|].
    split; [|lia]. intros _. by exists AL.
  - intros done i dz [-> Hlt]%prefix_range_down_snoc Hinv.
    destruct (Hinv (L - length done)) as (dZn & HdZn & HdZns & _); [lia|].
    destruct (error_term_layer_Ok topology B parameters activations dz
                (L - 1 - length done) dZn) as (dZ & Hstep & HdZs & HdZe);
      [done | done | lia | lia | | | ].
    { by replace (L - 1 - length done + 1) with (L - length done) by lia. }
    { by replace (L - 1 - length done + 1) with (L - length done) by lia. }
    eexists. split; [exact Hstep|].
    intros l Hl. rewrite length_app in Hl. simpl in Hl.
    destruct (decide (l = L - 1 - length done)) as [->|Hne].
    + exists dZ. rewrite lookup_insert_eq. split; [done|]. split; [done|].
      split; [lia|]. intros _. apply inner_error_term_insert; [lia | done].
    + destruct (Hinv l) as (dZ' & ? & ? & Hlast & Hinner); [lia|].
      exists dZ'. rewrite lookup_insert_ne by (apply key_ne; lia).
      split; [done|]. split; [done|]. split; [done|].
      intros Hlt'. apply inner_error_term_insert; [lia | by apply Hinner].
  - exists dz. split; [done|]. intros l Hl.
    apply Hinv. rewrite range_down_length. lia.
Qed.

Lemma gradient_layer_Ok (m n n' B : nat) (dz_dict activations gradients : gmap string ndarray)
    (i : nat) (dZ A : ndarray) :
  m ≠ 0 → dz_dict !! key "dZ" i = Some dZ → has_shape dZ n B →
  activations !! key "A" (i - 1) = Some A → has_shape A n' B →
  ∃ D, dot dZ (transpose A) = Ok D ∧ has_shape D n n' ∧
       gradient_layer m dz_dict activations i gradients
       = Ok (<[key "db" i := layer_db m dZ]> (<[key "dW" i := scal (1 / INR m) D]> gradients)).
Proof.
  intros Hm HdZ [Hd0 Hd1] HA [HA0 HA1].
  eexists. split; [apply dot_Ok; simpl; congruence|]. split; [split; simpl; congruence|].
  unfold gradient_layer, getitem, layer_db.
  rewrite py_div_Ok by done. cbn [mbind res_bind].
  rewrite HdZ. cbn [mbind res_bind]. rewrite HA. cbn [mbind res_bind].
  rewrite dot_Ok by (simpl; congruence). cbn [mbind res_bind]. done.
Qed.

Lemma gradient_loop_Ok (m : nat) (topology : list nat) (B : nat) (Y : ndarray)
    (parameters activations dz_dict : gmap string ndarray) :
  m ≠ 0 → cache_of topology B activations →
  error_terms_of topology B Y parameters activations dz_dict →
  ∃ gradients,
    for_ (range_down (length topology - 1)) (gradient_layer m dz_dict activations) ∅
      = Ok gradients ∧
    ∀ l, 1 ≤ l < length topology →
         plain_gradient_of m topology dz_dict activations gradients l.
Proof.
  intros Hm Hcache Herr. set (L := length topology - 1).
  destruct (for_total
    (λ done (g : gmap string ndarray),
       ∀ l, L - length done < l ≤ L →
            plain_gradient_of m topology dz_dict activations g l)
    (range_down L) (gradient_layer m dz_dict activations) ∅) as (g & Hrun & Hinv).
  - intros l Hl. simpl in Hl. lia.
  - intros done i g [-> Hlt]%prefix_range_down_snoc Hinv.
    destruct (Herr (L - length done)) as (dZ & HdZ & HdZs & _); [unfold L in *; lia|].
    destruct (Hcache (L - length done - 1)) as (A & HA & HAs); [unfold L in *; lia|].
    destruct (gradient_layer_Ok m _ _ B dz_dict activations g (L - length done) dZ A
                Hm HdZ HdZs HA HAs) as (D & HD & HDs & Hstep).
    eexists. split; [exact Hstep|].
    intros l Hl. rewrite length_app in Hl. simpl in Hl.
    destruct (decide (l = L - length done)) as [->|Hne].
    + exists dZ, A, D. rewrite lookup_insert_eq.
      rewrite lookup_insert_ne by (symmetry; apply key_dW_db).
      rewrite lookup_insert_eq. done.
    + destruct (Hinv l) as (dZ' & A' & D' & ? & ? & ? & ? & ? & ?); [lia|].
      exists dZ', A', D'.
      rewrite (lookup_insert_ne _ (key "db" _) (key "dW" l)) by (symmetry; apply key_dW_db).
      rewrite (lookup_insert_ne _ (key "dW" _) (key "dW" l)) by (by apply key_ne).
      rewrite (lookup_insert_ne _ (key "db" _) (key "db" l)) by (by apply key_ne).
      rewrite (lookup_insert_ne _ (key "dW" _) (key "db" l)) by apply key_dW_db.
      done.
  - exists g. split; [done|]. intros l Hl. apply Hinv.
    rewrite range_down_length. unfold L. lia.
Qed.

Lemma regularize_layer_Ok (m : nat) (lambd : R) (parameters gradients : gmap string ndarray)
    (i : nat) (D W : ndarray) :
  m ≠ 0 → gradients !! key "dW" i = Some (scal (1 / INR m) D) →
  parameters !! key "W" i = Some W → same_shape D W →
  ∃ G, broadcast Rplus (scal (1 / INR m) D) (scal (lambd / INR m) W) = Ok G ∧
       same_shape G W ∧
       regularize_layer m lambd parameters i gradients = Ok (<[key "dW" i := G]> gradients).
Proof.
  intros Hm Hg HW [H0 H1].
  destruct (broadcast_same Rplus (scal (1 / INR m) D) (scal (lambd / INR m) W))
    as (G & HG & [HG0 HG1] & _); [simpl; congruence..|].
  exists G. split; [done|]. split; [split; simpl in *; congruence|].
  unfold regularize_layer, getitem. rewrite Hg. cbn [mbind res_bind].
  rewrite py_div_Ok by done. cbn [mbind res_bind]. rewrite HW. cbn [mbind res_bind].
  rewrite HG. done.
Qed.

Lemma regularization_loop_Ok (m : nat) (lambd : R) (topology : list nat)
    (parameters activations dz_dict gradients : gmap string ndarray) :
  m ≠ 0 → consistent topology parameters →
  (∀ l, 1 ≤ l < length topology →
        plain_gradient_of m topology dz_dict activations gradients l) →
  ∃ gradients',
    for_ (seq 1 (length topology - 1)) (regularize_layer m lambd parameters) gradients
      = Ok gradients' ∧
    ∀ l, 1 ≤ l < length topology →
         gradient_of m lambd "l2" parameters activations dz_dict gradients' l.
Proof.
  intros Hm [_ Hc] Hplain. set (L := length topology - 1).
  destruct (for_total
    (λ done (g : gmap string ndarray),
       ∀ l, 1 ≤ l ≤ L →
         (l ≤ length done → gradient_of m lambd "l2" parameters activations dz_dict g l) ∧
         (length done < l → plain_gradient_of m topology dz_dict activations g l))
    (seq 1 L) (regularize_layer m lambd parameters) gradients) as (g & Hrun & Hinv).
  - intros l Hl. simpl. split; [lia|]. intros _. apply Hplain. unfold L in Hl. lia.
  - intros done i g (_ & -> & Hlt)%prefix_seq_snoc Hinv.
    destruct (Hinv (1 + length done)) as [_ Hp]; [lia|].
    destruct Hp as (dZ & A & D & HdZ & HA & HD & [HD0 HD1] & HgW & Hgb); [lia|].
    destruct (Hc (1 + length done)) as (W & b & HW & _ & [HW0 HW1] & _);
      [unfold L in Hlt; lia|].
    destruct (regularize_layer_Ok m lambd parameters g (1 + length done) D W)
      as (G & HG & HGs & Hstep); [done | done | done | split; congruence |].
    eexists. split; [exact Hstep|].
    intros l Hl. rewrite length_app. simpl. split.
    + intros Hle. destruct (decide (l = 1 + length done)) as [->|Hne].
      * exists dZ, A, W, G. rewrite lookup_insert_eq.
        rewrite lookup_insert_ne by apply key_dW_db.
        repeat split; try done; try apply HGs.
        unfold layer_dW. rewrite HD. cbn [mbind res_bind]. by rewrite decide_True.
      * destruct (Hinv l) as [Hg _]; [lia|].
        destruct Hg as (dZ' & A' & W' & dW' & ? & ? & ? & ? & ? & ? & ?); [lia|].
        exists dZ', A', W', dW'.
        rewrite lookup_insert_ne by (by apply key_ne).
        rewrite lookup_insert_ne by apply key_dW_db. done.
    + intros Hgt. destruct (Hinv l) as [_ Hp]; [lia|].
      destruct Hp as (dZ' & A' & D' & ? & ? & ? & ? & ? & ?); [lia|].
      exists dZ', A', D'.
      rewrite lookup_insert_ne by (apply key_ne; lia).
      rewrite lookup_insert_ne by apply key_dW_db. done.
  - exists g. split; [done|]. intros l Hl.
    destruct (Hinv l) as [Hg _]; [unfold L; lia|]. apply Hg. rewrite length_seq. unfold L. lia.
Qed.

(** What [backward_propagation] computes.  For a store consistent with
    the topology, an activation cache of batch width [B] and labels of the
    shape of the last activation, it returns, and for every layer
    [dW_l = (1/m) dZ_l . A_{l-1}^T] (plus [(lambd/m) W_l] under L2
    regularization) and [db_l = (1/m) sum dZ_l], where [m] is [y.shape[0]],
    the number of ROWS of the labels. *)
Theorem backward_propagation_gradients (topology : list nat) (B : nat) (Y : ndarray)
    (parameters activations : gmap string ndarray) (lambd : R) (regularization : string) :
  consistent topology parameters → cache_of topology B activations →
  2 ≤ length topology → has_shape Y (nth (length topology - 1) topology 0) B →
  shape0 Y ≠ 0 →
  ∃ dz_dict gradients,
    error_terms Y parameters activations = Ok dz_dict ∧
    error_terms_of topology B Y parameters activations dz_dict ∧
    backward_propagation Y parameters activations lambd regularization = Ok gradients ∧
    ∀ l, 1 ≤ l < length topology →
         gradient_of (shape0 Y) lambd regularization parameters activations dz_dict gradients l.
Proof.
  intros Hc Hcache Hlen HY Hm.
  destruct (error_terms_Ok topology B Y parameters activations Hc Hcache Hlen HY)
    as (dz & Hdz & Herr).
  destruct (gradient_loop_Ok (shape0 Y) topology B Y parameters activations dz Hm Hcache Herr)
    as (g & Hg & Hplain).
  exists dz. unfold backward_propagation, range.
  rewrite Hdz, (consistent_layers topology) by done. cbn [mbind res_bind].
  rewrite Hg. cbn [mbind res_bind].
  replace (1 + (length topology - 1) - 1) with (length topology - 1) by lia.
  destruct (decide (regularization = "l2")) as [->|Hno].
  - destruct (regularization_loop_Ok (shape0 Y) lambd topology parameters activations dz g
                Hm Hc Hplain) as (g' & Hg' & Hreg).
    exists g'. done.
  - exists g. split; [done|]. split; [done|]. split; [done|].
    intros l Hl. destruct (Hplain l Hl) as (dZ & A & D & HdZ & HA & HD & [HD0 HD1] & ? & ?).
    destruct Hc as [_ Hc]. destruct (Hc l Hl) as (W & b & HW & _ & [HW0 HW1] & _).
    exists dZ, A, W, (scal (1 / INR (shape0 Y)) D).
    repeat split; try done; simpl; try congruence.
    unfold layer_dW. rewrite HD. cbn [mbind res_bind]. by rewrite decide_False.
Qed.

(** X1. Forward, then backward: on the cache of the forward pass of a batch
    [X], with labels [Y] of the shape of the prediction,
    [backward_propagation] returns the gradients of every layer, scaled by
    one over the number of rows of [Y]. *)
Theorem backward_after_forward (topology : list nat) (X Y : ndarray)
    (parameters : gmap string ndarray) (lambd : R) (regularization : string) :
  consistent topology parameters → 2 ≤ length topology → shape0 X = nth 0 topology 0 →
  has_shape Y (nth (length topology - 1) topology 0) (shape1 X) → shape0 Y ≠ 0 →
  ∃ activations prediction dz_dict gradients,
    forward_propagation X parameters = Ok (activations, prediction) ∧
    error_terms Y parameters activations = Ok dz_dict ∧
    backward_propagation Y parameters activations lambd regularization = Ok gradients ∧
    ∀ l, 1 ≤ l < length topology →
         gradient_of (shape0 Y) lambd regularization parameters activations dz_dict gradients l.
Proof.
  intros Hc Hlen HX HY Hm.
  destruct (forward_propagation_cache topology X parameters Hc) as (acts & pred & Hf & Hcache);
    [lia | done |].
  destruct (backward_propagation_gradients topology (shape1 X) Y parameters acts lambd
              regularization Hc Hcache Hlen HY Hm) as (dz & g & Hdz & _ & Hg & Hall).
  exists acts, pred, dz, g. done.
Qed.

Lemma backward_after_forward_witness :
  ∃ activations prediction dz_dict gradients,
    forward_propagation scenario_X scenario_parameters = Ok (activations, prediction) ∧
    error_terms scenario_Y scenario_parameters activations = Ok dz_dict ∧
    backward_propagation scenario_Y scenario_parameters activations 2 "l2" = Ok gradients ∧
    ∀ l, 1 ≤ l < length [2; 1] →
         gradient_of (shape0 scenario_Y) 2 "l2" scenario_parameters activations dz_dict
           gradients l.
Proof.
  apply (backward_after_forward [2; 1] scenario_X scenario_Y scenario_parameters 2 "l2").
  - split; [vm_compute; reflexivity|].
    intros i Hi. simpl in Hi. assert (i = 1) as -> by lia.
    exists scenario_W1, scenario_b1. repeat split; vm_compute; reflexivity.
  - simpl. lia.
  - reflexivity.
  - split; reflexivity.
  - simpl. lia.
Defined.


(** ** Backward propagation on a batch of two examples *)

Lemma pair_size : size pair_parameters = 2.
Proof. vm_compute. reflexivity. Qed.

Lemma pair_Z :
  pre_activation pair_parameters (<["A0" := pair_X]> ∅) 1 = Ok (array [[0; 0]]%R).
Proof. vm_compute. repeat f_equal; lra. Qed.

Lemma pair_forward :
  forward_propagation pair_X pair_parameters = Ok (pair_activations, array [[0.5; 0.5]]%R).
Proof.
  unfold forward_propagation, pair_activations. rewrite pair_size.
  change (range 1 (1 + 2 `div` 2)) with [1].
  cbn [for_]. rewrite pair_Z. cbn [mbind res_bind].
  change (key "A" 1) with "A1".
  assert (sigmoid (array [[0; 0]]%R) = array [[0.5; 0.5]]%R) as ->.
  { unfold sigmoid, mmap, tabulate, array, get. cbn. by rewrite logistic_0. }
  change (key "A" (1 + 2 `div` 2 - 1)) with "A1".
  unfold getitem. rewrite lookup_insert_eq. reflexivity.
Qed.

Lemma pair_error_terms_eval :
  error_terms pair_Y pair_parameters pair_activations = Ok pair_error_terms.
Proof.
  unfold error_terms, error_term_layer. rewrite pair_size.
  unfold pair_parameters, pair_activations, pair_error_terms.
  change (range_down (2 `div` 2 - 1)) with (@nil nat).
  py_eval; f_equal; solve_map_eq.
Qed.

Lemma pair_backward :
  backward_propagation pair_Y pair_parameters pair_activations 2 "l2" = Ok pair_gradients.
Proof.
  unfold backward_propagation, gradient_layer, regularize_layer.
  rewrite pair_error_terms_eval, pair_size.
  unfold pair_parameters, pair_activations, pair_error_terms, pair_gradients.
  change (range 1 (1 + 2 `div` 2)) with [1].
  change (range_down (2 `div` 2)) with [1].
  py_eval. rewrite decide_True by done.
  py_eval; f_equal; solve_map_eq.
Qed.

(** C1 at a batch of two examples.  The label row [Y] has one row and two
    columns.  [backward_propagation] takes [m = y.shape[0] = 1], so it
    returns the sums [dW_1 = dZ.A_0^T + lambda W_1 = [[1]]] and
    [db_1 = [[-1]]]; with [m = 2], the number of columns of [Y], the stated
    formulas give [[0.5]] and [[-0.5]]. *)
Theorem backward_propagation_divides_by_rows :
  has_shape pair_Y 1 2 ∧
  forward_propagation pair_X pair_parameters = Ok (pair_activations, array [[0.5; 0.5]]%R) ∧
  error_terms pair_Y pair_parameters pair_activations = Ok pair_error_terms ∧
  backward_propagation pair_Y pair_parameters pair_activations 2 "l2" = Ok pair_gradients ∧
  stated_dW pair_Y (array [[-0.5; -0.5]]%R) pair_X (array [[1]]%R) 2 "l2"
    = Ok (array [[0.5]]%R) ∧
  stated_db pair_Y (array [[-0.5; -0.5]]%R) = array [[-0.5]]%R ∧
  pair_gradients !! "dW1" = Some (array [[1]]%R) ∧
  pair_gradients !! "db1" = Some (array [[-1]]%R) ∧
  array [[1]]%R ≠ array [[0.5]]%R ∧ array [[-1]]%R ≠ array [[-0.5]]%R.
Proof.
  split; [done|]. split; [exact pair_forward|]. split; [exact pair_error_terms_eval|].
  split; [exact pair_backward|]. split; [|split; [|split; [|split; [|split]]]].
  - unfold stated_dW, layer_dW. py_eval. rewrite decide_True by done.
    py_eval. f_equal. solve_array_eq.
  - unfold stated_db, layer_db. py_eval. solve_array_eq.
  - reflexivity.
  - reflexivity.
  - intros [= H]. lra.
  - intros [= H]. lra.
Qed.

(** ** RMSProp *)

(** The second-moment accumulation [beta*s + (1-beta)*g**2]. *)
Lemma second_moment_Ok (beta : R) (a g : ndarray) :
  same_shape g a →
  ∃ a', broadcast Rplus (scal beta a) (scal (1 - beta) (mmap (λ x, x ^ 2)%R g)) = Ok a' ∧
        same_shape a' a ∧
        ∀ i j, i < shape0 a → j < shape1 a →
               get a' i j = (beta * get a i j + (1 - beta) * get g i j ^ 2)%R.
Proof.
  intros [H0 H1].
  destruct (broadcast_same Rplus (scal beta a) (scal (1 - beta) (mmap (λ x, x ^ 2)%R g)))
    as (a' & -> & Hs & He); [simpl; congruence.. |].
  exists a'. split; [done|]. split; [exact Hs|].
  intros i j Hi Hj. rewrite (He i j) by done.
  rewrite !get_scal, get_mmap by (simpl; congruence). done.
Qed.

(** One tensor of one layer: accumulate, correct, step. *)
Lemma rmsprop_tensor (alpha beta eps bt : R) (theta g a : ndarray) :
  same_shape g theta → same_shape a theta →
  ∃ a' theta',
    broadcast Rplus (scal beta a) (scal (1 - beta) (mmap (λ x, x ^ 2)%R g)) = Ok a' ∧
    isub theta (mmap (λ x, alpha * 1 / (eps + sqrt x))%R (mmap (λ x, x / (1 - bt))%R a'))
      = Ok theta' ∧
    rmsprop_entrywise alpha beta eps bt theta g a theta' a'.
Proof.
  intros [Hg0 Hg1] [Ha0 Ha1].
  destruct (second_moment_Ok beta a g) as (a' & Ha' & [Hs0 Hs1] & He);
    [split; congruence|].
  destruct (isub_same theta
              (mmap (λ x, alpha * 1 / (eps + sqrt x))%R (mmap (λ x, x / (1 - bt))%R a')))
    as (theta' & Ht & Hts & Hte); [split; simpl; congruence|].
  exists a', theta'. split; [done|]. split; [done|].
  split; [done|]. split; [split; congruence|].
  intros i j Hi Hj. split; [apply He; congruence|].
  rewrite Hte by done. rewrite !get_mmap by (simpl; congruence). done.
Qed.

Lemma rmsprop_layer_Ok (gradients : gmap string ndarray) (alpha beta eps : R) (t : Z)
    (i : nat) (p s1 sc : gmap string ndarray) (W b gW gb sW sb : ndarray) :
  (0 ≤ t)%Z ∨ beta ≠ 0%R →
  p !! key "W" i = Some W → p !! key "b" i = Some b →
  gradients !! key "dW" i = Some gW → gradients !! key "db" i = Some gb →
  s1 !! key "dW" i = Some sW → s1 !! key "db" i = Some sb →
  same_shape gW W → same_shape sW W → same_shape gb b → same_shape sb b →
  ∃ W' b' sW' sb' sc',
    rmsprop_layer gradients alpha t beta eps i (p, s1, sc)
      = Ok (<[key "b" i := b']> (<[key "W" i := W']> p),
            <[key "db" i := sb']> (<[key "dW" i := sW']> s1), sc') ∧
    rmsprop_entrywise alpha beta eps (powerRZ beta t) W gW sW W' sW' ∧
    rmsprop_entrywise alpha beta eps (powerRZ beta t) b gb sb b' sb'.
Proof.
  intros Ht HW Hb HgW Hgb HsW Hsb SgW SsW Sgb Ssb.
  destruct (rmsprop_tensor alpha beta eps (powerRZ beta t) W gW sW SgW SsW)
    as (sW' & W' & EsW & EW & HWspec).
  destruct (rmsprop_tensor alpha beta eps (powerRZ beta t) b gb sb Sgb Ssb)
    as (sb' & b' & Esb & Eb & Hbspec).
  exists W', b', sW', sb'. eexists. split; [|done].
  pose proof (key_dW_db i i) as Hne. pose proof (key_W_b i i) as Hne'.
  unfold rmsprop_layer, getitem.
  rewrite HsW, HgW. cbn [mbind res_bind]. rewrite EsW. cbn [mbind res_bind].
  rewrite lookup_insert_ne, Hsb, Hgb by done. cbn [mbind res_bind].
  rewrite Esb. cbn [mbind res_bind].
  rewrite (lookup_insert_ne _ (key "db" i) (key "dW" i)) by done.
  rewrite !lookup_insert_eq. cbn [mbind res_bind].
  rewrite py_pow_Ok by done. cbn [mbind res_bind].
  rewrite HW. cbn [mbind res_bind].
  rewrite (lookup_insert_ne _ (key "db" i) (key "dW" i)) by done.
  rewrite !lookup_insert_eq. cbn [mbind res_bind].
  rewrite EW. cbn [mbind res_bind].
  rewrite lookup_insert_ne, Hb by done. cbn [mbind res_bind].
  rewrite Eb. cbn [mbind res_bind]. reflexivity.
Qed.

(** The loop of [update_parameters_rmsprop], layer by layer. *)
Lemma update_parameters_rmsprop_layers (parameters gradients s : gmap string ndarray)
    (alpha beta eps : R) (t : Z) :
  (0 ≤ t)%Z ∨ beta ≠ 0%R →
  (∀ i, 1 ≤ i ≤ size parameters `div` 2 → layer_ready parameters gradients s i) →
  ∃ parameters' s',
    update_parameters_rmsprop parameters gradients alpha s t beta eps = Ok (parameters', s') ∧
    ∀ i, 1 ≤ i ≤ size parameters `div` 2 →
         layer_rmsprop alpha beta eps (powerRZ beta t) parameters gradients s parameters' s' i.
Proof.
  intros Ht Hready. unfold update_parameters_rmsprop, range.
  set (L := size parameters `div` 2) in *.
  replace (1 + L - 1) with L by lia.
  edestruct (for_total
    (λ done (st : gmap string ndarray * gmap string ndarray * gmap string ndarray),
       let '(p, s1, _) := st in
       ∀ j, 1 ≤ j ≤ L →
         (j ≤ length done →
          layer_rmsprop alpha beta eps (powerRZ beta t) parameters gradients s p s1 j) ∧
         (length done < j →
          p !! key "W" j = parameters !! key "W" j ∧ p !! key "b" j = parameters !! key "b" j ∧
          s1 !! key "dW" j = s !! key "dW" j ∧ s1 !! key "db" j = s !! key "db" j))
    (seq 1 L) (rmsprop_layer gradients alpha t beta eps) (parameters, s, ∅))
    as ([[p' s'] sc'] & Hrun & Hinv).
  - intros j Hj. simpl. split; [lia | done].
  - intros done i [[p s1] sc] (_ & -> & Hlt)%prefix_seq_snoc Hinv.
    destruct (Hinv (1 + length done)) as [_ Hsame]; [lia|].
    destruct Hsame as (HW & Hb & HsW & Hsb); [lia|].
    destruct (Hready (1 + length done)) as
      (W & b & gW & gb & sW & sb & EW & Eb & EgW & Egb & EsW & Esb & S1 & S2 & S3 & S4); [lia|].
    rewrite EW in HW. rewrite Eb in Hb. rewrite EsW in HsW. rewrite Esb in Hsb.
    destruct (rmsprop_layer_Ok gradients alpha beta eps t (1 + length done) p s1 sc
                W b gW gb sW sb) as (W' & b' & sW' & sb' & sc'' & Hstep & HWs & Hbs);
      [done..|].
    eexists. split; [exact Hstep|].
    intros j Hj. rewrite length_app. simpl. split.
    + intros Hle. destruct (decide (j = 1 + length done)) as [->|Hne].
      * exists W, b, gW, gb, sW, sb, W', b', sW', sb'.
        rewrite lookup_insert_eq, lookup_insert_eq.
        rewrite (lookup_insert_ne _ (key "b" _) (key "W" _)) by (symmetry; apply key_W_b).
        rewrite (lookup_insert_ne _ (key "db" _) (key "dW" _)) by (symmetry; apply key_dW_db).
        rewrite !lookup_insert_eq. done.
      * destruct (Hinv j) as [Hupd _]; [lia|].
        destruct Hupd as (Wj & bj & gWj & gbj & sWj & sbj & Wj' & bj' & sWj' & sbj' &
                          ? & ? & ? & ? & ? & ? & HpW & Hpb & HsW' & Hsb' & ? & ?); [lia|].
        exists Wj, bj, gWj, gbj, sWj, sbj, Wj', bj', sWj', sbj'.
        rewrite (lookup_insert_ne _ (key "b" _) (key "W" j)) by (symmetry; apply key_W_b).
        rewrite (lookup_insert_ne _ (key "W" _) (key "W" j)) by (by apply key_ne).
        rewrite (lookup_insert_ne _ (key "b" _) (key "b" j)) by (by apply key_ne).
        rewrite (lookup_insert_ne _ (key "W" _) (key "b" j)) by apply key_W_b.
        rewrite (lookup_insert_ne _ (key "db" _) (key "dW" j)) by (symmetry; apply key_dW_db).
        rewrite (lookup_insert_ne _ (key "dW" _) (key "dW" j)) by (by apply key_ne).
        rewrite (lookup_insert_ne _ (key "db" _) (key "db" j)) by (by apply key_ne).
        rewrite (lookup_insert_ne _ (key "dW" _) (key "db" j)) by apply key_dW_db.
        done.
    + intros Hgt. destruct (Hinv j) as [_ Hsame]; [lia|].
      destruct Hsame as (? & ? & ? & ?); [lia|].
      rewrite (lookup_insert_ne _ (key "b" _) (key "W" j)) by (symmetry; apply key_W_b).
      rewrite (lookup_insert_ne _ (key "W" _) (key "W" j)) by (apply key_ne; lia).
      rewrite (lookup_insert_ne _ (key "b" _) (key "b" j)) by (apply key_ne; lia).
      rewrite (lookup_insert_ne _ (key "W" _) (key "b" j)) by apply key_W_b.
      rewrite (lookup_insert_ne _ (key "db" _) (key "dW" j)) by (symmetry; apply key_dW_db).
      rewrite (lookup_insert_ne _ (key "dW" _) (key "dW" j)) by (apply key_ne; lia).
      rewrite (lookup_insert_ne _ (key "db" _) (key "db" j)) by (apply key_ne; lia).
      rewrite (lookup_insert_ne _ (key "dW" _) (key "db" j)) by apply key_dW_db.
      done.
  - exists p', s'. rewrite Hrun. split; [done|].
    intros i Hi. destruct (Hinv i Hi) as [Hupd _]. apply Hupd. rewrite length_seq. lia.
Qed.

Lemma rmsprop_entrywise_nonnegative (alpha beta eps bt : R) (theta g s theta' s' : ndarray) :
  decay_rate beta → same_shape s theta → nonnegative s →
  rmsprop_entrywise alpha beta eps bt theta g s theta' s' → nonnegative s'.
Proof.
  intros Hb [S0 S1] Hs (_ & [T0 T1] & He) i j Hi Hj.
  rewrite T0 in Hi. rewrite T1 in Hj. destruct (He i j Hi Hj) as [-> _].
  apply second_moment_nonnegative; [done|]. apply Hs; lia.
Qed.

(** C5. One RMSProp update with a step counter [t >= 1], a decay rate
    [0 <= beta < 1], [eps > 0] and accumulators that are not negative, for
    every layer and every entry of its weight and bias: the accumulator
    becomes [s' = beta*s + (1-beta)*g^2], it is bias-corrected to
    [s'/(1 - beta^t)], and the parameter becomes
    [theta - alpha/(eps + sqrt(s'/(1 - beta^t)))]; the gradient itself does
    not occur in the step.  On this domain every operation of the step is
    defined: [0 < 1 - beta^t <= 1], the new accumulator is not negative
    and the divisor [eps + sqrt(s'/(1 - beta^t))] is positive. *)
Theorem rmsprop_update_rule (parameters gradients s : gmap string ndarray)
    (alpha beta eps : R) (t : Z) :
  step_counter t → decay_rate beta → (0 < eps)%R →
  (∀ i, 1 ≤ i ≤ size parameters `div` 2 →
        layer_ready parameters gradients s i ∧ nonnegative_layer s i) →
  (0 < 1 - powerRZ beta t <= 1)%R ∧
  ∃ parameters' s',
    update_parameters_rmsprop parameters gradients alpha s t beta eps = Ok (parameters', s') ∧
    ∀ i, 1 ≤ i ≤ size parameters `div` 2 →
         layer_rmsprop alpha beta eps (powerRZ beta t) parameters gradients s parameters' s' i ∧
         layer_defined eps (powerRZ beta t) s' i.
Proof.
  intros Ht Hb Heps Hready.
  pose proof (decay_power beta t Ht Hb) as Hbt.
  split; [lra|].
  destruct (update_parameters_rmsprop_layers parameters gradients s alpha beta eps t)
    as (p' & s' & Hrun & Hl).
  { left. destruct Ht. lia. }
  { intros i Hi. by apply Hready. }
  exists p', s'. split; [done|]. intros i Hi. split; [by apply Hl|].
  destruct (Hl i Hi) as (W & b & gW & gb & sW & sb & W' & b' & sW' & sb' &
    HW & Hb0 & HgW & Hgb & HsW & Hsb & HW' & Hb' & HsW' & Hsb' & EW & Eb).
  destruct (Hready i Hi) as
    [(W2 & b2 & gW2 & gb2 & sW2 & sb2 & ? & ? & ? & ? & ? & ? & _ & SsW & _ & Ssb) Hnn].
  simplify_eq.
  intros A HA.
  assert (nonnegative A) as HnA.
  { destruct HA as [HA | HA]; simplify_eq.
    - eapply rmsprop_entrywise_nonnegative;
        [exact Hb | exact SsW | apply Hnn; by left | exact EW].
    - eapply rmsprop_entrywise_nonnegative;
        [exact Hb | exact Ssb | apply Hnn; by right | exact Eb]. }
  split; [done|]. apply root_defined_of_nonnegative; [done | lra | done].
Qed.

Lemma scenario_s_nonnegative : nonnegative_layer scenario_s 1.
Proof.
  assert (scenario_s !! key "dW" 1 = Some (zeros 1 2)) as HW by (vm_compute; reflexivity).
  assert (scenario_s !! key "db" 1 = Some (zeros 1 1)) as Hb by (vm_compute; reflexivity).
  intros A [HA | HA]; simplify_eq; intros i j Hi Hj;
    unfold zeros; rewrite get_tabulate by done; lra.
Qed.

Lemma rmsprop_update_rule_witness :
  (0 < 1 - powerRZ 0.999 2 <= 1)%R ∧
  ∃ parameters' s',
    update_parameters_rmsprop scenario_parameters scenario_gradients 0.1 scenario_s 2
      0.999 1e-8 = Ok (parameters', s') ∧
    ∀ i, 1 ≤ i ≤ size scenario_parameters `div` 2 →
         layer_rmsprop 0.1 0.999 1e-8 (powerRZ 0.999 2) scenario_parameters
           scenario_gradients scenario_s parameters' s' i ∧
         layer_defined 1e-8 (powerRZ 0.999 2) s' i.
Proof.
  apply (rmsprop_update_rule scenario_parameters scenario_gradients scenario_s
           0.1 0.999 1e-8 2).
  - exact step_counter_2.
  - unfold decay_rate. lra.
  - lra.
  - intros i Hi.
    assert (size scenario_parameters `div` 2 = 1) as Hs by (vm_compute; reflexivity).
    rewrite Hs in Hi. assert (i = 1) as -> by lia.
    split; [|exact scenario_s_nonnegative].
    exists scenario_W1, scenario_b1, (array [[-0.5; -0.5]]%R), (array [[-0.5]]%R),
      (zeros 1 2), (zeros 1 1).
    repeat split; vm_compute; reflexivity.
Defined.

(** ** Bounds on [ln 2] *)

Lemma IZR_div_le (a b : Z) : (0 < b)%Z → (IZR (a `div` b) <= IZR a / IZR b)%R.
Proof.
  intros Hb. assert (0 < IZR b)%R as Hb' by (by apply IZR_lt).
  apply Rmult_le_reg_r with (IZR b); [done|].
  replace (IZR a / IZR b * IZR b)%R with (IZR a) by (field; lra).
  rewrite <- mult_IZR. apply IZR_le. rewrite Z.mul_comm. apply Z.mul_div_le. done.
Qed.

Lemma fx_one_pos : (0 < IZR fx_one)%R.
Proof. apply IZR_lt. reflexivity. Qed.

Lemma fx_square_bound (z : Z) (y : R) :
  (0 ≤ z)%Z → (IZR z / IZR fx_one <= exp y)%R →
  (0 ≤ fx_square z)%Z ∧ (IZR (fx_square z) / IZR fx_one <= exp (2 * y))%R.
Proof.
  intros Hz Hb. pose proof fx_one_pos as HF. split.
  - unfold fx_square. apply Z.div_pos; [nia | reflexivity].
  - assert (IZR (fx_square z) <= IZR (z * z) / IZR fx_one)%R as H1
      by (apply IZR_div_le; reflexivity).
    rewrite mult_IZR in H1.
    assert (0 <= IZR z / IZR fx_one)%R as H0.
    { apply Rmult_le_pos; [by apply IZR_le | left; by apply Rinv_0_lt_compat]. }
    replace (2 * y)%R with (y + y)%R by lra. rewrite exp_plus.
    apply Rle_trans with (IZR z / IZR fx_one * (IZR z / IZR fx_one))%R.
    + apply Rmult_le_reg_r with (IZR fx_one); [done|].
      replace (IZR (fx_square z) / IZR fx_one * IZR fx_one)%R with (IZR (fx_square z))
        by (field; lra).
      replace (IZR z / IZR fx_one * (IZR z / IZR fx_one) * IZR fx_one)%R
        with (IZR z * IZR z / IZR fx_one)%R by (field; lra).
      done.
    + apply Rmult_le_compat; done.
Qed.

Lemma fx_pow2_bound (n : nat) (z : Z) (y : R) :
  (0 ≤ z)%Z → (IZR z / IZR fx_one <= exp y)%R →
  (0 ≤ fx_pow2 n z)%Z ∧ (IZR (fx_pow2 n z) / IZR fx_one <= exp (2 ^ n * y))%R.
Proof.
  intros Hz Hb. induction n as [|n [IH0 IH]]; simpl.
  - split; [done|]. by rewrite Rmult_1_l.
  - destruct (fx_square_bound _ _ IH0 IH) as [H0 H]. split; [done|].
    by replace (2 * 2 ^ n * y)%R with (2 * (2 ^ n * y))%R by lra.
Qed.

Lemma one_plus_le_exp (x : R) : (1 + x <= exp x)%R.
Proof.
  destruct (Req_dec x 0) as [->|Hx].
  - rewrite exp_0. lra.
  - left. by apply exp_ineq1.
Qed.

Lemma fx_exp_lower_bound (p q : Z) (n : nat) :
  (0 < q)%Z → (0 ≤ fx_one + (p * fx_one) `div` (q * 2 ^ Z.of_nat n))%Z →
  (IZR (fx_exp_lower p q n) / IZR fx_one <= exp (IZR p / IZR q))%R.
Proof.
  intros Hq Hz. pose proof fx_one_pos as HF.
  assert (0 < IZR q)%R as Hq' by (by apply IZR_lt).
  assert (0 < 2 ^ n)%R as Hn by (apply pow_lt; lra).
  assert (0 < q * 2 ^ Z.of_nat n)%Z as Hd by (apply Z.mul_pos_pos; lia).
  replace (IZR p / IZR q)%R with (2 ^ n * (IZR p / IZR q / 2 ^ n))%R by (field; lra).
  apply fx_pow2_bound; [done|].
  apply Rle_trans with (1 + IZR p / IZR q / 2 ^ n)%R; [|apply one_plus_le_exp].
  rewrite plus_IZR.
  pose proof (IZR_div_le (p * fx_one) (q * 2 ^ Z.of_nat n) Hd) as Hfl.
  rewrite !mult_IZR in Hfl. rewrite <- pow_IZR in Hfl.
  apply Rmult_le_reg_r with (IZR fx_one); [done|].
  replace ((IZR fx_one + IZR ((p * fx_one) `div` (q * 2 ^ Z.of_nat n))) / IZR fx_one * IZR fx_one)%R
    with (IZR fx_one + IZR ((p * fx_one) `div` (q * 2 ^ Z.of_nat n)))%R by (field; lra).
  replace ((1 + IZR p / IZR q / 2 ^ n) * IZR fx_one)%R
    with (IZR fx_one + IZR p * IZR fx_one / (IZR q * 2 ^ n))%R by (field; lra).
  lra.
Qed.

Lemma ln_2_upper : (ln 2 < 0.69315)%R.
Proof.
  apply exp_lt_inv. rewrite exp_ln by lra.
  pose proof (fx_exp_lower_bound 69315 100000 20) as H.
  assert (2 < IZR (fx_exp_lower 69315 100000 20) / IZR fx_one)%R as H2.
  { pose proof fx_one_pos. apply Rmult_lt_reg_r with (IZR fx_one); [done|].
    replace (IZR (fx_exp_lower 69315 100000 20) / IZR fx_one * IZR fx_one)%R
      with (IZR (fx_exp_lower 69315 100000 20)) by (field; lra).
    rewrite <- mult_IZR. apply IZR_lt. by vm_compute. }
  replace 0.69315%R with (69315 / 100000)%R by lra.
  eapply Rlt_le_trans; [exact H2|]. apply H; by vm_compute.
Qed.

Lemma ln_2_lower : (0.69305 < ln 2)%R.
Proof.
  assert (ln (/ 2) < - 0.69305)%R as H; [|rewrite ln_Rinv in H; lra].
  apply exp_lt_inv. rewrite exp_ln by lra.
  pose proof (fx_exp_lower_bound (-69305) 100000 14) as H.
  assert (/ 2 < IZR (fx_exp_lower (-69305) 100000 14) / IZR fx_one)%R as H2.
  { pose proof fx_one_pos. apply Rmult_lt_reg_r with (2 * IZR fx_one)%R; [lra|].
    replace (IZR (fx_exp_lower (-69305) 100000 14) / IZR fx_one * (2 * IZR fx_one))%R
      with (2 * IZR (fx_exp_lower (-69305) 100000 14))%R by (field; lra).
    replace (/ 2 * (2 * IZR fx_one))%R with (IZR fx_one) by lra.
    rewrite <- mult_IZR. apply IZR_lt. by vm_compute. }
  replace (- 0.69305)%R with (-69305 / 100000)%R by lra.
  eapply Rlt_le_trans; [exact H2|]. apply H; by vm_compute.
Qed.

(** ** The logistic-regression scenario *)

Lemma scenario_size : size scenario_parameters = 2.
Proof. vm_compute. reflexivity. Qed.

Lemma scenario_Z :
  pre_activation scenario_parameters (<["A0" := scenario_X]> ∅) 1 = Ok (array [[0]]%R).
Proof. vm_compute. repeat f_equal. lra. Qed.

Lemma scenario_forward :
  forward_propagation scenario_X scenario_parameters
  = Ok (scenario_activations, array [[0.5]]%R).
Proof.
  unfold forward_propagation, scenario_activations. rewrite scenario_size.
  change (range 1 (1 + 2 `div` 2)) with [1].
  cbn [for_]. rewrite scenario_Z. cbn [mbind res_bind].
  change (key "A" 1) with "A1".
  assert (sigmoid (array [[0%R]]) = array [[0.5%R]]) as ->.
  { unfold sigmoid, mmap, tabulate, array, get. cbn. by rewrite logistic_0. }
  change (key "A" (1 + 2 `div` 2 - 1)) with "A1".
  unfold getitem. rewrite lookup_insert_eq. reflexivity.
Qed.

Lemma scenario_cost_eval (regularization : string) :
  compute_cost (array [[0.5]]%R) scenario_Y scenario_parameters 0 regularization = Ok (- ln 0.5)%R.
Proof.
  unfold compute_cost. rewrite scenario_size. unfold scenario_parameters.
  change (range 1 (1 + 2 `div` 2)) with [1].
  destruct (decide (regularization = "l2")); py_eval; r_norm; f_equal; lra.
Qed.

Lemma scenario_backward (regularization : string) :
  backward_propagation scenario_Y scenario_parameters scenario_activations 0 regularization
  = Ok scenario_gradients.
Proof.
  unfold backward_propagation, error_terms, error_term_layer, gradient_layer,
    regularize_layer. rewrite scenario_size.
  unfold scenario_parameters, scenario_activations, scenario_gradients.
  change (range 1 (1 + 2 `div` 2)) with [1].
  change (range_down (2 `div` 2)) with [1].
  change (range_down (2 `div` 2 - 1)) with (@nil nat).
  destruct (decide (regularization = "l2")); py_eval; f_equal; solve_map_eq.
Qed.

Lemma scenario_update :
  update_parameters scenario_parameters scenario_gradients 0.1
  = Ok (<["b1" := array [[0.05]]%R]> (<["W1" := array [[0.55; -0.45]]%R]> ∅)).
Proof.
  unfold update_parameters. rewrite scenario_size.
  unfold scenario_parameters, scenario_gradients.
  change (range 1 (1 + 2 `div` 2)) with [1].
  py_eval; f_equal; solve_map_eq.
Qed.

(** C4. The literal logistic-regression scenario: the pre-activation is 0
    and the prediction [sigmoid(0) = 0.5]; the cost is [-log(0.5)], which is
    0.6931 to four decimals; the gradients are [dW = [-0.5, -0.5]] and
    [db = -0.5]; plain gradient descent with learning rate 0.1 gives
    [W = [0.55, -0.45]] and [b = 0.05].  With [lambda = 0] this holds
    whether or not L2 regularization is selected. *)
Theorem scenario_logistic_regression (regularization : string) :
  pre_activation scenario_parameters (<["A0" := scenario_X]> ∅) 1 = Ok (array [[0]]%R) ∧
  logistic 0 = 0.5%R ∧
  forward_propagation scenario_X scenario_parameters
    = Ok (scenario_activations, array [[0.5]]%R) ∧
  (∃ c, compute_cost (array [[0.5]]%R) scenario_Y scenario_parameters 0 regularization = Ok c ∧
        c = (- ln 0.5)%R ∧ (Rabs (c - 0.6931) < 0.00005)%R) ∧
  backward_propagation scenario_Y scenario_parameters scenario_activations 0 regularization
    = Ok scenario_gradients ∧
  update_parameters scenario_parameters scenario_gradients 0.1
    = Ok (<["b1" := array [[0.05]]%R]> (<["W1" := array [[0.55; -0.45]]%R]> ∅)).
Proof.
  split; [exact scenario_Z|]. split; [exact logistic_0|].
  split; [exact scenario_forward|].
  split; [|split; [apply scenario_backward | exact scenario_update]].
  exists (- ln 0.5)%R. split; [apply scenario_cost_eval|]. split; [done|].
  replace 0.5%R with (/ 2)%R by lra. rewrite ln_Rinv by lra.
  pose proof ln_2_lower. pose proof ln_2_upper.
  apply Rabs_def1; lra.
Qed.

Section binary64_scenario.
Import PrimFloat.


End binary64_scenario.

(** ** A saturated unit *)


Section binary64_saturation.
Import PrimFloat.


End binary64_saturation.

(** ** Predictor *)

Lemma threshold_spec (a : R) :
  (threshold a = 1%R ↔ (0.5 < a)%R) ∧ (threshold a = 0%R ↔ (a <= 0.5)%R).
Proof. unfold threshold. destruct (Rlt_dec 0.5 a); split; split; intros; lra. Qed.

(** C10. The predictor thresholds strictly: it returns an array of the
    shape of the final activation, whose entries are 0 or 1, an example
    being labeled 1 exactly when its final activation is greater than 0.5;
    an activation equal to 0.5 is labeled 0. *)
Theorem predict_strict_threshold (parameters activations : gmap string ndarray)
    (X op : ndarray) :
  forward_propagation X parameters = Ok (activations, op) →
  ∃ predictions,
    predict parameters X = Ok predictions ∧
    has_shape predictions (shape0 op) (shape1 op) ∧
    ∀ i j, i < shape0 op → j < shape1 op →
      (get predictions i j = 1%R ∨ get predictions i j = 0%R) ∧
      (get predictions i j = 1%R ↔ (0.5 < get op i j)%R) ∧
      (get op i j = 0.5%R → get predictions i j = 0%R).
Proof.
  intros Hf. unfold predict. rewrite Hf. simpl.
  eexists; split; [done|]. split; [done|].
  intros i j Hi Hj. unfold mmap. rewrite get_tabulate by done.
  destruct (threshold_spec (get op i j)) as [H1 H0].
  split; [|split].
  - unfold threshold. destruct (Rlt_dec 0.5 (get op i j)); auto.
  - exact H1.
  - intros Heq. apply H0. lra.
Qed.

Lemma predict_strict_threshold_witness :
  ∃ predictions,
    predict scenario_parameters scenario_X = Ok predictions ∧
    has_shape predictions 1 1 ∧
    ∀ i j, i < 1 → j < 1 →
      (get predictions i j = 1%R ∨ get predictions i j = 0%R) ∧
      (get predictions i j = 1%R ↔ (0.5 < get (array [[0.5]]%R) i j)%R) ∧
      (get (array [[0.5]]%R) i j = 0.5%R → get predictions i j = 0%R).
Proof.
  apply (predict_strict_threshold scenario_parameters scenario_activations scenario_X
           (array [[0.5]]%R)).
  exact scenario_forward.
Defined.

(** On the scenario the activation is exactly 0.5, and the label is 0. *)
Lemma scenario_predict : predict scenario_parameters scenario_X = Ok (array [[0]]%R).
Proof.
  unfold predict. rewrite scenario_forward. simpl. f_equal.
  unfold mmap, tabulate, array, get. simpl. repeat f_equal.
  apply threshold_spec. lra.
Qed.

(** ** Mini-batch sampler *)

(** For a positive width, the slice [k*B : (k+1)*B] of a list of length [len]. *)
Lemma slice_bounds_chunk (len k : nat) (B : Z) :
  (0 < B)%Z →
  slice_bounds len (Z.of_nat k * B) ((Z.of_nat k + 1) * B)
  = (min (k * Z.to_nat B) len, min ((k + 1) * Z.to_nat B) len - min (k * Z.to_nat B) len).
Proof.
  intros HB. unfold slice_bounds, clamp_index.
  assert (0 ≤ Z.of_nat k * B)%Z by nia. assert (0 ≤ (Z.of_nat k + 1) * B)%Z by nia.
  rewrite !(proj2 (Z.ltb_ge _ _)) by done.
  f_equal; nia.
Qed.

Lemma take_min_length {A : Type} (a : nat) (l : list A) : take (min a (length l)) l = take a l.
Proof.
  destruct (decide (a ≤ length l)); [by rewrite Nat.min_l|].
  rewrite Nat.min_r by lia. rewrite !take_ge by lia. done.
Qed.

Lemma chunk_indices_take_drop (perm : list nat) (B : Z) (k : nat) :
  (0 < B)%Z →
  chunk_indices perm B k
  = take (min ((k + 1) * Z.to_nat B) (length perm) - min (k * Z.to_nat B) (length perm))
      (drop (min (k * Z.to_nat B) (length perm)) perm).
Proof. intros HB. unfold chunk_indices, slice. by rewrite slice_bounds_chunk. Qed.

Lemma concat_chunks (perm : list nat) (B : Z) (n : nat) :
  (0 < B)%Z →
  concat (map (chunk_indices perm B) (seq 0 n)) = take (n * Z.to_nat B) perm.
Proof.
  intros HB. induction n as [|n IH]; [done|].
  rewrite seq_S, map_app, concat_app, IH. simpl. rewrite app_nil_r.
  rewrite chunk_indices_take_drop by done.
  set (b := Z.to_nat B). assert (0 < b) by (unfold b; lia).
  destruct (decide (n * b ≤ length perm)) as [Hle|Hgt].
  - rewrite (Nat.min_l (n * b)) by done.
    rewrite take_take_drop.
    replace (n * b + (min ((n + 1) * b) (length perm) - n * b))
      with (min ((n + 1) * b) (length perm)) by lia.
    rewrite take_min_length. f_equal. lia.
  - rewrite !Nat.min_r by lia. rewrite Nat.sub_diag, take_0, app_nil_r.
    rewrite !take_ge by lia. done.
Qed.

Lemma permutation_in_range (perm : list nat) (m : nat) :
  perm ≡ₚ seq 0 m → length perm = m ∧ Forall (λ p, p < m) perm.
Proof.
  intros Hp. split.
  - by rewrite Hp, length_seq.
  - rewrite Hp. apply Forall_forall. intros p Hin%elem_of_seq. lia.
Qed.

Lemma chunk_indices_sublist (perm : list nat) (B : Z) (k : nat) (P : nat → Prop) :
  (0 < B)%Z → Forall P perm → Forall P (chunk_indices perm B k).
Proof.
  intros HB HP. rewrite chunk_indices_take_drop by done.
  by apply Forall_take, Forall_drop.
Qed.

Lemma chunk_indices_length (perm : list nat) (B : Z) (k : nat) :
  (0 < B)%Z →
  length (chunk_indices perm B k)
  = min ((k + 1) * Z.to_nat B) (length perm) - min (k * Z.to_nat B) (length perm).
Proof.
  intros HB. rewrite chunk_indices_take_drop by done.
  rewrite length_take, length_drop. lia.
Qed.

Lemma chunk_indices_nth (perm : list nat) (B : Z) (k j : nat) :
  (0 < B)%Z → j < length (chunk_indices perm B k) →
  nth j (chunk_indices perm B k) 0 = nth (min (k * Z.to_nat B) (length perm) + j) perm 0.
Proof.
  intros HB Hj. rewrite chunk_indices_length in Hj by done.
  rewrite chunk_indices_take_drop by done.
  rewrite !nth_lookup. by rewrite lookup_take_lt, lookup_drop by lia.
Qed.

(** Slicing the shuffled columns is selecting the columns of the chunk. *)
Lemma slice_cols_shuffled (A : ndarray) (perm : list nat) (B : Z) (k : nat) :
  (0 < B)%Z →
  slice_cols (Z.of_nat k * B) ((Z.of_nat k + 1) * B)
    (tabulate (shape0 A) (length perm) (λ i j, get A i (nth j perm 0)))
  = tabulate (shape0 A) (length (chunk_indices perm B k))
      (λ i j, get A i (nth j (chunk_indices perm B k) 0)).
Proof.
  intros HB. unfold slice_cols.
  set (S := tabulate (shape0 A) (length perm) _).
  change (shape1 S) with (length perm). change (shape0 S) with (shape0 A).
  rewrite slice_bounds_chunk by done. subst S.
  rewrite <- chunk_indices_length by done.
  apply tabulate_ext. intros i j Hi Hj.
  rewrite chunk_indices_nth by done.
  rewrite chunk_indices_length in Hj by done.
  rewrite get_tabulate by lia. done.
Qed.

Lemma sampler_Ok (perm : list nat) (X Y : ndarray) (B : Z) :
  (0 < B)%Z → has_shape Y 1 (shape1 X) → perm ≡ₚ seq 0 (shape1 X) →
  generate_random_mini_batches perm X Y B
  = Ok (map (λ k, (tabulate (shape0 X) (length (chunk_indices perm B k))
                     (λ i j, get X i (nth j (chunk_indices perm B k) 0)),
                   tabulate (shape0 Y) (length (chunk_indices perm B k))
                     (λ i j, get Y i (nth j (chunk_indices perm B k) 0))))
          (seq 0 (1 + shape1 X `div` Z.to_nat B))).
Proof.
  intros HB [HY0 HY1] Hp.
  destruct (permutation_in_range perm (shape1 X) Hp) as [Hlen Hrange].
  unfold generate_random_mini_batches.
  rewrite (take_cols_Ok X) by done. cbn [mbind res_bind].
  rewrite (take_cols_Ok Y) by (by rewrite HY1). cbn [mbind res_bind].
  unfold reshape_row.
  set (Yp := tabulate (shape0 Y) (length perm) _).
  change (shape0 Yp) with (shape0 Y). change (shape1 Yp) with (length perm).
  rewrite decide_True by (rewrite HY0, Hlen; lia). cbn [mbind res_bind].
  unfold num_complete_minibatches. rewrite decide_False by lia. cbn [mbind res_bind].
  assert (Z.to_nat (1 + Z.of_nat (shape1 X) `div` B) = 1 + shape1 X `div` Z.to_nat B) as ->.
  { rewrite <- (Z2Nat.id B) at 1 by lia. rewrite <- Nat2Z.inj_div.
    rewrite Z2Nat.inj_add, Nat2Z.id by lia. done. }
  f_equal. apply map_ext. intros k. f_equal.
  - by apply slice_cols_shuffled.
  - assert (tabulate 1 (shape1 X)
              (λ _ j, get Yp (j `div` length perm) (j `mod` length perm))
            = tabulate (shape0 Y) (length perm) (λ i j, get Y i (nth j perm 0))) as ->.
    { rewrite HY0, Hlen. apply tabulate_ext. intros i j Hi Hj.
      rewrite Nat.div_small, Nat.mod_small by done.
      unfold Yp. rewrite get_tabulate by lia. f_equal. lia. }
    by apply slice_cols_shuffled.
Qed.

(** C3. For a positive batch size [B], a label row [Y] as wide as [X] and
    a permutation of the [m] column indices, the sampler returns exactly
    [1 + floor(m/B)] chunks; chunk [k] holds the columns of [X] and [Y]
    selected by the slice [k*B : (k+1)*B] of the permutation, which has
    width [B] for [k < floor(m/B)]; the slices concatenated in chunk order
    are the permutation itself, so every example is in exactly one chunk;
    the last chunk has [m mod B] columns, none when [m mod B = 0]. *)
Theorem mini_batches_partition (perm : list nat) (X Y : ndarray) (B : Z) :
  (0 < B)%Z → has_shape Y 1 (shape1 X) → perm ≡ₚ seq 0 (shape1 X) →
  ∃ batches,
    generate_random_mini_batches perm X Y B = Ok batches ∧
    Z.of_nat (length batches) = (1 + Z.of_nat (shape1 X) `div` B)%Z ∧
    (∀ k, k < length batches →
       ∃ XB YB, batches !! k = Some (XB, YB) ∧
                take_cols X (chunk_indices perm B k) = Ok XB ∧
                take_cols Y (chunk_indices perm B k) = Ok YB) ∧
    (∀ k, (Z.of_nat k < Z.of_nat (shape1 X) `div` B)%Z →
          Z.of_nat (length (chunk_indices perm B k)) = B) ∧
    concat (map (chunk_indices perm B) (seq 0 (length batches))) = perm ∧
    concat (map (chunk_indices perm B) (seq 0 (length batches))) ≡ₚ seq 0 (shape1 X) ∧
    NoDup (concat (map (chunk_indices perm B) (seq 0 (length batches)))) ∧
    Z.of_nat (length (chunk_indices perm B (length batches - 1)))
      = (Z.of_nat (shape1 X) `mod` B)%Z ∧
    ((Z.of_nat (shape1 X) `mod` B = 0)%Z →
       chunk_indices perm B (length batches - 1) = [] ∧
       ∃ XB YB, last batches = Some (XB, YB) ∧ shape1 XB = 0 ∧ shape1 YB = 0).
Proof.
  intros HB HY Hp.
  destruct (permutation_in_range perm (shape1 X) Hp) as [Hlen Hrange].
  set (b := Z.to_nat B). assert (0 < b) as Hb by (unfold b; lia).
  assert (B = Z.of_nat b) as HBb by (unfold b; lia).
  set (m := shape1 X) in *.
  eexists. split; [by apply sampler_Ok|].
  rewrite length_map, length_seq. fold b m.
  assert (Z.of_nat m `div` B = Z.of_nat (m `div` b))%Z as Hdiv
    by (rewrite HBb; symmetry; apply Nat2Z.inj_div).
  assert (concat (map (chunk_indices perm B) (seq 0 (1 + m `div` b))) = perm) as Hcat.
  { rewrite concat_chunks by done. fold b. apply take_ge.
    pose proof (Nat.div_mod_eq m b). pose proof (Nat.mod_upper_bound m b). nia. }
  split; [rewrite Hdiv, Nat2Z.inj_add; done|].
  split; [|split; [|split; [|split; [|split; [|split]]]]].
  - intros k Hk. eexists _, _. split.
    + rewrite list_lookup_fmap, lookup_seq_lt by done. simpl. reflexivity.
    + destruct HY as [HY0 HY1].
      rewrite !take_cols_Ok; [done|..];
        apply chunk_indices_sublist; try done. by rewrite HY1.
  - intros k Hk. rewrite chunk_indices_length by done. fold b. rewrite Hlen.
    rewrite Hdiv in Hk. pose proof (Nat.div_mod_eq m b). nia.
  - exact Hcat.
  - by rewrite Hcat.
  - rewrite Hcat, Hp. apply NoDup_seq.
  - replace (1 + m `div` b - 1) with (m `div` b) by lia.
    rewrite chunk_indices_length by done. fold b. rewrite Hlen.
    rewrite HBb, <- Nat2Z.inj_mod. f_equal.
    pose proof (Nat.div_mod_eq m b). pose proof (Nat.mod_upper_bound m b). nia.
  - intros Hmod.
    assert (m `mod` b = 0) as Hmod'.
    { apply Nat2Z.inj. rewrite Nat2Z.inj_mod, <- HBb. done. }
    assert (m = b * (m `div` b)) as Hm by (pose proof (Nat.div_mod_eq m b); lia).
    replace (1 + m `div` b - 1) with (m `div` b) by lia.
    assert (length (chunk_indices perm B (m `div` b)) = 0) as Hempty.
    { rewrite chunk_indices_length by done. fold b. rewrite Hlen. nia. }
    split; [by apply nil_length_inv|].
    eexists _, _. split; [|split].
    + rewrite last_lookup, length_map, length_seq.
      replace (Init.Nat.pred (1 + m `div` b)) with (m `div` b) by lia.
      rewrite list_lookup_fmap, lookup_seq_lt by lia. simpl. reflexivity.
    + exact Hempty.
    + exact Hempty.
Qed.

Lemma mini_batches_partition_witness :
  ∃ batches,
    generate_random_mini_batches [2; 0; 3; 1] four_X four_Y 2 = Ok batches ∧
    Z.of_nat (length batches) = (1 + Z.of_nat (shape1 four_X) `div` 2)%Z ∧
    (∀ k, k < length batches →
       ∃ XB YB, batches !! k = Some (XB, YB) ∧
                take_cols four_X (chunk_indices [2; 0; 3; 1] 2 k) = Ok XB ∧
                take_cols four_Y (chunk_indices [2; 0; 3; 1] 2 k) = Ok YB) ∧
    (∀ k, (Z.of_nat k < Z.of_nat (shape1 four_X) `div` 2)%Z →
          Z.of_nat (length (chunk_indices [2; 0; 3; 1] 2 k)) = 2%Z) ∧
    concat (map (chunk_indices [2; 0; 3; 1] 2) (seq 0 (length batches))) = [2; 0; 3; 1] ∧
    concat (map (chunk_indices [2; 0; 3; 1] 2) (seq 0 (length batches)))
      ≡ₚ seq 0 (shape1 four_X) ∧
    NoDup (concat (map (chunk_indices [2; 0; 3; 1] 2) (seq 0 (length batches)))) ∧
    Z.of_nat (length (chunk_indices [2; 0; 3; 1] 2 (length batches - 1)))
      = (Z.of_nat (shape1 four_X) `mod` 2)%Z ∧
    ((Z.of_nat (shape1 four_X) `mod` 2 = 0)%Z →
       chunk_indices [2; 0; 3; 1] 2 (length batches - 1) = [] ∧
       ∃ XB YB, last batches = Some (XB, YB) ∧ shape1 XB = 0 ∧ shape1 YB = 0).
Proof.
  apply (mini_batches_partition [2; 0; 3; 1] four_X four_Y 2).
  - lia.
  - split; reflexivity.
  - apply (bool_decide_unpack _). vm_compute. reflexivity.
Defined.

(** The chunk widths for four and for five examples with batch size two. *)
Lemma sampler_widths_four :
  (λ batches, map (λ mb, shape1 (fst mb)) batches)
    <$> generate_random_mini_batches [2; 0; 3; 1] four_X four_Y 2 = Ok [2; 2; 0].
Proof. vm_compute. reflexivity. Qed.

Lemma sampler_widths_five :
  (λ batches, map (λ mb, shape1 (fst mb)) batches)
    <$> generate_random_mini_batches [4; 2; 0; 3; 1] five_X five_Y 2 = Ok [2; 2; 1].
Proof. vm_compute. reflexivity. Qed.

(** ** Training loop *)

Section trace.
Context {A B : Type} (P : event → Prop).

Lemma trace_bind (m : traced A) (f : A → traced B) :
  Forall P (fst m) → (∀ a, snd m = Ok a → Forall P (fst (f a))) → Forall P (fst (m ≫= f)).
Proof.
  destruct m as [tr [a|e]]; simpl; intros Hm Hf; [|done].
  specialize (Hf a eq_refl). destruct (f a) as [tr' r]. simpl in *.
  by apply Forall_app.
Qed.

Lemma trace_lift (r : res A) : Forall P (fst (lift r)).
Proof. constructor. Qed.

Lemma trace_ret (a : A) : Forall P (fst (mret a : traced A)).
Proof. constructor. Qed.

End trace.

Lemma trace_tell (P : event → Prop) (e : event) : P e → Forall P (fst (tell e)).
Proof. intros H. simpl. by constructor. Qed.

Lemma trace_for {I S : Type} (P : event → Prop) (l : list I) (body : I → S → traced S) (s : S) :
  (∀ i s, Forall P (fst (body i s))) → Forall P (fst (for_traced l body s)).
Proof.
  intros Hb. revert s. induction l as [|i l IH]; intros s; simpl.
  - constructor.
  - apply trace_bind; [apply Hb|]. intros s' _. apply IH.
Qed.

Lemma for_traced_ext {I S : Type} (l : list I) (body body' : I → S → traced S) (s : S) :
  (∀ i s, body i s = body' i s) → for_traced l body s = for_traced l body' s.
Proof.
  intros Hb. revert s. induction l as [|i l IH]; intros s; simpl; [done|].
  rewrite Hb. destruct (body' i s) as [tr [s'|e]]; simpl; [|done]. by rewrite IH.
Qed.

Lemma minibatch_step_trace (a : kwargs) (minibatch : ndarray * ndarray) (st : locals) :
  Forall (event_of_run a) (fst (minibatch_step a minibatch st)).
Proof.
  unfold minibatch_step. destruct minibatch as [mX my].
  apply trace_bind; [apply trace_lift|]. intros [acts pred] _.
  apply trace_bind; [apply trace_lift|]. intros grads _.
  apply trace_bind; [apply trace_lift|]. intros c _.
  unfold event_of_run, selected_update.
  repeat case_decide.
  - apply trace_bind; [apply trace_lift|]. intros s _.
    apply trace_bind; [by apply trace_tell|]. intros _ _.
    apply trace_bind; [apply trace_lift|]. intros [p s'] _. apply trace_ret.
  - apply trace_bind; [apply trace_lift|]. intros v _.
    apply trace_bind; [apply trace_lift|]. intros s _.
    apply trace_bind; [by apply trace_tell|]. intros _ _.
    apply trace_bind; [apply trace_lift|]. intros [[p v'] s'] _. apply trace_ret.
  - apply trace_bind; [apply trace_lift|]. intros v _.
    apply trace_bind; [by apply trace_tell|]. intros _ _.
    apply trace_bind; [apply trace_lift|]. intros [p v'] _. apply trace_ret.
  - apply trace_bind; [by apply trace_tell|]. intros _ _.
    apply trace_bind; [apply trace_lift|]. intros p _. apply trace_ret.
Qed.

Lemma epoch_step_trace (rng : np_random) (X y : ndarray) (a : kwargs) (epoch : nat)
    (st : locals) :
  Forall (event_of_run a) (fst (epoch_step rng X y a 64 epoch st)).
Proof.
  unfold epoch_step.
  apply trace_bind; [by apply trace_tell|]. intros _ _.
  apply trace_bind; [apply trace_lift|]. intros minibatches _.
  apply trace_bind; [apply trace_for; intros; apply minibatch_step_trace|]. intros st' _.
  case_decide; [|apply trace_ret].
  apply trace_bind; [apply trace_lift|]. intros avg _.
  apply trace_bind; [by apply trace_tell|]. intros _ _. apply trace_ret.
Qed.

Lemma train_nn_model_trace (rng : np_random) (X y : ndarray) (a : kwargs) :
  Forall (event_of_run a) (fst (train_nn_model rng X y a)).
Proof.
  unfold train_nn_model.
  apply trace_bind; [apply trace_lift|]. intros parameters _.
  apply trace_bind; [apply trace_lift|]. intros [v s] _.
  apply trace_bind; [|intros st _; apply trace_ret].
  apply trace_for. intros. apply epoch_step_trace.
Qed.

(** C2, as the code has it.  The step counter is the keyword argument [t]
    of the training entry point (2 unless the caller passes another value);
    nothing increments it, and every RMSProp or Adam update call of a run,
    for every mini-batch of every epoch, is executed with that same [t]. *)
Theorem step_counter_is_constant (rng : np_random) (X y : ndarray) (a : kwargs) :
  t defaults = 2%Z ∧
  Forall (λ e, ∀ t', e = ev_update (call_update_parameters_rmsprop t') ∨
                     e = ev_update (call_update_parameters_adam t') → t' = t a)
    (fst (train_nn_model rng X y a)).
Proof.
  split; [reflexivity|].
  eapply Forall_impl; [apply train_nn_model_trace|].
  intros e He t' Ht'. unfold event_of_run, selected_update in He.
  destruct Ht' as [-> | ->]; repeat case_decide; congruence.
Qed.

(** Three epochs over one example: the update calls all carry the same
    [t], the default 2 or the value passed, not 1, 2, 3. *)
Lemma step_counter_counterexample :
  omap update_of (fst (call_train_nn_model zero_rng one_X one_y [("epochs", PyInt 3)]))
    = [call_update_parameters_adam 2; call_update_parameters_adam 2;
       call_update_parameters_adam 2] ∧
  omap update_of (fst (call_train_nn_model zero_rng one_X one_y
                         [("epochs", PyInt 3); ("optimization", PyStr "rmsprop");
                          ("t", PyInt 1)]))
    = [call_update_parameters_rmsprop 1; call_update_parameters_rmsprop 1;
       call_update_parameters_rmsprop 1].
Proof. split; vm_compute; reflexivity. Qed.

Lemma bind_keyword_Raise (a : kwargs) (kw : string * pyval) (e : exn) :
  bind_keyword a kw = Raise e → e = TypeError.
Proof.
  destruct kw as [name [z|r|s|l]], a; simpl; repeat case_decide; congruence.
Qed.

Lemma bind_keyword_mini_batch_size (a : kwargs) (v : pyval) :
  bind_keyword a ("mini_batch_size", v) = Raise TypeError.
Proof. destruct v, a; reflexivity. Qed.

Lemma bind_keywords_mini_batch_size (a : kwargs) (kws : list (string * pyval)) (v : pyval) :
  ("mini_batch_size", v) ∈ kws → bind_keywords a kws = Raise TypeError.
Proof.
  revert a. induction kws as [|kw kws IH]; intros a Hin.
  - by apply elem_of_nil in Hin.
  - simpl. destruct (bind_keyword a kw) as [a'|e] eqn:Hb; simpl.
    + apply elem_of_cons in Hin as [<-|Hin]; [|by apply IH].
      by rewrite bind_keyword_mini_batch_size in Hb.
    + by rewrite (bind_keyword_Raise _ _ _ Hb).
Qed.

(** C6, as the code has it.  The training entry point has no
    [mini_batch_size] parameter: a call that passes one is rejected with a
    [TypeError] before anything runs, and in every run the sampler is
    invoked with the chunk width 64. *)
Theorem sampler_width_is_fixed (rng : np_random) (X y : ndarray)
    (kws : list (string * pyval)) :
  Forall (λ e, ∀ w, e = ev_sampler w → w = 64%Z) (fst (call_train_nn_model rng X y kws)) ∧
  (∀ v, ("mini_batch_size", v) ∈ kws →
        call_train_nn_model rng X y kws = ([], Raise TypeError)).
Proof.
  split.
  - unfold call_train_nn_model. apply trace_bind; [apply trace_lift|]. intros a _.
    eapply Forall_impl; [apply train_nn_model_trace|].
    intros e He w ->. exact He.
  - intros v Hin. unfold call_train_nn_model.
    by rewrite (bind_keywords_mini_batch_size _ _ _ Hin).
Qed.

(** A caller asking for chunks of 32 gets a [TypeError] and no sampling;
    without the keyword the sampler runs with 64. *)
Lemma sampler_width_counterexample :
  call_train_nn_model zero_rng one_X one_y [("epochs", PyInt 3); ("mini_batch_size", PyInt 32)]
    = ([], Raise TypeError) ∧
  omap sampler_of (fst (call_train_nn_model zero_rng one_X one_y [("epochs", PyInt 3)]))
    = [64%Z; 64%Z; 64%Z].
Proof. split; vm_compute; reflexivity. Qed.

Lemma minibatch_step_plain (a : kwargs) (minibatch : ndarray * ndarray) (st : locals) :
  optimization a ≠ "rmsprop" → optimization a ≠ "adam" → optimization a ≠ "momentum" →
  minibatch_step a minibatch st = minibatch_step (with_optimization "none" a) minibatch st.
Proof.
  intros H1 H2 H3. unfold minibatch_step. destruct minibatch as [mX my].
  cbn [with_optimization learning_rate lambd regularization optimization beta1 beta2
       epsilon t].
  destruct (forward_propagation mX (l_parameters st)) as [[acts pred]|e]; [|done].
  cbn [lift mbind traced_bind].
  destruct (backward_propagation _ _ _ _ _) as [grads|e]; [|done].
  destruct (compute_cost _ _ _ _ _) as [c|e]; [|done].
  rewrite !decide_False by done. reflexivity.
Qed.

(** C8, as the code has it.  The orchestrator knows three optimizer names;
    under every other name (["none"] is one of them) the run is the plain
    gradient-descent run: same trace, same result, every update call being
    the plain rule.  No error is raised for the name. *)
Theorem other_optimizer_names_run_plain (rng : np_random) (X y : ndarray) (a : kwargs) :
  optimization a ≠ "rmsprop" → optimization a ≠ "adam" → optimization a ≠ "momentum" →
  train_nn_model rng X y a = train_nn_model rng X y (with_optimization "none" a) ∧
  Forall (λ e, ∀ c, e = ev_update c → c = call_update_parameters)
    (fst (train_nn_model rng X y a)).
Proof.
  intros H1 H2 H3. split.
  - unfold train_nn_model.
    cbn [with_optimization hidden_layers epochs optimization].
    destruct (create_layers (gauss rng) _) as [p|e]; [|done].
    cbn [lift mbind traced_bind]. rewrite !decide_False by done.
    cbn [lift mbind traced_bind].
    assert (∀ st, for_traced (seq 1 (Z.to_nat (epochs a))) (epoch_step rng X y a 64) st
                  = for_traced (seq 1 (Z.to_nat (epochs a)))
                      (epoch_step rng X y (with_optimization "none" a) 64) st) as ->.
    { intros st. apply for_traced_ext. intros epoch st'. unfold epoch_step.
      cbn [tell lift mbind traced_bind].
      destruct (generate_random_mini_batches (permutation rng epoch) X y 64) as [mbs|e];
        [|done].
      rewrite (for_traced_ext mbs (minibatch_step a)
                 (minibatch_step (with_optimization "none" a))); [done|].
      intros. by apply minibatch_step_plain. }
    done.
  - eapply Forall_impl; [apply train_nn_model_trace|].
    intros e He c ->. unfold event_of_run, selected_update in He.
    by rewrite !decide_False in He by done.
Qed.

Lemma other_optimizer_names_run_plain_witness :
  train_nn_model zero_rng one_X one_y (with_optimization "sgd" defaults)
    = train_nn_model zero_rng one_X one_y
        (with_optimization "none" (with_optimization "sgd" defaults)) ∧
  Forall (λ e, ∀ c, e = ev_update c → c = call_update_parameters)
    (fst (train_nn_model zero_rng one_X one_y (with_optimization "sgd" defaults))).
Proof.
  apply (other_optimizer_names_run_plain zero_rng one_X one_y
           (with_optimization "sgd" defaults)); simpl; discriminate.
Defined.

(** An unknown name raises nothing: the run returns, having applied the
    plain rule in every step. *)
Lemma optimizer_name_counterexample :
  raised (snd (call_train_nn_model zero_rng one_X one_y
                 [("epochs", PyInt 3); ("optimization", PyStr "sgd")])) = None ∧
  omap update_of (fst (call_train_nn_model zero_rng one_X one_y
                         [("epochs", PyInt 3); ("optimization", PyStr "sgd")]))
    = [call_update_parameters; call_update_parameters; call_update_parameters].
Proof. split; vm_compute; reflexivity. Qed.

(** ** The sigmoid and its derivative *)

Lemma logistic_derivative (z : R) :
  derivable_pt_lim logistic z (logistic z * (1 - logistic z))%R.
Proof.
  pose proof (exp_pos (- z)) as He.
  assert (derivable_pt_lim (fct_cte 1 / (fct_cte 1 + comp exp (- id)))%F z
            ((0 * (1 + exp (- z)) - (0 + exp (- z) * - 1) * 1) / Rsqr (1 + exp (- z)))%R) as H.
  { apply (derivable_pt_lim_div (fct_cte 1) (fct_cte 1 + comp exp (- id))%F z).
    - apply derivable_pt_lim_const.
    - apply derivable_pt_lim_plus; [apply derivable_pt_lim_const|].
      apply derivable_pt_lim_comp.
      + apply derivable_pt_lim_opp, derivable_pt_lim_id.
      + apply derivable_pt_lim_exp.
    - unfold plus_fct, fct_cte, comp, opp_fct, id. lra. }
  assert ((logistic z * (1 - logistic z))%R
          = (0 * (1 + exp (- z)) - (0 + exp (- z) * - 1) * 1) / Rsqr (1 + exp (- z)))%R as ->.
  { unfold logistic, Rsqr. field. lra. }
  eapply derivable_pt_lim_ext; [|exact H].
  intros x. unfold div_fct, plus_fct, fct_cte, comp, opp_fct, id, logistic. reflexivity.
Qed.

Lemma logistic_increasing (x y : R) : (x < y)%R → (logistic x < logistic y)%R.
Proof.
  intros Hxy. unfold logistic.
  pose proof (exp_pos (- x)). pose proof (exp_pos (- y)).
  assert (exp (- y) < exp (- x))%R by (apply exp_increasing; lra).
  unfold Rdiv. rewrite !Rmult_1_l. apply Rinv_lt_contravar; [|lra].
  apply Rmult_lt_0_compat; lra.
Qed.

Lemma logistic_opp (z : R) : logistic (- z) = (1 - logistic z)%R.
Proof.
  unfold logistic. rewrite Ropp_involutive.
  pose proof (exp_pos z). pose proof (exp_pos (- z)).
  assert (exp z * exp (- z) = 1)%R as Hinv by (rewrite <- exp_plus, Rplus_opp_r; apply exp_0).
  apply Rmult_eq_reg_r with ((1 + exp z) * (1 + exp (- z)))%R; [|nra].
  field_simplify; nra.
Qed.

Lemma logistic_half (z : R) : (0.5 < logistic z)%R ↔ (0 < z)%R.
Proof.
  rewrite <- logistic_0. split.
  - intros H. destruct (Rlt_le_dec 0 z) as [|Hle]; [done|].
    destruct Hle as [Hlt| ->]; [|lra].
    pose proof (logistic_increasing _ _ Hlt). lra.
  - apply logistic_increasing.
Qed.

Lemma get_sigmoid (Z : ndarray) (i j : nat) :
  i < shape0 Z → j < shape1 Z → get (sigmoid Z) i j = logistic (get Z i j).
Proof. intros. unfold sigmoid. by rewrite get_mmap. Qed.

(** X2. [sigmoid_derivative] applied to the activation [sigmoid(Z)]
    returns, entry by entry, the derivative of the sigmoid at [Z]. *)
Theorem sigmoid_derivative_is_derivative (Z : ndarray) :
  ∃ sd, sigmoid_derivative (sigmoid Z) = Ok sd ∧ same_shape sd Z ∧
        ∀ i j, i < shape0 Z → j < shape1 Z →
               derivable_pt_lim logistic (get Z i j) (get sd i j).
Proof.
  destruct (sigmoid_derivative_Ok (sigmoid Z)) as (sd & Hsd & Hs & He).
  exists sd. split; [done|]. split; [exact Hs|].
  intros i j Hi Hj. rewrite (He i j) by done. rewrite get_sigmoid by done.
  apply logistic_derivative.
Qed.

(** X3. [sigmoid_derivative] never exceeds 1/4, and is positive wherever
    the activation lies strictly between 0 and 1, as every activation of the
    forward pass does. *)
Theorem sigmoid_derivative_bounds (A : ndarray) :
  ∃ sd, sigmoid_derivative A = Ok sd ∧ same_shape sd A ∧
        ∀ i j, i < shape0 A → j < shape1 A →
               (get sd i j <= 0.25)%R ∧
               (unit_interval (get A i j) → (0 < get sd i j)%R).
Proof.
  destruct (sigmoid_derivative_Ok A) as (sd & Hsd & Hs & He).
  exists sd. split; [done|]. split; [exact Hs|].
  intros i j Hi Hj. rewrite (He i j) by done. split.
  - pose proof (Rle_0_sqr (get A i j - 0.5)) as H. unfold Rsqr in H. lra.
  - intros [H0 H1]. apply Rmult_lt_0_compat; lra.
Qed.

(** X4. Over the reals, the sigmoid preserves the strict order of its
    arguments and reflects about 1/2: [sigmoid(-z) = 1 - sigmoid(z)],
    entry by entry.  (This is a property of the function the program
    rounds: on binary64 the order is kept only weakly, two arguments
    above 37 both giving 1.0, and the reflection holds up to rounding.) *)
Theorem sigmoid_monotone_symmetric (Z : ndarray) (i j i' j' : nat) :
  i < shape0 Z → j < shape1 Z → i' < shape0 Z → j' < shape1 Z →
  ((get Z i j < get Z i' j')%R → (get (sigmoid Z) i j < get (sigmoid Z) i' j')%R) ∧
  get (sigmoid (mmap Ropp Z)) i j = (1 - get (sigmoid Z) i j)%R.
Proof.
  intros Hi Hj Hi' Hj'. split.
  - intros Hlt. rewrite !get_sigmoid by done. by apply logistic_increasing.
  - rewrite !get_sigmoid, get_mmap by done. apply logistic_opp.
Qed.

Lemma sigmoid_monotone_symmetric_witness :
  ((get (array [[0; 1]]%R) 0 0 < get (array [[0; 1]]%R) 0 1)%R →
   (get (sigmoid (array [[0; 1]]%R)) 0 0 < get (sigmoid (array [[0; 1]]%R)) 0 1)%R) ∧
  get (sigmoid (mmap Ropp (array [[0; 1]]%R))) 0 0
    = (1 - get (sigmoid (array [[0; 1]]%R)) 0 0)%R.
Proof.
  apply (sigmoid_monotone_symmetric (array [[0; 1]]%R) 0 0 0 1); simpl; lia.
Defined.


(** ** Cost *)

Lemma for_preserves {S : Type} (I : S → Prop) (l : list nat) (body : nat → S → res S)
    (s s' : S) :
  I s → (∀ i s1 s2, i ∈ l → I s1 → body i s1 = Ok s2 → I s2) →
  for_ l body s = Ok s' → I s'.
Proof.
  revert s. induction l as [|i l IH]; intros s Hs Hstep Hrun; simpl in Hrun.
  - by injection Hrun as <-.
  - destruct (body i s) as [s2|] eqn:Hb; [|done].
    apply (IH s2); [| |done].
    + apply (Hstep i s s2); [by left | done | done].
    + intros j s1 s3 Hj. apply Hstep. by right.
Qed.

Lemma Rsum_nonneg (l : list R) : Forall (λ x, 0 <= x)%R l → (0 <= Rsum l)%R.
Proof. induction 1; simpl; lra. Qed.

Lemma Rsum_neg (l : list R) : l ≠ [] → Forall (λ x, x < 0)%R l → (Rsum l < 0)%R.
Proof.
  intros Hne H. induction H as [|x l Hx Hl IH]; [done|]. simpl.
  destruct l as [|y l]; [simpl; lra|]. specialize (IH ltac:(done)). lra.
Qed.

Lemma sum_upto_nonneg (n : nat) (f : nat → R) :
  (∀ i, i < n → (0 <= f i)%R) → (0 <= sum_upto n f)%R.
Proof.
  intros H. apply Rsum_nonneg, Forall_map, Forall_forall.
  intros i Hi%elem_of_seq. apply H. lia.
Qed.

Lemma sum_upto_neg (n : nat) (f : nat → R) :
  0 < n → (∀ i, i < n → (f i < 0)%R) → (sum_upto n f < 0)%R.
Proof.
  intros Hn H. apply Rsum_neg.
  - destruct n; [lia|]. done.
  - apply Forall_map, Forall_forall. intros i Hi%elem_of_seq. apply H. lia.
Qed.

Lemma np_sum_squares_nonneg (W : ndarray) : (0 <= np_sum (mmap (λ x, x ^ 2)%R W))%R.
Proof.
  unfold np_sum. apply sum_upto_nonneg. intros i Hi.
  apply sum_upto_nonneg. intros j Hj. simpl in *.
  rewrite get_mmap by done. apply pow2_ge_0.
Qed.

(** The regularization loop of [compute_cost] adds up the squared weights. *)
Lemma cost_reg_loop (parameters : gmap string ndarray) (l : list nat) (acc : R) :
  (∀ i, i ∈ l → is_Some (parameters !! key "W" i)) →
  for_ l (λ i reg_term,
            W ← getitem parameters (key "W" i);
            Ok (reg_term + np_sum (mmap (λ x, x ^ 2)%R W))%R) acc
  = Ok (acc + Rsum (map (λ i, match parameters !! key "W" i with
                              | Some W => np_sum (mmap (λ x, x ^ 2)%R W)
                              | None => 0%R
                              end) l))%R.
Proof.
  revert acc. induction l as [|i l IH]; intros acc Hk; simpl.
  - f_equal. lra.
  - destruct (Hk i) as [W HW]; [by left|].
    unfold getitem at 1. rewrite HW. cbn [mbind res_bind].
    rewrite IH by (intros j Hj; apply Hk; by right). apply (f_equal Ok). simpl. rewrite ?HW. lra.
Qed.

Lemma has_weights_range (parameters : gmap string ndarray) (i : nat) :
  has_weights parameters → i ∈ range 1 (1 + size parameters `div` 2) →
  is_Some (parameters !! key "W" i).
Proof. intros H Hi%elem_of_seq. apply H. lia. Qed.

(** Without a column of labels the divisions by [m] fail. *)
Lemma compute_cost_empty_raises (act y : ndarray) (parameters : gmap string ndarray)
    (lambd : R) (regularization : string) :
  shape1 y = 0 → ∃ e, compute_cost act y parameters lambd regularization = Raise e.
Proof.
  intros Hm. unfold compute_cost. rewrite Hm.
  destruct (broadcast Rmult (mmap ln act) y) as [l1|e]; [|eexists; reflexivity].
  cbn [mbind res_bind].
  destruct (broadcast Rmult _ _) as [l2|e]; [|eexists; reflexivity]. cbn [mbind res_bind].
  destruct (broadcast Rplus l1 l2) as [lp|e]; [|eexists; reflexivity]. cbn [mbind res_bind].
  case_decide.
  - destruct (for_ _ _ _) as [r|e]; [|eexists; reflexivity]. cbn [mbind res_bind py_div].
    eexists; reflexivity.
  - cbn [mbind res_bind py_div]. eexists; reflexivity.
Qed.

(** X5. On labels without a column (an empty batch) [compute_cost] never
    returns a cost: it raises, and the exception is [ZeroDivisionError] once
    the predictions have the shape of the labels and every layer has its
    weights. *)
Theorem compute_cost_empty_batch (act y : ndarray) (parameters : gmap string ndarray)
    (lambd : R) (regularization : string) :
  shape1 y = 0 →
  (∃ e, compute_cost act y parameters lambd regularization = Raise e) ∧
  (same_shape act y → has_weights parameters →
   compute_cost act y parameters lambd regularization = Raise ZeroDivisionError).
Proof.
  intros Hm. split; [by apply compute_cost_empty_raises|].
  unfold compute_cost. rewrite Hm.
  intros [H0 H1] Hw.
  destruct (broadcast_same Rmult (mmap ln act) y) as (l1 & -> & [Hl10 Hl11] & _); [done..|].
  cbn [mbind res_bind].
  destruct (broadcast_same Rmult (mmap (λ a, ln (1 - a))%R act) (mmap (λ x, 1 - x)%R y))
    as (l2 & -> & [Hl20 Hl21] & _); [done..|].
  cbn [mbind res_bind].
  destruct (broadcast_same Rplus l1 l2) as (lp & -> & _); [simpl in *; congruence..|].
  cbn [mbind res_bind]. case_decide.
  - rewrite cost_reg_loop by (intros; by apply has_weights_range). reflexivity.
  - reflexivity.
Qed.

Lemma compute_cost_empty_batch_witness :
  (∃ e, compute_cost (zeros 1 0) (zeros 1 0) scenario_parameters 2 "l2" = Raise e) ∧
  (same_shape (zeros 1 0) (zeros 1 0) → has_weights scenario_parameters →
   compute_cost (zeros 1 0) (zeros 1 0) scenario_parameters 2 "l2" = Raise ZeroDivisionError).
Proof.
  apply (compute_cost_empty_batch (zeros 1 0) (zeros 1 0) scenario_parameters 2 "l2").
  reflexivity.
Defined.

Lemma cost_reg_nonneg (parameters : gmap string ndarray) (l : list nat) (r : R) :
  for_ l (λ i reg_term,
            W ← getitem parameters (key "W" i);
            Ok (reg_term + np_sum (mmap (λ x, x ^ 2)%R W))%R) 0%R = Ok r →
  (0 <= r)%R.
Proof.
  apply (for_preserves (λ r, 0 <= r)%R); [lra|].
  intros i s1 s2 _ Hs1. destruct (getitem parameters (key "W" i)) as [W|]; [|done].
  cbn [mbind res_bind]. intros [= <-].
  pose proof (np_sum_squares_nonneg W). simpl in *. lra.
Qed.

Lemma log_loss_neg (a t : R) :
  unit_interval a → (0 <= t <= 1)%R → (ln a * t + ln (1 - a) * (1 - t) < 0)%R.
Proof.
  intros [Ha0 Ha1] [Ht0 Ht1].
  assert (ln a < 0)%R as H1 by (rewrite <- ln_1; apply ln_increasing; lra).
  assert (ln (1 - a) < 0)%R as H2 by (rewrite <- ln_1; apply ln_increasing; lra).
  set (u := ln a) in *. set (v := ln (1 - a)) in *.
  pose proof (Rmult_le_compat_neg_l u 0 t). pose proof (Rmult_le_compat_neg_l v 0 (1 - t)).
  destruct (Rle_lt_dec t 0.5).
  - pose proof (Rmult_le_compat_neg_l v 0.5 (1 - t)). lra.
  - pose proof (Rmult_le_compat_neg_l u 0.5 t). lra.
Qed.

(** Over the reals the cost of a non-empty batch is strictly positive
    whenever every prediction lies strictly between 0 and 1, every label
    between 0 and 1, and the regularization weight is not negative. *)
Lemma compute_cost_positive (act y : ndarray) (parameters : gmap string ndarray)
    (lambd : R) (regularization : string) (c : R) :
  compute_cost act y parameters lambd regularization = Ok c →
  same_shape act y → 0 < shape0 y →
  (∀ i j, i < shape0 y → j < shape1 y →
          unit_interval (get act i j) ∧ (0 <= get y i j <= 1)%R) →
  (0 <= lambd)%R →
  (0 < c)%R.
Proof.
  intros Hc [H0 H1] Hrows Hent Hl. unfold compute_cost in Hc.
  destruct (broadcast_same Rmult (mmap ln act) y) as (l1 & Hl1 & [Hl10 Hl11] & Hg1); [done..|].
  destruct (broadcast_same Rmult (mmap (λ a, ln (1 - a))%R act) (mmap (λ x, 1 - x)%R y))
    as (l2 & Hl2 & [Hl20 Hl21] & Hg2); [done..|].
  destruct (broadcast_same Rplus l1 l2) as (lp & Hlp & [Hlp0 Hlp1] & Hg);
    [simpl in *; congruence..|].
  rewrite Hl1, Hl2 in Hc. cbn [mbind res_bind] in Hc. rewrite Hlp in Hc.
  cbn [mbind res_bind] in Hc. simpl in Hl10, Hl11, Hl20, Hl21, Hg1, Hg2.
  destruct (decide (shape1 y = 0)) as [Hm|Hm].
  { exfalso. rewrite Hm in Hc. case_decide.
    - destruct (for_ _ _ _); done.
    - done. }
  assert (0 < INR (shape1 y))%R as Hpos by (apply lt_0_INR; lia).
  assert (np_sum lp < 0)%R as Hsum.
  { unfold np_sum. rewrite Hlp0, Hlp1, Hl10, Hl11, H0, H1.
    apply sum_upto_neg; [done|]. intros i Hi.
    apply sum_upto_neg; [lia|]. intros j Hj.
    rewrite Hg, Hg1, Hg2, !get_mmap by (simpl; lia).
    destruct (Hent i j Hi Hj). by apply log_loss_neg. }
  assert (0 < -1 / INR (shape1 y) * np_sum lp)%R as Hce.
  { unfold Rdiv. assert (0 < / INR (shape1 y))%R by by apply Rinv_0_lt_compat. nra. }
  assert (∃ r, (0 <= r)%R ∧ c = (-1 / INR (shape1 y) * np_sum lp + r)%R) as (r & Hr & ->);
    [|lra].
  rewrite (py_div_Ok (-1)) in Hc by done.
  case_decide.
  - destruct (for_ _ _ _) as [reg|] eqn:Hreg; [|done].
    apply cost_reg_nonneg in Hreg. cbn [mbind res_bind] in Hc.
    rewrite py_div_Ok in Hc by lia. cbn [mbind res_bind] in Hc.
    injection Hc as <-. eexists; split; [|reflexivity].
    assert (0 < INR (2 * shape1 y))%R by (apply lt_0_INR; lia).
    apply Rmult_le_pos; [|done].
    unfold Rdiv. apply Rmult_le_pos; [done|]. left. by apply Rinv_0_lt_compat.
  - cbn [mbind res_bind] in Hc. injection Hc as <-. exists 0%R. split; [lra|reflexivity].
Qed.

(** X6. The cost of a non-empty batch is not negative whenever every
    prediction lies strictly between 0 and 1, every label between 0 and 1,
    and the regularization weight is not negative.  (Over the reals it is
    even positive; on binary64 a prediction below [2^-53] with label 0
    contributes [log(1.0) = 0], and the cost can be exactly 0.) *)
Theorem compute_cost_nonnegative (act y : ndarray) (parameters : gmap string ndarray)
    (lambd : R) (regularization : string) (c : R) :
  compute_cost act y parameters lambd regularization = Ok c →
  same_shape act y → 0 < shape0 y →
  (∀ i j, i < shape0 y → j < shape1 y →
          unit_interval (get act i j) ∧ (0 <= get y i j <= 1)%R) →
  (0 <= lambd)%R →
  (0 <= c)%R.
Proof.
  intros Hc Hs Hrows Hent Hl. left.
  by apply (compute_cost_positive act y parameters lambd regularization).
Qed.

(** X7. The L2 cost is the unregularized cost plus
    [lambd/(2*m)] times the sum of the squared weights of all layers (the
    biases are not penalized); in particular it is never smaller for a
    non-negative [lambd], and equal for [lambd = 0]. *)
Theorem compute_cost_l2_penalty (act y : ndarray) (parameters : gmap string ndarray)
    (lambd : R) (regularization : string) (c : R) :
  regularization ≠ "l2" →
  compute_cost act y parameters lambd regularization = Ok c →
  has_weights parameters →
  ∃ c2, compute_cost act y parameters lambd "l2" = Ok c2 ∧
        c2 = (c + lambd / INR (2 * shape1 y) * squared_weights parameters)%R ∧
        ((0 <= lambd)%R → (c <= c2)%R) ∧
        (lambd = 0%R → c2 = c).
Proof.
  intros Hreg Hc Hw. unfold compute_cost in *.
  destruct (broadcast Rmult (mmap ln act) y) as [l1|]; [|done].
  cbn [mbind res_bind] in *.
  destruct (broadcast Rmult _ _) as [l2|]; [|done]. cbn [mbind res_bind] in *.
  destruct (broadcast Rplus l1 l2) as [lp|]; [|done]. cbn [mbind res_bind] in *.
  rewrite decide_False in Hc by done. rewrite decide_True by done.
  cbn [mbind res_bind] in Hc.
  destruct (decide (shape1 y = 0)) as [Hm|Hm]; [by rewrite Hm in Hc|].
  rewrite py_div_Ok in Hc |- * by done. cbn [mbind res_bind] in Hc. injection Hc as <-.
  rewrite cost_reg_loop by (intros; by apply has_weights_range).
  cbn [mbind res_bind]. rewrite py_div_Ok by lia. cbn [mbind res_bind].
  fold (squared_weights parameters).
  eexists; split; [reflexivity|]. split; [lra|].
  assert (0 <= squared_weights parameters)%R as Hsq.
  { apply Rsum_nonneg, Forall_map, Forall_forall. intros i _.
    destruct (parameters !! key "W" i); [apply np_sum_squares_nonneg | lra]. }
  assert (0 < INR (2 * shape1 y))%R as Hpos by (apply lt_0_INR; lia).
  split.
  - intros Hl. assert (0 <= lambd / INR (2 * shape1 y))%R.
    { unfold Rdiv. apply Rmult_le_pos; [done|]. left. by apply Rinv_0_lt_compat. }
    nra.
  - intros ->. unfold Rdiv. lra.
Qed.

Lemma compute_cost_nonnegative_witness : (0 <= - ln 0.5)%R.
Proof.
  apply (compute_cost_nonnegative (array [[0.5]]%R) scenario_Y scenario_parameters 0 "l2").
  - apply scenario_cost_eval.
  - split; reflexivity.
  - simpl. lia.
  - intros i j Hi Hj. simpl in Hi, Hj.
    assert (i = 0) as -> by lia. assert (j = 0) as -> by lia.
    unfold unit_interval, scenario_Y, array, get. simpl. lra.
  - lra.
Defined.

(** Without regularization the cost of the scenario does not depend on
    [lambd]. *)
Lemma scenario_cost_plain (lambd : R) :
  compute_cost (array [[0.5]]%R) scenario_Y scenario_parameters lambd "none"
  = Ok (- ln 0.5)%R.
Proof.
  unfold compute_cost. rewrite decide_False by discriminate.
  py_eval; r_norm; f_equal; lra.
Qed.

Lemma compute_cost_l2_penalty_witness :
  ∃ c2, compute_cost (array [[0.5]]%R) scenario_Y scenario_parameters 2 "l2" = Ok c2 ∧
        c2 = (- ln 0.5 + 2 / INR (2 * shape1 scenario_Y) * squared_weights scenario_parameters)%R ∧
        ((0 <= 2)%R → (- ln 0.5 <= c2)%R) ∧
        (2%R = 0%R → c2 = (- ln 0.5)%R).
Proof.
  apply (compute_cost_l2_penalty (array [[0.5]]%R) scenario_Y scenario_parameters 2 "none").
  - discriminate.
  - apply scenario_cost_plain.
  - intros i Hi. rewrite scenario_size in Hi. simpl in Hi. assert (i = 1) as -> by lia.
    eexists. vm_compute. reflexivity.
Defined.


(** ** Update rules *)

(** A loop over the layers [1 .. L] whose body, at layer [i], changes only
    what [view _ i] shows of the state. *)
Section layerwise.
Context {S T : Type}.
Variable view : S → nat → T.
Variable body : nat → S → res S.
Variable L : nat.
Variable pre : nat → T → Prop.
Variable post : nat → T → T → Prop.

Lemma layerwise_loop (st : S) :
  (∀ i st, 1 ≤ i ≤ L → pre i (view st i) →
     ∃ st', body i st = Ok st' ∧ post i (view st i) (view st' i) ∧
            ∀ j, j ≠ i → view st' j = view st j) →
  (∀ i, 1 ≤ i ≤ L → pre i (view st i)) →
  ∃ st', for_ (seq 1 L) body st = Ok st' ∧
         (∀ i, 1 ≤ i ≤ L → post i (view st i) (view st' i)) ∧
         (∀ j, ¬ 1 ≤ j ≤ L → view st' j = view st j).
Proof.
  intros step Hpre.
  edestruct (for_total
    (λ done st1, ∀ j,
       (1 ≤ j ≤ length done → post j (view st j) (view st1 j)) ∧
       (¬ 1 ≤ j ≤ length done → view st1 j = view st j))
    (seq 1 L) body st) as (st' & Hrun & Hinv).
  - intros j. split; [simpl; lia | done].
  - intros done i st1 (_ & -> & Hlt)%prefix_seq_snoc Hinv.
    destruct (step (1 + length done) st1) as (st2 & Hb & Hpost & Hframe); [lia| |].
    { destruct (Hinv (1 + length done)) as [_ Heq]. rewrite Heq by lia. apply Hpre. lia. }
    exists st2. split; [done|]. intros j. rewrite length_app. simpl. split.
    + intros Hj. destruct (decide (j = 1 + length done)) as [->|Hne].
      * destruct (Hinv (1 + length done)) as [_ Heq]. rewrite <- Heq by lia. done.
      * rewrite Hframe by done. apply Hinv. lia.
    + intros Hj. rewrite Hframe by lia. apply Hinv. lia.
  - exists st'. split; [done|]. rewrite length_seq in Hinv. split.
    + intros i Hi. by apply Hinv.
    + intros j Hj. by apply Hinv.
Qed.
End layerwise.

Ltac solve_key_ne :=
  first [ apply key_W_b | symmetry; apply key_W_b
        | apply key_dW_db | symmetry; apply key_dW_db
        | apply key_ne; lia | apply key_ne; congruence | done ].

Ltac store_lookup :=
  repeat first [ rewrite lookup_insert_eq | rewrite lookup_insert_ne by solve_key_ne ].

Lemma scal_step_Ok (alpha : R) (theta g : ndarray) :
  same_shape g theta →
  ∃ theta', isub theta (scal alpha g) = Ok theta' ∧ descent_entrywise alpha theta g theta'.
Proof.
  intros [H0 H1].
  destruct (isub_same theta (scal alpha g)) as (theta' & Ht & Hs & He); [done|].
  exists theta'. split; [done|]. split; [done|].
  intros i j Hi Hj. rewrite He, get_scal by (simpl; congruence). done.
Qed.

(** Gradient descent rewrites [W_i] and [b_i] and nothing else. *)
Lemma descent_layer_Ok (gradients : gmap string ndarray) (alpha : R) (i : nat)
    (p : gmap string ndarray) (W b gW gb : ndarray) :
  p !! key "W" i = Some W → p !! key "b" i = Some b →
  gradients !! key "dW" i = Some gW → gradients !! key "db" i = Some gb →
  same_shape gW W → same_shape gb b →
  ∃ W' b',
    (W ← getitem p (key "W" i);
     dW ← getitem gradients (key "dW" i);
     W' ← isub W (scal alpha dW);
     let parameters := <[key "W" i := W']> p in
     b ← getitem parameters (key "b" i);
     db ← getitem gradients (key "db" i);
     b' ← isub b (scal alpha db);
     Ok (<[key "b" i := b']> parameters))
    = Ok (<[key "b" i := b']> (<[key "W" i := W']> p)) ∧
    descent_entrywise alpha W gW W' ∧ descent_entrywise alpha b gb b'.
Proof.
  intros HW Hb HgW Hgb SW Sb.
  destruct (scal_step_Ok alpha W gW SW) as (W' & EW & HWs).
  destruct (scal_step_Ok alpha b gb Sb) as (b' & Eb & Hbs).
  exists W', b'. split; [|done].
  unfold getitem. rewrite HW, HgW. cbn [mbind res_bind]. rewrite EW. cbn [mbind res_bind].
  rewrite lookup_insert_ne, Hb, Hgb by solve_key_ne. cbn [mbind res_bind].
  rewrite Eb. reflexivity.
Qed.

Lemma size_insert_layer (p : gmap string ndarray) (i : nat) (W b W' b' : ndarray) :
  p !! key "W" i = Some W → p !! key "b" i = Some b →
  size (<[key "b" i := b']> (<[key "W" i := W']> p)) = size p.
Proof.
  intros HW Hb.
  rewrite map_size_insert_Some by (rewrite lookup_insert_ne by solve_key_ne; eauto).
  rewrite map_size_insert_Some by eauto. done.
Qed.

(** The loop of [update_parameters], layer by layer. *)
Lemma update_parameters_Ok (parameters gradients : gmap string ndarray)
    (alpha : R) :
  (∀ i, 1 ≤ i ≤ size parameters `div` 2 → layer_has_gradients parameters gradients i) →
  ∃ parameters',
    update_parameters parameters gradients alpha = Ok parameters' ∧
    size parameters' = size parameters ∧
    ∀ i, 1 ≤ i ≤ size parameters `div` 2 →
         layer_descent alpha parameters gradients parameters' i.
Proof.
  intros Hready. unfold update_parameters, range.
  set (L := size parameters `div` 2) in *.
  replace (1 + L - 1) with L by lia.
  match goal with |- context [for_ _ ?f _] => set (body := f) end.
  destruct (layerwise_loop
    (λ (p : gmap string ndarray) i, (p !! key "W" i, p !! key "b" i, size p)) body L
    (λ i t, ∃ W b gW gb,
       t.1.1 = Some W ∧ t.1.2 = Some b ∧
       gradients !! key "dW" i = Some gW ∧ gradients !! key "db" i = Some gb ∧
       same_shape gW W ∧ same_shape gb b)
    (λ i t t', t'.2 = t.2 ∧
       ∃ W b gW gb W' b',
         t.1.1 = Some W ∧ t.1.2 = Some b ∧
         gradients !! key "dW" i = Some gW ∧ gradients !! key "db" i = Some gb ∧
         t'.1.1 = Some W' ∧ t'.1.2 = Some b' ∧
         descent_entrywise alpha W gW W' ∧ descent_entrywise alpha b gb b')
    parameters) as (p' & Hrun & Hpost & Hframe).
  - intros i p _ (W & b & gW & gb & HW & Hb & HgW & Hgb & SW & Sb). simpl in HW, Hb.
    destruct (descent_layer_Ok gradients alpha i p W b gW gb) as (W' & b' & Hstep & ? & ?);
      [done..|].
    eexists. split; [exact Hstep|]. simpl. split.
    + split; [by apply (size_insert_layer _ _ W b)|].
      exists W, b, gW, gb, W', b'. store_lookup. done.
    + intros j Hj. store_lookup. by rewrite (size_insert_layer _ _ W b).
  - intros i Hi. destruct (Hready i Hi) as (W & b & gW & gb & ?). by exists W, b, gW, gb.
  - exists p'. split; [done|]. split.
    + specialize (Hframe 0 ltac:(lia)). simpl in Hframe. congruence.
    + intros i Hi. destruct (Hpost i Hi) as [_ H]. exact H.
Qed.

(** X8. Plain gradient descent.  When every layer of the store has
    gradients of the shapes of its weight and bias, [update_parameters]
    returns a store of the same size in which, for every layer and every
    entry, [W' = W - alpha*dW] and [b' = b - alpha*db]. *)
Theorem gradient_descent_update_rule (parameters gradients : gmap string ndarray)
    (alpha : R) :
  (∀ i, 1 ≤ i ≤ size parameters `div` 2 → layer_has_gradients parameters gradients i) →
  ∃ parameters',
    update_parameters parameters gradients alpha = Ok parameters' ∧
    size parameters' = size parameters ∧
    ∀ i, 1 ≤ i ≤ size parameters `div` 2 →
         layer_descent alpha parameters gradients parameters' i.
Proof. exact (update_parameters_Ok parameters gradients alpha). Qed.

Lemma decay_Ok (beta : R) (a g : ndarray) :
  same_shape g a →
  ∃ a', decay beta a g = Ok a' ∧ same_shape a' a ∧
        ∀ i j, i < shape0 a → j < shape1 a →
               get a' i j = (beta * get a i j + (1 - beta) * get g i j)%R.
Proof.
  intros [H0 H1]. unfold decay.
  destruct (broadcast_same Rplus (scal beta a) (scal (1 - beta) g))
    as (a' & -> & Hs & He); [simpl; congruence.. |].
  exists a'. split; [done|]. split; [exact Hs|].
  intros i j Hi Hj. rewrite (He i j) by done.
  rewrite !get_scal by (simpl; congruence). done.
Qed.

(** One tensor of one layer under momentum: average, then step. *)
Lemma momentum_tensor (alpha beta : R) (theta g v : ndarray) :
  same_shape g theta → same_shape v theta →
  ∃ v' theta',
    decay beta v g = Ok v' ∧ isub theta (scal alpha v') = Ok theta' ∧
    momentum_entrywise alpha beta theta g v theta' v'.
Proof.
  intros [Hg0 Hg1] [Hv0 Hv1].
  destruct (decay_Ok beta v g) as (v' & Hv' & [Hs0 Hs1] & He); [split; congruence|].
  destruct (isub_same theta (scal alpha v')) as (theta' & Ht & Hts & Hte);
    [split; simpl; congruence|].
  exists v', theta'. split; [done|]. split; [done|].
  split; [done|]. split; [split; congruence|].
  intros i j Hi Hj. split; [apply He; congruence|].
  rewrite Hte, get_scal by (simpl; congruence). done.
Qed.

(** The loop of [update_parameters_momentum], layer by layer. *)
Lemma update_parameters_momentum_Ok (parameters gradients v : gmap string ndarray)
    (alpha beta : R) :
  (∀ i, 1 ≤ i ≤ size parameters `div` 2 → layer_ready parameters gradients v i) →
  ∃ parameters' v',
    update_parameters_momentum parameters gradients alpha v beta = Ok (parameters', v') ∧
    size parameters' = size parameters ∧
    ∀ i, 1 ≤ i ≤ size parameters `div` 2 →
         layer_momentum alpha beta parameters gradients v parameters' v' i.
Proof.
  intros Hready. unfold update_parameters_momentum, range.
  set (L := size parameters `div` 2) in *.
  replace (1 + L - 1) with L by lia.
  match goal with |- context [for_ _ ?f _] => set (body := f) end.
  destruct (layerwise_loop
    (λ (st : gmap string ndarray * gmap string ndarray) i,
       (st.1 !! key "W" i, st.1 !! key "b" i, st.2 !! key "dW" i, st.2 !! key "db" i,
        size st.1)) body L
    (λ i t, ∃ W b gW gb vW vb,
       t.1.1.1.1 = Some W ∧ t.1.1.1.2 = Some b ∧
       gradients !! key "dW" i = Some gW ∧ gradients !! key "db" i = Some gb ∧
       t.1.1.2 = Some vW ∧ t.1.2 = Some vb ∧
       same_shape gW W ∧ same_shape vW W ∧ same_shape gb b ∧ same_shape vb b)
    (λ i t t', t'.2 = t.2 ∧
       ∃ W b gW gb vW vb W' b' vW' vb',
         t.1.1.1.1 = Some W ∧ t.1.1.1.2 = Some b ∧
         gradients !! key "dW" i = Some gW ∧ gradients !! key "db" i = Some gb ∧
         t.1.1.2 = Some vW ∧ t.1.2 = Some vb ∧
         t'.1.1.1.1 = Some W' ∧ t'.1.1.1.2 = Some b' ∧
         t'.1.1.2 = Some vW' ∧ t'.1.2 = Some vb' ∧
         momentum_entrywise alpha beta W gW vW W' vW' ∧
         momentum_entrywise alpha beta b gb vb b' vb')
    (parameters, v)) as ([p' v'] & Hrun & Hpost & Hframe).
  - intros i [p v1] _ (W & b & gW & gb & vW & vb & HW & Hb & HgW & Hgb & HvW & Hvb &
                       SgW & SvW & Sgb & Svb).
    simpl in HW, Hb, HvW, Hvb.
    destruct (momentum_tensor alpha beta W gW vW SgW SvW) as (vW' & W' & EvW & EW & HWs).
    destruct (momentum_tensor alpha beta b gb vb Sgb Svb) as (vb' & b' & Evb & Eb & Hbs).
    exists (<[key "b" i := b']> (<[key "W" i := W']> p),
            <[key "db" i := vb']> (<[key "dW" i := vW']> v1)).
    split; [|split].
    + unfold body, getitem. rewrite HvW, HgW. cbn [mbind res_bind].
      rewrite EvW. cbn [mbind res_bind].
      rewrite lookup_insert_ne, Hvb, Hgb by solve_key_ne. cbn [mbind res_bind].
      rewrite Evb. cbn [mbind res_bind]. rewrite HW. cbn [mbind res_bind].
      store_lookup. cbn [mbind res_bind]. rewrite EW. cbn [mbind res_bind].
      rewrite lookup_insert_ne, Hb by solve_key_ne. cbn [mbind res_bind].
      store_lookup. cbn [mbind res_bind]. rewrite Eb. reflexivity.
    + simpl. split; [by apply (size_insert_layer _ _ W b)|].
      exists W, b, gW, gb, vW, vb, W', b', vW', vb'. store_lookup. done.
    + intros j Hj. simpl. store_lookup. by rewrite (size_insert_layer _ _ W b).
  - intros i Hi.
    destruct (Hready i Hi) as (W & b & gW & gb & vW & vb & ?).
    by exists W, b, gW, gb, vW, vb.
  - exists p', v'. split; [done|]. split.
    + specialize (Hframe 0 ltac:(lia)). simpl in Hframe. congruence.
    + intros i Hi. destruct (Hpost i Hi) as [_ H]. exact H.
Qed.

(** X9. Gradient descent with momentum.  When every layer has gradients
    and velocities of the shapes of its weight and bias,
    [update_parameters_momentum] returns, and for every layer and every
    entry the velocity becomes [v' = beta*v + (1-beta)*g] and the parameter
    [theta' = theta - alpha*v']; the store keeps its size. *)
Theorem momentum_update_rule (parameters gradients v : gmap string ndarray)
    (alpha beta : R) :
  (∀ i, 1 ≤ i ≤ size parameters `div` 2 → layer_ready parameters gradients v i) →
  ∃ parameters' v',
    update_parameters_momentum parameters gradients alpha v beta = Ok (parameters', v') ∧
    size parameters' = size parameters ∧
    ∀ i, 1 ≤ i ≤ size parameters `div` 2 →
         layer_momentum alpha beta parameters gradients v parameters' v' i.
Proof. exact (update_parameters_momentum_Ok parameters gradients v alpha beta). Qed.

(** One tensor of one layer under Adam: both averages, their corrections,
    and the step. *)
Lemma adam_tensor (alpha beta1 beta2 eps bt1 bt2 : R) (theta g v s : ndarray) :
  same_shape g theta → same_shape v theta → same_shape s theta →
  ∃ v' s' q theta',
    decay beta1 v g = Ok v' ∧
    broadcast Rplus (scal beta2 s) (scal (1 - beta2) (mmap (λ x, x ^ 2)%R g)) = Ok s' ∧
    broadcast Rdiv (mmap (λ x, x / (1 - bt1))%R v')
      (mmap (λ x, eps + sqrt x)%R (mmap (λ x, x / (1 - bt2))%R s')) = Ok q ∧
    isub theta (scal alpha q) = Ok theta' ∧
    adam_entrywise alpha beta1 beta2 eps bt1 bt2 theta g v s theta' v' s'.
Proof.
  intros [Hg0 Hg1] [Hv0 Hv1] [Hs0 Hs1].
  destruct (decay_Ok beta1 v g) as (v' & Hv' & [Hv'0 Hv'1] & Hve); [split; congruence|].
  destruct (second_moment_Ok beta2 s g) as (s' & Hs' & [Hs'0 Hs'1] & Hse);
    [split; congruence|].
  destruct (broadcast_same Rdiv (mmap (λ x, x / (1 - bt1))%R v')
              (mmap (λ x, eps + sqrt x)%R (mmap (λ x, x / (1 - bt2))%R s')))
    as (q & Hq & [Hq0 Hq1] & Hqe); [simpl; congruence..|].
  simpl in Hq0, Hq1, Hqe.
  destruct (isub_same theta (scal alpha q)) as (theta' & Ht & Hts & Hte);
    [split; simpl; congruence|].
  exists v', s', q, theta'. do 4 (split; [done|]).
  split; [done|]. split; [split; congruence|]. split; [split; congruence|].
  intros i j Hi Hj.
  split; [apply Hve; congruence|]. split; [apply Hse; congruence|].
  rewrite Hte, get_scal by (simpl; congruence).
  rewrite Hqe by congruence. rewrite !get_mmap by (simpl; congruence). done.
Qed.

(** The loop of [update_parameters_adam], layer by layer. *)
Lemma update_parameters_adam_Ok (parameters gradients v s : gmap string ndarray)
    (alpha beta1 beta2 eps : R) (t : Z) :
  (0 ≤ t)%Z ∨ (beta1 ≠ 0%R ∧ beta2 ≠ 0%R) →
  (∀ i, 1 ≤ i ≤ size parameters `div` 2 →
        layer_ready parameters gradients v i ∧ layer_ready parameters gradients s i) →
  ∃ parameters' v' s',
    update_parameters_adam parameters gradients alpha v s t beta1 beta2 eps
      = Ok (parameters', v', s') ∧
    size parameters' = size parameters ∧
    ∀ i, 1 ≤ i ≤ size parameters `div` 2 →
         layer_adam alpha beta1 beta2 eps (powerRZ beta1 t) (powerRZ beta2 t)
           parameters gradients v s parameters' v' s' i.
Proof.
  intros Ht Hready. unfold update_parameters_adam, range.
  set (L := size parameters `div` 2) in *.
  replace (1 + L - 1) with L by lia.
  assert ((0 ≤ t)%Z ∨ beta1 ≠ 0%R) as Ht1 by tauto.
  assert ((0 ≤ t)%Z ∨ beta2 ≠ 0%R) as Ht2 by tauto.
  match goal with |- context [for_ _ ?f _] => set (body := f) end.
  destruct (layerwise_loop
    (λ (st : gmap string ndarray * gmap string ndarray * gmap string ndarray
             * gmap string ndarray * gmap string ndarray) i,
       let '(p, v1, s1, _, _) := st in
       (p !! key "W" i, p !! key "b" i, v1 !! key "dW" i, v1 !! key "db" i,
        s1 !! key "dW" i, s1 !! key "db" i, size p)) body L
    (λ i t, ∃ W b gW gb vW vb sW sb,
       t.1.1.1.1.1.1 = Some W ∧ t.1.1.1.1.1.2 = Some b ∧
       gradients !! key "dW" i = Some gW ∧ gradients !! key "db" i = Some gb ∧
       t.1.1.1.1.2 = Some vW ∧ t.1.1.1.2 = Some vb ∧
       t.1.1.2 = Some sW ∧ t.1.2 = Some sb ∧
       same_shape gW W ∧ same_shape vW W ∧ same_shape sW W ∧
       same_shape gb b ∧ same_shape vb b ∧ same_shape sb b)
    (λ i t0 t', t'.2 = t0.2 ∧
       ∃ W b gW gb vW vb sW sb W' b' vW' vb' sW' sb',
         t0.1.1.1.1.1.1 = Some W ∧ t0.1.1.1.1.1.2 = Some b ∧
         gradients !! key "dW" i = Some gW ∧ gradients !! key "db" i = Some gb ∧
         t0.1.1.1.1.2 = Some vW ∧ t0.1.1.1.2 = Some vb ∧
         t0.1.1.2 = Some sW ∧ t0.1.2 = Some sb ∧
         t'.1.1.1.1.1.1 = Some W' ∧ t'.1.1.1.1.1.2 = Some b' ∧
         t'.1.1.1.1.2 = Some vW' ∧ t'.1.1.1.2 = Some vb' ∧
         t'.1.1.2 = Some sW' ∧ t'.1.2 = Some sb' ∧
         adam_entrywise alpha beta1 beta2 eps (powerRZ beta1 t) (powerRZ beta2 t)
           W gW vW sW W' vW' sW' ∧
         adam_entrywise alpha beta1 beta2 eps (powerRZ beta1 t) (powerRZ beta2 t)
           b gb vb sb b' vb' sb')
    (parameters, v, s, ∅, ∅)) as ([[[[p' v'] s'] vc'] sc'] & Hrun & Hpost & Hframe).
  - intros i [[[[p v1] s1] vc] sc] _
      (W & b & gW & gb & vW & vb & sW & sb & HW & Hb & HgW & Hgb & HvW & Hvb & HsW & Hsb &
       SgW & SvW & SsW & Sgb & Svb & Ssb).
    simpl in HW, Hb, HvW, Hvb, HsW, Hsb.
    destruct (adam_tensor alpha beta1 beta2 eps (powerRZ beta1 t) (powerRZ beta2 t)
                W gW vW sW SgW SvW SsW) as (vW' & sW' & qW & W' & EvW & EsW & EqW & EW & HWs).
    destruct (adam_tensor alpha beta1 beta2 eps (powerRZ beta1 t) (powerRZ beta2 t)
                b gb vb sb Sgb Svb Ssb) as (vb' & sb' & qb & b' & Evb & Esb & Eqb & Eb & Hbs).
    eexists (<[key "b" i := b']> (<[key "W" i := W']> p),
             <[key "db" i := vb']> (<[key "dW" i := vW']> v1),
             <[key "db" i := sb']> (<[key "dW" i := sW']> s1), _, _).
    split; [|split].
    + unfold body, getitem. rewrite HvW, HgW. cbn [mbind res_bind].
      rewrite EvW. cbn [mbind res_bind].
      rewrite lookup_insert_ne, Hvb, Hgb by solve_key_ne. cbn [mbind res_bind].
      rewrite Evb. cbn [mbind res_bind].
      rewrite HsW. cbn [mbind res_bind]. rewrite EsW. cbn [mbind res_bind].
      rewrite (lookup_insert_ne _ (key "dW" i) (key "db" i)), Hsb by solve_key_ne.
      cbn [mbind res_bind]. rewrite Esb. cbn [mbind res_bind].
      store_lookup. cbn [mbind res_bind].
      rewrite !py_pow_Ok by done. cbn [mbind res_bind].
      rewrite HW. cbn [mbind res_bind]. store_lookup. cbn [mbind res_bind].
      rewrite EqW. cbn [mbind res_bind]. rewrite EW. cbn [mbind res_bind].
      rewrite lookup_insert_ne, Hb by solve_key_ne. cbn [mbind res_bind].
      rewrite Eqb. cbn [mbind res_bind]. rewrite Eb. reflexivity.
    + simpl. split; [by apply (size_insert_layer _ _ W b)|].
      exists W, b, gW, gb, vW, vb, sW, sb, W', b', vW', vb', sW', sb'. store_lookup. done.
    + intros j Hj. simpl. store_lookup. by rewrite (size_insert_layer _ _ W b).
  - intros i Hi.
    destruct (Hready i Hi) as
      [(W & b & gW & gb & vW & vb & HW & Hb & HgW & Hgb & HvW & Hvb & ? & ? & ? & ?)
       (W2 & b2 & gW2 & gb2 & sW & sb & HW2 & Hb2 & HgW2 & Hgb2 & HsW & Hsb & ? & ? & ? & ?)].
    simplify_eq. by exists W, b, gW, gb, vW, vb, sW, sb.
  - exists p', v', s'. rewrite Hrun. split; [done|]. split.
    + specialize (Hframe 0 ltac:(lia)). simpl in Hframe. congruence.
    + intros i Hi. destruct (Hpost i Hi) as [_ H]. exact H.
Qed.

Lemma adam_entrywise_nonnegative (alpha beta1 beta2 eps bt1 bt2 : R)
    (theta g v s theta' v' s' : ndarray) :
  decay_rate beta2 → same_shape s theta → nonnegative s →
  adam_entrywise alpha beta1 beta2 eps bt1 bt2 theta g v s theta' v' s' → nonnegative s'.
Proof.
  intros Hb [S0 S1] Hs (_ & _ & [T0 T1] & He) i j Hi Hj.
  rewrite T0 in Hi. rewrite T1 in Hj. destruct (He i j Hi Hj) as (_ & -> & _).
  apply second_moment_nonnegative; [done|]. apply Hs; lia.
Qed.

(** X10. Adam, with a step counter [t >= 1], decay rates
    [0 <= beta1, beta2 < 1], [eps > 0] and a second-moment accumulator that
    is not negative.  When every layer has gradients and both accumulators
    of the shapes of its weight and bias, [update_parameters_adam] returns,
    and for every layer and every entry
    [v' = beta1*v + (1-beta1)*g], [s' = beta2*s + (1-beta2)*g^2] and
    [theta' = theta - alpha * (v'/(1-beta1^t)) / (eps + sqrt(s'/(1-beta2^t)))];
    the store keeps its size.  On this domain every operation of the step
    is defined: [0 < 1 - beta1^t <= 1], [0 < 1 - beta2^t <= 1], the new
    [s'] is not negative and the divisor [eps + sqrt(s'/(1-beta2^t))] is
    positive. *)
Theorem adam_update_rule (parameters gradients v s : gmap string ndarray)
    (alpha beta1 beta2 eps : R) (t : Z) :
  step_counter t → decay_rate beta1 → decay_rate beta2 → (0 < eps)%R →
  (∀ i, 1 ≤ i ≤ size parameters `div` 2 →
        layer_ready parameters gradients v i ∧ layer_ready parameters gradients s i ∧
        nonnegative_layer s i) →
  (0 < 1 - powerRZ beta1 t <= 1)%R ∧ (0 < 1 - powerRZ beta2 t <= 1)%R ∧
  ∃ parameters' v' s',
    update_parameters_adam parameters gradients alpha v s t beta1 beta2 eps
      = Ok (parameters', v', s') ∧
    size parameters' = size parameters ∧
    ∀ i, 1 ≤ i ≤ size parameters `div` 2 →
         layer_adam alpha beta1 beta2 eps (powerRZ beta1 t) (powerRZ beta2 t)
           parameters gradients v s parameters' v' s' i ∧
         layer_defined eps (powerRZ beta2 t) s' i.
Proof.
  intros Ht Hb1 Hb2 Heps Hready.
  pose proof (decay_power beta1 t Ht Hb1) as Hbt1.
  pose proof (decay_power beta2 t Ht Hb2) as Hbt2.
  split; [lra|]. split; [lra|].
  destruct (update_parameters_adam_Ok parameters gradients v s alpha beta1 beta2 eps t)
    as (p' & v' & s' & Hrun & Hsize & Hl).
  { left. destruct Ht. lia. }
  { intros i Hi. destruct (Hready i Hi) as (? & ? & _). done. }
  exists p', v', s'. split; [done|]. split; [done|].
  intros i Hi. split; [by apply Hl|].
  destruct (Hl i Hi) as (W & b & gW & gb & vW & vb & sW & sb & W' & b' & vW' & vb' & sW' & sb' &
    HW & Hb0 & HgW & Hgb & HvW & Hvb & HsW & Hsb & HW' & Hb' & HvW' & Hvb' & HsW' & Hsb' &
    EW & Eb).
  destruct (Hready i Hi) as
    (_ & (W2 & b2 & gW2 & gb2 & sW2 & sb2 & ? & ? & ? & ? & ? & ? & _ & SsW & _ & Ssb) & Hnn).
  simplify_eq.
  intros A HA.
  assert (nonnegative A) as HnA.
  { destruct HA as [HA | HA]; simplify_eq.
    - eapply adam_entrywise_nonnegative;
        [exact Hb2 | exact SsW | apply Hnn; by left | exact EW].
    - eapply adam_entrywise_nonnegative;
        [exact Hb2 | exact Ssb | apply Hnn; by right | exact Eb]. }
  split; [done|]. apply root_defined_of_nonnegative; [done | lra | done].
Qed.


Lemma scenario_layers (i : nat) : 1 ≤ i ≤ size scenario_parameters `div` 2 → i = 1.
Proof. rewrite scenario_size. simpl. lia. Qed.

Lemma scenario_layer_ready :
  layer_ready scenario_parameters scenario_gradients scenario_s 1.
Proof.
  exists scenario_W1, scenario_b1, (array [[-0.5; -0.5]]%R), (array [[-0.5]]%R),
    (zeros 1 2), (zeros 1 1).
  repeat split; vm_compute; reflexivity.
Qed.

Lemma gradient_descent_update_rule_witness :
  ∃ parameters',
    update_parameters scenario_parameters scenario_gradients 0.1 = Ok parameters' ∧
    size parameters' = size scenario_parameters ∧
    ∀ i, 1 ≤ i ≤ size scenario_parameters `div` 2 →
         layer_descent 0.1 scenario_parameters scenario_gradients parameters' i.
Proof.
  apply (gradient_descent_update_rule scenario_parameters scenario_gradients 0.1).
  intros i ->%scenario_layers.
  exists scenario_W1, scenario_b1, (array [[-0.5; -0.5]]%R), (array [[-0.5]]%R).
  repeat split; vm_compute; reflexivity.
Defined.

Lemma momentum_update_rule_witness :
  ∃ parameters' v',
    update_parameters_momentum scenario_parameters scenario_gradients 0.1 scenario_s 0.9
      = Ok (parameters', v') ∧
    size parameters' = size scenario_parameters ∧
    ∀ i, 1 ≤ i ≤ size scenario_parameters `div` 2 →
         layer_momentum 0.1 0.9 scenario_parameters scenario_gradients scenario_s
           parameters' v' i.
Proof.
  apply (momentum_update_rule scenario_parameters scenario_gradients scenario_s 0.1 0.9).
  intros i ->%scenario_layers. exact scenario_layer_ready.
Defined.

Lemma adam_update_rule_witness :
  (0 < 1 - powerRZ 0.9 2 <= 1)%R ∧ (0 < 1 - powerRZ 0.999 2 <= 1)%R ∧
  ∃ parameters' v' s',
    update_parameters_adam scenario_parameters scenario_gradients 0.1 scenario_s scenario_s
      2 0.9 0.999 1e-8 = Ok (parameters', v', s') ∧
    size parameters' = size scenario_parameters ∧
    ∀ i, 1 ≤ i ≤ size scenario_parameters `div` 2 →
         layer_adam 0.1 0.9 0.999 1e-8 (powerRZ 0.9 2) (powerRZ 0.999 2)
           scenario_parameters scenario_gradients scenario_s scenario_s parameters' v' s' i ∧
         layer_defined 1e-8 (powerRZ 0.999 2) s' i.
Proof.
  apply (adam_update_rule scenario_parameters scenario_gradients scenario_s scenario_s
           0.1 0.9 0.999 1e-8 2).
  - exact step_counter_2.
  - unfold decay_rate. lra.
  - unfold decay_rate. lra.
  - lra.
  - intros i ->%scenario_layers.
    split; [exact scenario_layer_ready|].
    split; [exact scenario_layer_ready | exact scenario_s_nonnegative].
Defined.

(** ** Accumulators *)

(** The two stores of Adam are built by the loop of the other two
    initializers, run twice in step. *)
Lemma adam_accumulators_loop (parameters : gmap string ndarray) (l : list nat)
    (v0 : gmap string ndarray) :
  for_ l
    (λ i vs,
       let '(v, s) := vs in
       W ← getitem parameters (key "W" i);
       let v := <[key "dW" i := zeros (shape0 W) (shape1 W)]> v in
       W ← getitem parameters (key "W" i);
       let s := <[key "dW" i := zeros (shape0 W) (shape1 W)]> s in
       b ← getitem parameters (key "b" i);
       let v := <[key "db" i := zeros (shape0 b) (shape1 b)]> v in
       b ← getitem parameters (key "b" i);
       let s := <[key "db" i := zeros (shape0 b) (shape1 b)]> s in
       Ok (v, s))
    (v0, v0)
  = (v ← for_ l
           (λ i v,
              W ← getitem parameters (key "W" i);
              let v := <[key "dW" i := zeros (shape0 W) (shape1 W)]> v in
              b ← getitem parameters (key "b" i);
              Ok (<[key "db" i := zeros (shape0 b) (shape1 b)]> v))
           v0;
     Ok (v, v)).
Proof.
  revert v0. induction l as [|i l IH]; intros v0; [done|].
  cbn [for_]. destruct (getitem parameters (key "W" i)) as [W|]; [|done].
  cbn [mbind res_bind]. destruct (getitem parameters (key "b" i)) as [b|]; [|done].
  cbn [mbind res_bind]. apply IH.
Qed.

(** The accumulators of a store that has all its layers. *)
Lemma initialize_accumulator_Ok (parameters : gmap string ndarray) :
  has_layers parameters →
  ∃ v, initialize_accumulator parameters = Ok v ∧
       size v = 2 * (size parameters `div` 2) ∧
       ∀ i, 1 ≤ i ≤ size parameters `div` 2 →
         ∃ W b, parameters !! key "W" i = Some W ∧ parameters !! key "b" i = Some b ∧
                v !! key "dW" i = Some (zeros (shape0 W) (shape1 W)) ∧
                v !! key "db" i = Some (zeros (shape0 b) (shape1 b)).
Proof.
  intros Hl. unfold initialize_accumulator, range.
  set (L := size parameters `div` 2) in *.
  replace (1 + L - 1) with L by lia.
  match goal with |- context [for_ _ ?f _] => set (body := f) end.
  destruct (for_total
    (λ done (v : gmap string ndarray),
       size v = 2 * length done ∧
       (∀ j, 1 ≤ j ≤ length done →
          ∃ W b, parameters !! key "W" j = Some W ∧ parameters !! key "b" j = Some b ∧
                 v !! key "dW" j = Some (zeros (shape0 W) (shape1 W)) ∧
                 v !! key "db" j = Some (zeros (shape0 b) (shape1 b))) ∧
       (∀ j, length done < j → v !! key "dW" j = None ∧ v !! key "db" j = None))
    (seq 1 L) body ∅) as (v & Hrun & Hsize & Hin & _).
  - split; [done|]. split; [simpl; intros; lia|]. intros j _. by rewrite !lookup_empty.
  - intros done i v (_ & -> & Hlt)%prefix_seq_snoc (Hsize & Hin & Hout).
    destruct (Hl (1 + length done)) as [[W HW] [b Hb]]; [lia|].
    unfold body, getitem. rewrite HW, Hb. cbn [mbind res_bind].
    eexists. split; [done|].
    destruct (Hout (1 + length done)) as [HnW Hnb]; [lia|].
    rewrite length_app. simpl. split; [|split].
    + rewrite !map_size_insert_None; [lia | done |].
      rewrite lookup_insert_ne by solve_key_ne. done.
    + intros j Hj. destruct (decide (j = 1 + length done)) as [->|Hne].
      * exists W, b. store_lookup. done.
      * destruct (Hin j) as (W' & b' & ? & ? & ? & ?); [lia|].
        exists W', b'. store_lookup. done.
    + intros j Hj. destruct (Hout j) as [? ?]; [lia|]. store_lookup. done.
  - exists v. rewrite length_seq in Hsize, Hin. done.
Qed.

(** X11. The accumulators.  [initialize_adam_params] returns twice what
    [initialize_momentum_params] and [initialize_rmsprop_params] return (or
    fails as they do).  On a store whose layers all have a weight and a
    bias they return a store of the same number of entries that holds, for
    every layer, a zero array of the shape of the weight under ['dW'] and
    one of the shape of the bias under ['db']; a failure is the [KeyError]
    of a missing weight or bias. *)
Theorem accumulators_start_at_zero (parameters : gmap string ndarray) :
  initialize_rmsprop_params parameters = initialize_momentum_params parameters ∧
  initialize_adam_params parameters
    = (v ← initialize_momentum_params parameters; Ok (v, v)) ∧
  (∀ e, initialize_momentum_params parameters = Raise e →
        ∃ i, 1 ≤ i ≤ size parameters `div` 2 ∧
             (e = KeyError (key "W" i) ∨ e = KeyError (key "b" i))) ∧
  (has_layers parameters →
   ∃ v, initialize_momentum_params parameters = Ok v ∧
        size v = 2 * (size parameters `div` 2) ∧
        ∀ i, 1 ≤ i ≤ size parameters `div` 2 →
          ∃ W b, parameters !! key "W" i = Some W ∧ parameters !! key "b" i = Some b ∧
                 v !! key "dW" i = Some (zeros (shape0 W) (shape1 W)) ∧
                 v !! key "db" i = Some (zeros (shape0 b) (shape1 b))).
Proof.
  split; [done|]. split; [apply adam_accumulators_loop|]. split.
  - intros e He. unfold initialize_momentum_params, initialize_accumulator in He.
    destruct (for_Raise _ _ _ _ He) as (i & v & Hi & Hb).
    apply elem_of_seq in Hi. exists i. split; [lia|].
    unfold getitem in Hb.
    destruct (parameters !! key "W" i); [|injection Hb as <-; by left].
    cbn [mbind res_bind] in Hb.
    destruct (parameters !! key "b" i); [done|]. injection Hb as <-; by right.
  - apply initialize_accumulator_Ok.
Qed.

Lemma accumulators_start_at_zero_witness :
  initialize_rmsprop_params scenario_parameters = initialize_momentum_params scenario_parameters ∧
  initialize_adam_params scenario_parameters
    = (v ← initialize_momentum_params scenario_parameters; Ok (v, v)) ∧
  ∃ v, initialize_momentum_params scenario_parameters = Ok v ∧
       v !! "dW1" = Some (zeros 1 2) ∧ v !! "db1" = Some (zeros 1 1).
Proof.
  destruct (accumulators_start_at_zero scenario_parameters) as (H1 & H2 & _ & H4).
  split; [exact H1|]. split; [exact H2|].
  destruct H4 as (v & Hv & _ & Hz).
  - intros i Hi. rewrite scenario_size in Hi. assert (i = 1) as -> by (simpl in Hi; lia).
    split; eexists; vm_compute; reflexivity.
  - exists v. split; [exact Hv|].
    destruct (Hz 1) as (W & b & HW & Hb & HdW & Hdb).
    { rewrite scenario_size. simpl. lia. }
    vm_compute in HW, Hb. injection HW as <-. injection Hb as <-. done.
Defined.


(** ** The initial values *)

Lemma initialize_parameters_values (g : nat → nat → R) (n_in n_out : Z) :
  layer_accepted n_in n_out →
  ∃ W, initialize_parameters g n_in n_out = Ok (W, zeros (Z.to_nat n_out) 1) ∧
       has_shape W (Z.to_nat n_out) (Z.to_nat n_in) ∧
       ∀ r c, r < Z.to_nat n_out → c < Z.to_nat n_in →
              get W r c = (g r c * sqrt (1 / IZR n_in))%R.
Proof.
  intros [Hin Hout]. unfold initialize_parameters, randn.
  rewrite decide_False by lia. cbn [mbind res_bind].
  rewrite decide_False by lia. cbn [mbind res_bind].
  eexists. split; [done|]. split; [done|].
  intros r c Hr Hc. rewrite get_mmap, get_tabulate by done. done.
Qed.

(** X12. The initial parameters.  For widths that the Initializer
    accepts, every layer [i] of the store it returns has as weights the
    Gaussian samples drawn for that layer scaled by [sqrt(1/n_{i-1})], and
    zero biases. *)
Theorem create_layers_values (gauss : nat → nat → nat → R) (layers_list : list Z) :
  (∀ idx, 1 ≤ idx < length layers_list →
          layer_accepted (nth (idx - 1) layers_list 0%Z) (nth idx layers_list 0%Z)) →
  ∃ parameters,
    create_layers gauss layers_list = Ok parameters ∧
    ∀ i, 1 ≤ i < length layers_list →
         initial_layer (gauss i) (nth (i - 1) layers_list 0%Z) (nth i layers_list 0%Z)
           parameters i.
Proof.
  intros Hacc. unfold create_layers, range.
  set (n := length layers_list - 1).
  destruct (for_total
    (λ done (p : gmap string ndarray),
       ∀ j, 1 ≤ j ≤ length done →
            initial_layer (gauss j) (nth (j - 1) layers_list 0%Z) (nth j layers_list 0%Z) p j)
    (seq 1 n) (create_layer gauss layers_list) ∅) as (p & Hrun & Hin).
  - simpl. intros; lia.
  - intros done i p (_ & -> & Hlt)%prefix_seq_snoc Hin.
    destruct (initialize_parameters_values (gauss (1 + length done))
                (nth (1 + length done - 1) layers_list 0%Z)
                (nth (1 + length done) layers_list 0%Z))
      as (W & HWb & HWs & HWv); [apply Hacc; unfold n in Hlt; lia|].
    unfold create_layer. rewrite HWb. cbn [mbind res_bind].
    eexists. split; [done|].
    intros j Hj. rewrite length_app in Hj. simpl in Hj.
    destruct (decide (j = 1 + length done)) as [->|Hne].
    + exists W. store_lookup. done.
    + destruct (Hin j) as (W' & ? & ? & ? & ?); [lia|].
      exists W'. store_lookup. done.
  - exists p. split; [done|]. intros i Hi. apply Hin. rewrite length_seq. unfold n. lia.
Qed.

Lemma create_layers_values_witness :
  ∃ parameters,
    create_layers (λ _ _ _, 1%R) [4; 2; 1]%Z = Ok parameters ∧
    ∀ i, 1 ≤ i < length [4; 2; 1]%Z →
         initial_layer (λ _ _, 1%R) (nth (i - 1) [4; 2; 1]%Z 0%Z) (nth i [4; 2; 1]%Z 0%Z)
           parameters i.
Proof.
  apply (create_layers_values (λ _ _ _, 1%R) [4; 2; 1]%Z).
  intros idx Hidx. simpl in Hidx.
  assert (idx = 1 ∨ idx = 2) as [-> | ->] by lia; unfold layer_accepted; simpl; lia.
Defined.


(** ** Forward propagation, layer by layer *)

Lemma sum_upto_ext (n : nat) (f g : nat → R) :
  (∀ i, i < n → f i = g i) → sum_upto n f = sum_upto n g.
Proof.
  intros H. unfold sum_upto. f_equal. apply map_ext_in. intros i Hi%in_seq. apply H. lia.
Qed.

(** A well-formed array is the table of its entries. *)
Lemma tabulate_get (A : ndarray) :
  well_formed A → A = tabulate (shape0 A) (shape1 A) (get A).
Proof.
  destruct A as [n m rs]. intros [Hr Hc]. simpl in *. unfold tabulate. f_equal.
  apply (nth_ext _ _ [] []).
  { by rewrite length_map, length_seq. }
  intros i Hi. rewrite nth_tabulate_row by lia.
  assert (length (nth i rs []) = m) as Hlen.
  { rewrite Forall_forall in Hc. apply Hc, list_elem_of_In, nth_In. lia. }
  apply (nth_ext _ _ 0%R 0%R).
  { by rewrite length_map, length_seq. }
  intros j Hj. unfold get. simpl.
  rewrite (nth_indep (map _ _) 0%R (nth 0 (nth i rs []) 0%R))
    by (rewrite length_map, length_seq; lia).
  rewrite (map_nth (λ j, nth j (nth i rs []) 0%R)), seq_nth by lia. done.
Qed.

Lemma pre_activation_affine (parameters activations : gmap string ndarray)
    (W b A : ndarray) (i : nat) :
  parameters !! key "W" i = Some W → parameters !! key "b" i = Some b →
  activations !! key "A" (i - 1) = Some A →
  shape1 W = shape0 A → has_shape b (shape0 W) 1 →
  ∃ Z, pre_activation parameters activations i = Ok Z ∧ affine W b A Z.
Proof.
  intros HW Hb HA Hdim [Hb0 Hb1].
  unfold pre_activation, getitem. rewrite HW, HA. cbn [mbind res_bind].
  rewrite dot_Ok by done. cbn [mbind res_bind]. rewrite Hb. cbn [mbind res_bind].
  edestruct (broadcast_column Rplus) as (Z & -> & HZ & He); [| exact Hb1 |].
  { simpl. congruence. }
  exists Z. split; [done|]. simpl in HZ, He. split; [done|].
  intros r c Hr Hc. rewrite He, get_tabulate by done. done.
Qed.

Lemma forward_loop_layers (topology : list nat) (X : ndarray)
    (parameters : gmap string ndarray) :
  consistent topology parameters → shape0 X = nth 0 topology 0 →
  ∃ activations,
    for_ (seq 1 (length topology - 1))
      (λ idx activations,
         Z ← pre_activation parameters activations idx;
         Ok (<[key "A" idx := sigmoid Z]> activations))
      (<["A0" := X]> ∅) = Ok activations ∧
    activations !! "A0" = Some X ∧
    size activations = 1 + (length topology - 1) ∧
    (∀ j, j ≤ length topology - 1 →
          ∃ A, activations !! key "A" j = Some A ∧ has_shape A (nth j topology 0) (shape1 X)) ∧
    (∀ j, 1 ≤ j ≤ length topology - 1 → layer_of_cache parameters activations j).
Proof.
  intros Hc HX.
  edestruct (for_total
    (λ done (acts : gmap string ndarray),
       acts !! "A0" = Some X ∧ size acts = 1 + length done ∧
       (∀ j, j ≤ length done →
             ∃ A, acts !! key "A" j = Some A ∧ has_shape A (nth j topology 0) (shape1 X)) ∧
       (∀ j, 1 ≤ j ≤ length done → layer_of_cache parameters acts j) ∧
       (∀ j, length done < j → acts !! key "A" j = None)))
    as (acts & Hrun & H0 & Hsize & Hshape & Hlay & _); [| | exists acts; split; [exact Hrun|] ].
  - split; [by rewrite lookup_insert_eq|]. split; [done|]. split; [|split].
    + intros j Hj. simpl in Hj. assert (j = 0) as -> by lia.
      exists X. rewrite key_A0, lookup_insert_eq. done.
    + simpl. intros; lia.
    + intros j Hj. rewrite <- key_A0, lookup_insert_ne by (intros ?%key_inj; simpl in Hj; lia).
      done.
  - intros done i acts (_ & -> & Hlt)%prefix_seq_snoc (H0 & Hsize & Hshape & Hlay & Hnone).
    set (n := length done) in *.
    destruct (Hshape n) as (A & HA & [HA0 HA1]); [done|].
    destruct Hc as [_ Hc].
    destruct (Hc (1 + n)) as (W & b & HW & Hb & [HW0 HW1] & [Hb0 Hb1]); [lia|].
    replace (1 + n - 1) with n in HW1 by lia.
    destruct (pre_activation_affine parameters acts W b A (1 + n)) as (Z & HZ & HZa);
      [done | done | by replace (1 + n - 1) with n by lia | congruence | split; congruence |].
    rewrite HZ. cbn [mbind res_bind]. eexists; split; [done|].
    assert (∀ j, j ≤ n → key "A" (1 + n) ≠ key "A" j) as Hne.
    { intros j Hj ?%key_inj. lia. }
    rewrite length_app. simpl. fold n. split; [|split; [|split; [|split]]].
    + rewrite <- key_A0, lookup_insert_ne by (apply Hne; lia). by rewrite key_A0.
    + rewrite map_size_insert_None by (apply Hnone; lia). lia.
    + intros j Hj. destruct (decide (j = 1 + n)) as [->|Hj'].
      * exists (sigmoid Z). rewrite lookup_insert_eq. split; [done|].
        destruct HZa as [[HZ0 HZ1] _].
        split; [exact (eq_trans HZ0 HW0) | exact (eq_trans HZ1 HA1)].
      * rewrite lookup_insert_ne by (apply Hne; lia). apply Hshape. lia.
    + intros j Hj. destruct (decide (j = 1 + n)) as [->|Hj'].
      * exists W, b, A, Z. rewrite lookup_insert_eq.
        rewrite lookup_insert_ne by (replace (1 + n - 1) with n by lia; apply Hne; lia).
        replace (1 + n - 1) with n by lia. done.
      * destruct (Hlay j) as (W' & b' & A' & Z' & ? & ? & ? & ? & ?); [lia|].
        exists W', b', A', Z'.
        rewrite !lookup_insert_ne by (apply Hne; lia). done.
    + intros j Hj. rewrite lookup_insert_ne by (intros ?%key_inj; lia). apply Hnone. lia.
  - rewrite length_seq in Hsize, Hshape, Hlay. done.
Qed.

(** [forward_propagation] returns the cache of its loop and the last
    activation. *)
Lemma forward_propagation_layers_Ok (topology : list nat) (X : ndarray)
    (parameters : gmap string ndarray) :
  consistent topology parameters → 1 ≤ length topology → shape0 X = nth 0 topology 0 →
  ∃ activations prediction,
    forward_propagation X parameters = Ok (activations, prediction) ∧
    activations !! "A0" = Some X ∧
    size activations = length topology ∧
    activations !! key "A" (length topology - 1) = Some prediction ∧
    has_shape prediction (nth (length topology - 1) topology 0) (shape1 X) ∧
    (∀ j, j < length topology →
          ∃ A, activations !! key "A" j = Some A ∧ has_shape A (nth j topology 0) (shape1 X)) ∧
    (∀ i, 1 ≤ i < length topology → layer_of_cache parameters activations i).
Proof.
  intros Hc Hlen HX.
  destruct (forward_loop_layers topology X parameters Hc HX)
    as (acts & Hrun & H0 & Hsize & Hshape & Hlay).
  unfold forward_propagation, range.
  rewrite (consistent_layers topology) by done.
  replace (1 + (length topology - 1) - 1) with (length topology - 1) by lia.
  rewrite Hrun. cbn [mbind res_bind].
  destruct (Hshape (length topology - 1)) as (A & HA & HAs); [done|].
  rewrite (proj2 (getitem_Some _ _ _) HA). cbn [mbind res_bind].
  exists acts, A. split; [done|]. split; [done|]. split; [lia|]. split; [done|].
  split; [done|]. split.
  - intros j Hj. apply Hshape. lia.
  - intros i Hi. apply Hlay. lia.
Qed.

(** X13. Forward propagation, layer by layer.  For a store consistent
    with a topology and a batch of [n_0] rows, the cache holds the input
    as [A0] and exactly one activation per layer, each the sigmoid of
    [W_i . A_{i-1} + b_i]; the prediction is the last of them. *)
Theorem forward_propagation_layers (topology : list nat) (X : ndarray)
    (parameters : gmap string ndarray) :
  consistent topology parameters → 1 ≤ length topology → shape0 X = nth 0 topology 0 →
  ∃ activations prediction,
    forward_propagation X parameters = Ok (activations, prediction) ∧
    activations !! "A0" = Some X ∧
    size activations = length topology ∧
    activations !! key "A" (length topology - 1) = Some prediction ∧
    has_shape prediction (nth (length topology - 1) topology 0) (shape1 X) ∧
    ∀ i, 1 ≤ i < length topology → layer_of_cache parameters activations i.
Proof.
  intros Hc Hlen HX.
  destruct (forward_propagation_layers_Ok topology X parameters Hc Hlen HX)
    as (acts & pred & ? & ? & ? & ? & ? & _ & ?).
  by exists acts, pred.
Qed.

Lemma forward_propagation_layers_witness :
  ∃ activations prediction,
    forward_propagation scenario_X scenario_parameters = Ok (activations, prediction) ∧
    activations !! "A0" = Some scenario_X ∧
    size activations = length [2; 1] ∧
    activations !! key "A" (length [2; 1] - 1) = Some prediction ∧
    has_shape prediction (nth (length [2; 1] - 1) [2; 1] 0) (shape1 scenario_X) ∧
    ∀ i, 1 ≤ i < length [2; 1] → layer_of_cache scenario_parameters activations i.
Proof.
  apply (forward_propagation_layers [2; 1] scenario_X scenario_parameters).
  - split; [vm_compute; reflexivity|].
    intros i Hi. simpl in Hi. assert (i = 1) as -> by lia.
    exists scenario_W1, scenario_b1. repeat split; vm_compute; reflexivity.
  - simpl. lia.
  - reflexivity.
Defined.

Lemma take_cols_inv (A A' : ndarray) (idx : list nat) :
  take_cols A idx = Ok A' →
  Forall (λ p, p < shape1 A) idx ∧
  A' = tabulate (shape0 A) (length idx) (λ i j, get A i (nth j idx 0)).
Proof.
  unfold take_cols. destruct (forallb _ idx) eqn:Hall; [|done]. intros [= <-].
  split; [|done]. apply Forall_forall. intros p Hp%list_elem_of_In.
  rewrite forallb_forall in Hall. apply Nat.ltb_lt. by apply Hall.
Qed.

(** The caches of a batch and of a selection of its columns agree column
    by column, at every layer. *)
Lemma cache_by_column (topology : list nat) (X X' : ndarray) (idx : list nat)
    (parameters acts acts' : gmap string ndarray) :
  Forall (λ p, p < shape1 X) idx →
  X' = tabulate (shape0 X) (length idx) (λ i j, get X i (nth j idx 0)) →
  consistent topology parameters →
  acts !! "A0" = Some X → acts' !! "A0" = Some X' →
  (∀ j, j < length topology →
        ∃ A, acts !! key "A" j = Some A ∧ has_shape A (nth j topology 0) (shape1 X)) →
  (∀ j, j < length topology →
        ∃ A, acts' !! key "A" j = Some A ∧ has_shape A (nth j topology 0) (shape1 X')) →
  (∀ i, 1 ≤ i < length topology → layer_of_cache parameters acts i) →
  (∀ i, 1 ≤ i < length topology → layer_of_cache parameters acts' i) →
  ∀ i A A', i < length topology →
    acts !! key "A" i = Some A → acts' !! key "A" i = Some A' →
    ∀ r c, r < nth i topology 0 → c < length idx → get A' r c = get A r (nth c idx 0).
Proof.
  intros Hidx -> Hc H0 H0' Hsh Hsh' Hlay Hlay'.
  assert (∀ c, c < length idx → nth c idx 0 < shape1 X) as Hcol.
  { intros c Hlt. rewrite Forall_forall in Hidx. apply Hidx, list_elem_of_In, nth_In. done. }
  induction i as [|i IH]; intros A A' Hi HA HA' r c Hr Hlt.
  - rewrite key_A0 in HA, HA'. simplify_eq.
    destruct (Hsh 0 Hi) as (X0 & HX0 & [HX00 _]). rewrite key_A0 in HX0. simplify_eq.
    rewrite get_tabulate by (done || lia). done.
  - destruct (Hlay (S i)) as (W & b & Ap & Z & HW & Hb & HAp & [[HZ0 HZ1] HZ] & HAi); [lia|].
    destruct (Hlay' (S i)) as (W' & b' & Ap' & Z' & HW' & Hb' & HAp' & [[HZ0' HZ1'] HZ'] & HAi');
      [lia|].
    replace (S i - 1) with i in HAp, HAp' by lia. simplify_eq.
    destruct Hc as [_ Hc].
    destruct (Hc (S i)) as (W2 & b2 & HW2 & Hb2 & [HW20 HW21] & _); [lia|].
    replace (S i - 1) with i in HW21 by lia. simplify_eq.
    destruct (Hsh i) as (A1 & HA1 & [_ HA11]); [lia|].
    destruct (Hsh' i) as (A1' & HA1' & [_ HA11']); [lia|]. simplify_eq.
    simpl in HA11'. specialize (Hcol c Hlt).
    rewrite !get_sigmoid by lia.
    rewrite HZ, HZ' by lia.
    f_equal. f_equal. apply sum_upto_ext. intros k Hk. f_equal.
    apply IH; [lia | done | done | lia | done].
Qed.

(** X14. The network treats the columns of a batch independently: the
    prediction for a selection [X[:, idx]] of the columns of [X] (a
    mini-batch, a shuffle, a repetition) is the same selection of the
    columns of the prediction for [X]. *)
Theorem forward_propagation_by_column (topology : list nat) (X X' : ndarray)
    (idx : list nat) (parameters : gmap string ndarray) :
  consistent topology parameters → 1 ≤ length topology → shape0 X = nth 0 topology 0 →
  take_cols X idx = Ok X' →
  ∃ activations prediction activations' prediction',
    forward_propagation X parameters = Ok (activations, prediction) ∧
    forward_propagation X' parameters = Ok (activations', prediction') ∧
    take_cols prediction idx = Ok prediction'.
Proof.
  intros Hc Hlen HX [Hidx HX']%take_cols_inv.
  destruct (forward_propagation_layers_Ok topology X parameters Hc Hlen HX)
    as (acts & pred & Hf & H0 & _ & Hp & [Hp0 Hp1] & Hsh & Hlay).
  destruct (forward_propagation_layers_Ok topology X' parameters Hc Hlen)
    as (acts' & pred' & Hf' & H0' & _ & Hp' & [Hp0' Hp1'] & Hsh' & Hlay').
  { by rewrite HX'. }
  exists acts, pred, acts', pred'. split; [done|]. split; [done|].
  rewrite take_cols_Ok by (by rewrite Hp1). f_equal.
  assert (shape1 X' = length idx) as Hw by (by rewrite HX').
  assert (∀ r c, r < nth (length topology - 1) topology 0 → c < length idx →
                 get pred' r c = get pred r (nth c idx 0)) as Hcols.
  { apply (cache_by_column topology X X' idx parameters acts acts'); try done. lia. }
  assert (well_formed pred') as Hwf.
  { destruct (decide (length topology = 1)) as [Hone|Hmore].
    - rewrite Hone in Hp'. simpl in Hp'. rewrite key_A0 in Hp'. simplify_eq.
      apply well_formed_tabulate.
    - destruct (Hlay' (length topology - 1)) as (? & ? & ? & Z & _ & _ & _ & _ & HA); [lia|].
      simplify_eq. apply well_formed_tabulate. }
  rewrite (tabulate_get pred' Hwf), Hp0', Hp1', Hw, Hp0.
  apply tabulate_ext. intros i j Hi Hj. symmetry. by apply Hcols.
Qed.

Lemma forward_propagation_by_column_witness :
  ∃ activations prediction activations' prediction',
    forward_propagation pair_X pair_parameters = Ok (activations, prediction) ∧
    forward_propagation (array [[1; 1; 1]]%R) pair_parameters
      = Ok (activations', prediction') ∧
    take_cols prediction [1; 0; 1] = Ok prediction'.
Proof.
  apply (forward_propagation_by_column [1; 1] pair_X (array [[1; 1; 1]]%R) [1; 0; 1]
           pair_parameters).
  - split; [vm_compute; reflexivity|].
    intros i Hi. simpl in Hi. assert (i = 1) as -> by lia.
    eexists _, _. repeat split; vm_compute; reflexivity.
  - simpl. lia.
  - reflexivity.
  - unfold take_cols, pair_X, tabulate, array, get. simpl. reflexivity.
Defined.

(** X15. The decision rule of [predict] in terms of the last layer's
    pre-activation [Z = W_L . A_{L-1} + b_L], the value the layer
    computes: every label is 0 or 1, an example whose pre-activation is
    zero or negative is labeled 0, and so a label 1 is only given to a
    positive pre-activation.  (Over the reals every positive
    pre-activation is labeled 1; on binary64 a tiny one, such as [1e-17],
    gives the activation 0.5 exactly and the label 0, so that direction is
    not claimed.) *)
Theorem predict_decision_boundary (topology : list nat) (X : ndarray)
    (parameters : gmap string ndarray) :
  consistent topology parameters → 2 ≤ length topology → shape0 X = nth 0 topology 0 →
  ∃ activations prediction predictions W b A_prev Z,
    forward_propagation X parameters = Ok (activations, prediction) ∧
    predict parameters X = Ok predictions ∧
    parameters !! key "W" (length topology - 1) = Some W ∧
    parameters !! key "b" (length topology - 1) = Some b ∧
    activations !! key "A" (length topology - 2) = Some A_prev ∧
    affine W b A_prev Z ∧ same_shape predictions Z ∧
    ∀ r c, r < shape0 Z → c < shape1 Z →
      (get predictions r c = 1%R ∨ get predictions r c = 0%R) ∧
      (get predictions r c = 1%R → (0 < get Z r c)%R) ∧
      ((get Z r c <= 0)%R → get predictions r c = 0%R).
Proof.
  intros Hc Hlen HX.
  destruct (forward_propagation_layers_Ok topology X parameters Hc) as
    (acts & pred & Hf & _ & _ & Hp & _ & _ & Hlay); [lia | done |].
  destruct (Hlay (length topology - 1)) as (W & b & Ap & Z & HW & Hb & HAp & HZ & HA); [lia|].
  replace (length topology - 1 - 1) with (length topology - 2) in HAp by lia.
  rewrite Hp in HA. injection HA as ->.
  exists acts, (sigmoid Z), (mmap threshold (sigmoid Z)), W, b, Ap, Z.
  split; [done|]. split; [unfold predict; by rewrite Hf|].
  do 4 (split; [done|]). split; [done|].
  intros r c Hr Hcol. rewrite get_mmap, get_sigmoid by done.
  destruct (threshold_spec (logistic (get Z r c))) as [H1 H0].
  pose proof (logistic_half (get Z r c)) as Hhalf.
  split; [unfold threshold; destruct (Rlt_dec _ _); auto|]. split.
  - intros H. by apply Hhalf, H1.
  - intros H. apply H0. apply Rnot_lt_le. intros Hgt%Hhalf. lra.
Qed.

Lemma predict_decision_boundary_witness :
  ∃ activations prediction predictions W b A_prev Z,
    forward_propagation scenario_X scenario_parameters = Ok (activations, prediction) ∧
    predict scenario_parameters scenario_X = Ok predictions ∧
    scenario_parameters !! key "W" 1 = Some W ∧
    scenario_parameters !! key "b" 1 = Some b ∧
    activations !! key "A" 0 = Some A_prev ∧
    affine W b A_prev Z ∧ same_shape predictions Z ∧
    ∀ r c, r < shape0 Z → c < shape1 Z →
      (get predictions r c = 1%R ∨ get predictions r c = 0%R) ∧
      (get predictions r c = 1%R → (0 < get Z r c)%R) ∧
      ((get Z r c <= 0)%R → get predictions r c = 0%R).
Proof.
  apply (predict_decision_boundary [2; 1] scenario_X scenario_parameters).
  - split; [vm_compute; reflexivity|].
    intros i Hi. simpl in Hi. assert (i = 1) as -> by lia.
    exists scenario_W1, scenario_b1. repeat split; vm_compute; reflexivity.
  - simpl. lia.
  - reflexivity.
Defined.

(** X16. Edge and error behaviour of [forward_propagation].  A store
    with fewer than two entries counts as a network without layers: the
    prediction is the input itself.  A batch whose height is not the input
    width of the first layer is rejected with [ValueError], by [predict]
    too.  A store of two or more entries without ['W1'] gives
    [KeyError]. *)
Theorem forward_propagation_edges (topology : list nat) (X : ndarray)
    (parameters : gmap string ndarray) :
  (size parameters < 2 →
   forward_propagation X parameters = Ok (<["A0" := X]> ∅, X)) ∧
  (consistent topology parameters → 2 ≤ length topology → shape0 X ≠ nth 0 topology 0 →
   forward_propagation X parameters = Raise ValueError ∧
   predict parameters X = Raise ValueError) ∧
  (2 ≤ size parameters → parameters !! "W1" = None →
   forward_propagation X parameters = Raise (KeyError "W1")).
Proof.
  split; [|split].
  - intros Hsize. unfold forward_propagation, range.
    rewrite (Nat.div_small (size parameters) 2) by done. simpl.
    rewrite key_A0. unfold getitem. by rewrite lookup_insert_eq.
  - intros Hc Hlen HX.
    assert (forward_propagation X parameters = Raise ValueError) as Hf.
    { unfold forward_propagation, range. rewrite (consistent_layers topology) by done.
      destruct Hc as [_ Hc].
      destruct (Hc 1) as (W & b & HW & Hb & [_ HW1] & _); [lia|]. simpl in HW1.
      destruct (length topology - 1) as [|n] eqn:Hn; [lia|].
      replace (1 + S n - 1) with (S n) by lia. cbn [seq for_].
      unfold pre_activation at 1, getitem. rewrite HW. cbn [mbind res_bind].
      simpl. rewrite key_A0, lookup_insert_eq. cbn [mbind res_bind].
      unfold dot. rewrite decide_False by congruence. done. }
    split; [done|]. unfold predict. by rewrite Hf.
  - intros Hsize HW. unfold forward_propagation, range.
    destruct (size parameters `div` 2) as [|n] eqn:Hn.
    { assert (2 * 1 ≤ size parameters) as Hle by lia.
      apply (Nat.div_le_lower_bound _ 2 1) in Hle; lia. }
    replace (1 + S n - 1) with (S n) by lia. cbn [seq for_].
    unfold pre_activation at 1, getitem.
    change (key "W" 1) with "W1". by rewrite HW.
Qed.


(** ** Accuracy *)

Lemma Rsum_indicator {A : Type} (f : A → bool) (l : list A) :
  Rsum (map (λ c : bool, if c then 1 else 0)%R (map f l)) = INR (length (List.filter f l)).
Proof.
  induction l as [|x l IH]; [done|]. cbn [map Rsum foldr List.filter].
  fold (Rsum (map (λ c : bool, if c then 1 else 0)%R (map f l))). rewrite IH.
  destruct (f x); [|lra]. cbn [length]. rewrite S_INR. lra.
Qed.

Lemma filter_length_le {A : Type} (f : A → bool) (l : list A) :
  length (List.filter f l) ≤ length l.
Proof. induction l as [|x l IH]; [done|]. simpl. destruct (f x); simpl; lia. Qed.

(** The loop of [accuracy] thresholds row 0 of the activation, column by
    column. *)
Lemma accuracy_loop (act : ndarray) (m : nat) :
  0 < shape0 act → shape1 act = m →
  for_ (seq 0 m)
    (λ i p,
       a ← item act 0 i;
       if Rlt_dec 0.5 a then setitem p 0 i 1%R else setitem p 0 i 0%R)
    (zeros 1 m)
  = Ok (tabulate 1 m (λ _ j, threshold (get act 0 j))).
Proof.
  intros Hrow Hm.
  edestruct (for_total
    (λ done (p : ndarray),
       p = tabulate 1 m (λ _ j, if decide (j < length done) then threshold (get act 0 j)
                                else 0%R)))
    as (p & Hrun & Hp); [| | rewrite Hrun].
  - apply tabulate_ext. intros i j _ _. case_decide; [simpl in *; lia | done].
  - intros done i p (_ & -> & Hlt)%prefix_seq_snoc ->. simpl in *.
    unfold item. rewrite decide_True by lia. cbn [mbind res_bind].
    assert (∀ x, setitem (tabulate 1 m (λ _ j, if decide (j < length done)
                                               then threshold (get act 0 j) else 0%R))
                   0 (length done) x
                 = Ok (tabulate 1 m (λ _ j, if decide (j < length done)
                                            then threshold (get act 0 j)
                                            else if decide (j = length done) then x else 0%R)))
      as Hset.
    { intros x. unfold setitem. simpl. rewrite decide_True by lia. f_equal.
      apply tabulate_ext. intros i j Hi Hj. rewrite get_tabulate by done.
      repeat case_decide; try done; lia. }
    assert (∀ a p, (if Rlt_dec 0.5 a then setitem p 0 (length done) 1%R
                    else setitem p 0 (length done) 0%R)
                   = setitem p 0 (length done) (threshold a)) as ->.
    { intros a p. unfold threshold. by destruct (Rlt_dec 0.5 a). }
    rewrite Hset. eexists. split; [reflexivity|].
    rewrite length_app. simpl.
    apply tabulate_ext; intros i j Hi Hj.
    repeat case_decide; try done; try lia. by subst j.
  - f_equal. rewrite Hp, length_seq. apply tabulate_ext. intros i j _ Hj.
    by rewrite decide_True.
Qed.

(** X17. [accuracy] is the fraction of the examples at which the label
    that [predict] gives (row 0 of its result) equals the given label (row
    0 of [y]); for a non-empty batch it lies between 0 and 1. *)
Theorem accuracy_counts_agreements (topology : list nat) (X y : ndarray)
    (parameters : gmap string ndarray) :
  consistent topology parameters → 1 ≤ length topology → shape0 X = nth 0 topology 0 →
  0 < nth (length topology - 1) topology 0 →
  0 < shape0 y → shape1 y = shape1 X →
  ∃ predictions acc,
    predict parameters X = Ok predictions ∧
    accuracy X y parameters = Ok acc ∧
    acc = (INR (agreements predictions y (shape1 X)) / INR (shape1 X))%R ∧
    (0 < shape1 X → (0 <= acc <= 1)%R).
Proof.
  intros Hc Hlen HX Hout Hy0 Hy1.
  destruct (forward_propagation_layers_Ok topology X parameters Hc Hlen HX)
    as (acts & act & Hf & _ & _ & _ & [Ha0 Ha1] & _).
  set (m := shape1 X) in *.
  exists (mmap threshold act). eexists. split; [unfold predict; by rewrite Hf|].
  unfold accuracy, range. rewrite Hf. cbn [mbind res_bind]. fold m.
  rewrite Ha1, Nat.sub_0_r, accuracy_loop by (done || lia). cbn [mbind res_bind].
  unfold row. simpl. rewrite (decide_True (P := 0 < shape0 y)) by done.
  cbn [mbind res_bind]. unfold equal. rewrite !length_map, !length_seq, Hy1. fold m.
  rewrite bdim_same. cbn [mbind res_bind].
  assert (map (λ j, agree
                 (nth (bidx m j) (map (get (tabulate 1 m (λ _ j0, threshold (get act 0 j0))) 0)
                                    (seq 0 m)) 0%R)
                 (nth (bidx m j) (map (get y 0) (seq 0 m)) 0%R)) (seq 0 m)
          = map (λ j, agree (get (mmap threshold act) 0 j) (get y 0 j)) (seq 0 m)) as ->.
  { apply map_ext_in. intros j Hj%in_seq.
    assert (bidx m j = j) as -> by (unfold bidx; case_decide; lia).
    rewrite !(nth_indep _ 0%R (get y 0 0)) by (rewrite length_map, length_seq; lia).
    rewrite (map_nth (get y 0)).
    rewrite (nth_indep _ _ (get (tabulate 1 m (λ _ j0, threshold (get act 0 j0))) 0 0))
      by (rewrite length_map, length_seq; lia).
    rewrite (map_nth (get (tabulate 1 m (λ _ j0, threshold (get act 0 j0))) 0)).
    rewrite seq_nth by lia. simpl.
    rewrite get_tabulate, get_mmap by lia. done. }
  split; [reflexivity|]. unfold mean. rewrite Rsum_indicator, length_map, length_seq.
  fold (agreements (mmap threshold act) y m). split; [done|].
  intros Hm. pose proof (filter_length_le (λ j, agree (get (mmap threshold act) 0 j) (get y 0 j))
                           (seq 0 m)) as Hle.
  rewrite length_seq in Hle. fold (agreements (mmap threshold act) y m) in Hle.
  assert (0 < INR m)%R by (apply lt_0_INR; lia).
  apply le_INR in Hle. pose proof (pos_INR (agreements (mmap threshold act) y m)).
  split.
  - apply Rmult_le_pos; [done|]. left. by apply Rinv_0_lt_compat.
  - apply (Rmult_le_reg_r (INR m)); [done|]. unfold Rdiv.
    rewrite Rmult_assoc, Rinv_l by lra. lra.
Qed.

Lemma accuracy_counts_agreements_witness :
  ∃ predictions acc,
    predict pair_parameters pair_X = Ok predictions ∧
    accuracy pair_X pair_Y pair_parameters = Ok acc ∧
    acc = (INR (agreements predictions pair_Y (shape1 pair_X)) / INR (shape1 pair_X))%R ∧
    (0 < shape1 pair_X → (0 <= acc <= 1)%R).
Proof.
  apply (accuracy_counts_agreements [1; 1] pair_X pair_Y pair_parameters).
  - split; [vm_compute; reflexivity|].
    intros i Hi. simpl in Hi. assert (i = 1) as -> by lia.
    eexists _, _. repeat split; vm_compute; reflexivity.
  - simpl. lia.
  - reflexivity.
  - simpl. lia.
  - simpl. lia.
  - reflexivity.
Defined.


(** ** The sampler on widths that are not positive *)

(** X18. With labels [Y] of shape [(1, m)] and a permutation of the
    column indices, a chunk width of zero makes the sampler raise
    [ZeroDivisionError], and a negative width of machine-integer size
    ([-2^63 <= B < 0]) makes it return no chunk at all when there is at
    least one example: the data are dropped silently.  (The bound keeps
    the float quotient [m/B] away from underflow; an array has fewer than
    [2^63] columns.) *)
Theorem sampler_degenerate_widths (perm : list nat) (X Y : ndarray) :
  has_shape Y 1 (shape1 X) → perm ≡ₚ seq 0 (shape1 X) →
  generate_random_mini_batches perm X Y 0 = Raise ZeroDivisionError ∧
  ∀ B, (- 2 ^ 63 ≤ B < 0)%Z → 0 < shape1 X →
       generate_random_mini_batches perm X Y B = Ok [].
Proof.
  intros [HY0 HY1] Hp.
  cut (∀ B, (B = 0%Z → generate_random_mini_batches perm X Y B = Raise ZeroDivisionError) ∧
            ((B < 0)%Z → 0 < shape1 X → generate_random_mini_batches perm X Y B = Ok [])).
  { intros H. split; [by apply (H 0%Z) | intros B [_ HB]; by apply H]. }
  intros B.
  destruct (permutation_in_range perm (shape1 X) Hp) as [Hlen Hrange].
  unfold generate_random_mini_batches.
  rewrite (take_cols_Ok X) by done. cbn [mbind res_bind].
  rewrite (take_cols_Ok Y) by (by rewrite HY1). cbn [mbind res_bind].
  unfold reshape_row.
  set (Yp := tabulate (shape0 Y) (length perm) _).
  change (shape0 Yp) with (shape0 Y). change (shape1 Yp) with (length perm).
  rewrite decide_True by (rewrite HY0, Hlen; lia). cbn [mbind res_bind].
  unfold num_complete_minibatches. split.
  - intros ->. by rewrite decide_True.
  - intros HB Hm. rewrite decide_False by lia. cbn [mbind res_bind].
    assert (Z.of_nat (shape1 X) `div` B < 0)%Z as Hneg.
    { pose proof (Z.div_mod (Z.of_nat (shape1 X)) B ltac:(lia)) as Hdm.
      pose proof (Z.mod_neg_bound (Z.of_nat (shape1 X)) B HB). nia. }
    replace (Z.to_nat (1 + Z.of_nat (shape1 X) `div` B)) with 0 by lia. done.
Qed.

Lemma sampler_degenerate_widths_witness :
  generate_random_mini_batches [2; 0; 3; 1] four_X four_Y 0 = Raise ZeroDivisionError ∧
  ∀ B, (- 2 ^ 63 ≤ B < 0)%Z → 0 < shape1 four_X →
       generate_random_mini_batches [2; 0; 3; 1] four_X four_Y B = Ok [].
Proof.
  apply (sampler_degenerate_widths [2; 0; 3; 1] four_X four_Y).
  - split; reflexivity.
  - apply (bool_decide_unpack _). vm_compute. reflexivity.
Defined.

(** ** Runs that cannot return *)

Lemma fails_lift {A : Type} (r : res A) : (∃ e, r = Raise e) → fails (lift r).
Proof. intros [e ->]. by exists e. Qed.

Lemma fails_bind_l {A B : Type} (m : traced A) (f : A → traced B) :
  fails m → fails (m ≫= f).
Proof. destruct m as [tr [a|e]]; intros [e' He]; [done|]. by exists e. Qed.

Lemma fails_bind {A B : Type} (m : traced A) (f : A → traced B) :
  (∀ a, fails (f a)) → fails (m ≫= f).
Proof.
  intros Hf. destruct m as [tr [a|e]]; [|by exists e].
  destruct (Hf a) as [e He]. exists e.
  unfold mbind, traced_bind. destruct (f a). done.
Qed.

Lemma fails_bind_Ok {A B : Type} (a : A) (f : A → traced B) :
  fails (f a) → fails (lift (Ok a) ≫= f).
Proof.
  intros [e He]. exists e. unfold lift, mbind, traced_bind. destruct (f a). done.
Qed.

Lemma fails_for_first {I S : Type} (i : I) (l : list I) (body : I → S → traced S) (s : S) :
  fails (body i s) → fails (for_traced (i :: l) body s).
Proof. intros H. by apply fails_bind_l. Qed.

Lemma fails_for_last {I S : Type} (l : list I) (i : I) (body : I → S → traced S) (s : S) :
  (∀ s, fails (body i s)) → fails (for_traced (l ++ [i]) body s).
Proof.
  intros H. revert s. induction l as [|j l IH]; intros s.
  - by apply fails_for_first.
  - simpl. apply fails_bind. apply IH.
Qed.

(** A mini-batch without a column fails at the cost, if not before. *)
Lemma minibatch_step_empty (a : kwargs) (XB YB : ndarray) (st : locals) :
  shape1 YB = 0 → fails (minibatch_step a (XB, YB) st).
Proof.
  intros Hm. unfold minibatch_step.
  apply fails_bind. intros [activations prediction].
  apply fails_bind. intros grads.
  apply fails_bind_l, fails_lift. by apply compute_cost_empty_raises.
Qed.

(** When the number of examples is a multiple of the width, the last
    chunk of the sampler is empty. *)
Lemma sampler_last_chunk (perm : list nat) (X Y : ndarray) (B : Z)
    (batches : list (ndarray * ndarray)) :
  (0 < B)%Z → (Z.of_nat (shape1 X) `mod` B = 0)%Z →
  generate_random_mini_batches perm X Y B = Ok batches →
  ∃ l XB YB, batches = l ++ [(XB, YB)] ∧ shape1 YB = 0.
Proof.
  intros HB Hmod. unfold generate_random_mini_batches.
  destruct (take_cols X perm) as [SX|]; [|done]. cbn [mbind res_bind].
  destruct (take_cols Y perm) as [Yp|]; [|done]. cbn [mbind res_bind].
  unfold reshape_row. case_decide; [|done]. cbn [mbind res_bind].
  unfold num_complete_minibatches. rewrite decide_False by lia. cbn [mbind res_bind].
  intros [= <-].
  set (m := shape1 X) in *. set (q := (Z.of_nat m `div` B)%Z).
  assert (0 ≤ q)%Z as Hq by (apply Z.div_pos; lia).
  assert (Z.of_nat m = B * q)%Z as Hm.
  { pose proof (Z.div_mod (Z.of_nat m) B ltac:(lia)). unfold q. lia. }
  replace (Z.to_nat (1 + q)) with (S (Z.to_nat q)) by lia.
  rewrite seq_S, map_app. simpl. eexists _, _, _. split; [reflexivity|].
  unfold slice_cols. simpl. unfold slice_bounds, clamp_index. simpl.
  rewrite Z2Nat.id by done.
  assert (0 ≤ q * B)%Z by nia. assert (0 ≤ (q + 1) * B)%Z by nia.
  rewrite !(proj2 (Z.ltb_ge _ _)) by done. simpl. lia.
Qed.

(** An epoch over a number of examples that is a multiple of 64 fails. *)
Lemma epoch_step_full_batches (rng : np_random) (X y : ndarray) (a : kwargs)
    (epoch : nat) (st : locals) :
  shape1 X `mod` 64 = 0 → fails (epoch_step rng X y a 64 epoch st).
Proof.
  intros Hmod. unfold epoch_step.
  apply fails_bind. intros _.
  destruct (generate_random_mini_batches (permutation rng epoch) X y 64) as [batches|e] eqn:Hgen.
  - destruct (sampler_last_chunk (permutation rng epoch) X y 64 batches)
      as (l & XB & YB & -> & Hw); [lia | | done |].
    { change 64%Z with (Z.of_nat 64). rewrite <- Nat2Z.inj_mod. by rewrite Hmod. }
    apply fails_bind_Ok.
    apply fails_bind_l, fails_for_last. intros s. by apply minibatch_step_empty.
  - apply fails_bind_l. by exists e.
Qed.

(** X19. A run over a data set whose number of examples is a multiple
    of 64 (the width [train_nn_model] samples with) never returns
    parameters when at least one epoch is asked for: the last chunk of the
    first epoch is empty, and the cost divides by its width. *)
Theorem train_never_returns_on_full_batches (rng : np_random) (X y : ndarray) (a : kwargs) :
  shape1 X `mod` 64 = 0 → (1 ≤ epochs a)%Z →
  ∃ e, snd (train_nn_model rng X y a) = Raise e.
Proof.
  intros Hmod Hep. change (fails (train_nn_model rng X y a)). unfold train_nn_model.
  apply fails_bind. intros parameters.
  apply fails_bind. intros [v s].
  apply fails_bind_l.
  replace (Z.to_nat (epochs a)) with (S (Z.to_nat (epochs a) - 1)) by lia.
  cbn [seq]. apply fails_for_first. by apply epoch_step_full_batches.
Qed.

Lemma train_never_returns_on_full_batches_witness :
  ∃ e, snd (train_nn_model ordered_rng (zeros 1 64) (zeros 1 64) defaults) = Raise e.
Proof.
  apply (train_never_returns_on_full_batches ordered_rng (zeros 1 64) (zeros 1 64) defaults).
  - reflexivity.
  - simpl. lia.
Defined.

(** ** Runs without an epoch *)

(** A store that [create_layers] returns has every layer. *)
Lemma create_layers_has_layers (gauss : nat → nat → nat → R) (layers_list : list Z)
    (parameters : gmap string ndarray) :
  create_layers gauss layers_list = Ok parameters →
  consistent (Z.to_nat <$> layers_list) parameters ∧ has_layers parameters.
Proof.
  intros Hp.
  destruct (create_layers_Ok gauss layers_list) as (p' & Hp' & Hc).
  { intros idx Hidx. unfold create_layers, range in Hp.
    destruct (for_Ok_each _ _ _ _ Hp idx) as (s1 & s2 & Hb).
    { apply elem_of_seq. lia. }
    unfold create_layer in Hb.
    destruct (initialize_parameters_cases (gauss idx) (nth (idx - 1) layers_list 0%Z)
                (nth idx layers_list 0%Z)) as [[Hok _]|[_ (e & He & _)]]; [done|].
    rewrite He in Hb. done. }
  assert (p' = parameters) as -> by congruence.
  split; [done|]. intros i Hi. rewrite (consistent_layers _ _ Hc) in Hi.
  destruct Hc as [_ Hc]. destruct (Hc i) as (W & b & -> & -> & _); [lia|]. eauto.
Qed.

Lemma lift_Ok_bind {A B : Type} (a : A) (f : A → traced B) : lift (Ok a) ≫= f = f a.
Proof. unfold lift, mbind, traced_bind. by destruct (f a). Qed.

(** X20. With [epochs <= 0] the run does nothing after the
    initialization: it makes no call to the sampler or to an update rule,
    prints nothing, and returns the store of [create_layers] untrained (or
    raises what [create_layers] raises). *)
Theorem train_without_epochs (rng : np_random) (X y : ndarray) (a : kwargs) :
  (epochs a ≤ 0)%Z →
  train_nn_model rng X y a
  = ([], create_layers (gauss rng) ([Z.of_nat (shape0 X)] ++ hidden_layers a ++ [1%Z])).
Proof.
  intros Hep. unfold train_nn_model.
  destruct (create_layers _ _) as [p|e] eqn:Hp; [|done].
  apply create_layers_has_layers in Hp as [_ Hl].
  destruct (initialize_accumulator_Ok p Hl) as (v & Hv & _).
  replace (Z.to_nat (epochs a)) with 0 by lia.
  assert (initialize_adam_params p = (v ← initialize_accumulator p; Ok (v, v))) as Hadam
    by apply adam_accumulators_loop.
  rewrite lift_Ok_bind.
  unfold initialize_rmsprop_params, initialize_momentum_params.
  rewrite Hadam, Hv.
  repeat case_decide; reflexivity.
Qed.

Lemma train_without_epochs_witness :
  train_nn_model zero_rng one_X one_y (mk_kwargs [] 0 0.1 0 "" "adam" 0.9 0.999 1e-8 2)
  = ([], create_layers (gauss zero_rng) ([Z.of_nat (shape0 one_X)] ++ [] ++ [1%Z])).
Proof.
  apply (train_without_epochs zero_rng one_X one_y
           (mk_kwargs [] 0 0.1 0 "" "adam" 0.9 0.999 1e-8 2)).
  simpl. lia.
Defined.


(** ** Shapes through one training step *)

(** The loop of [update_parameters_rmsprop], layer by layer, with the size of the
    store. *)
Lemma update_parameters_rmsprop_Ok (parameters gradients s : gmap string ndarray)
    (alpha beta eps : R) (t : Z) :
  (0 ≤ t)%Z ∨ beta ≠ 0%R →
  (∀ i, 1 ≤ i ≤ size parameters `div` 2 → layer_ready parameters gradients s i) →
  ∃ parameters' s',
    update_parameters_rmsprop parameters gradients alpha s t beta eps = Ok (parameters', s') ∧
    size parameters' = size parameters ∧
    ∀ i, 1 ≤ i ≤ size parameters `div` 2 →
         layer_rmsprop alpha beta eps (powerRZ beta t) parameters gradients s parameters' s' i.
Proof.
  intros Ht Hready. unfold update_parameters_rmsprop, range.
  set (L := size parameters `div` 2) in *.
  replace (1 + L - 1) with L by lia.
  destruct (layerwise_loop
    (λ (st : gmap string ndarray * gmap string ndarray * gmap string ndarray) i,
       let '(p, s1, _) := st in
       (p !! key "W" i, p !! key "b" i, s1 !! key "dW" i, s1 !! key "db" i, size p))
    (rmsprop_layer gradients alpha t beta eps) L
    (λ i t0, ∃ W b gW gb sW sb,
       t0.1.1.1.1 = Some W ∧ t0.1.1.1.2 = Some b ∧
       gradients !! key "dW" i = Some gW ∧ gradients !! key "db" i = Some gb ∧
       t0.1.1.2 = Some sW ∧ t0.1.2 = Some sb ∧
       same_shape gW W ∧ same_shape sW W ∧ same_shape gb b ∧ same_shape sb b)
    (λ i t0 t', t'.2 = t0.2 ∧
       ∃ W b gW gb sW sb W' b' sW' sb',
         t0.1.1.1.1 = Some W ∧ t0.1.1.1.2 = Some b ∧
         gradients !! key "dW" i = Some gW ∧ gradients !! key "db" i = Some gb ∧
         t0.1.1.2 = Some sW ∧ t0.1.2 = Some sb ∧
         t'.1.1.1.1 = Some W' ∧ t'.1.1.1.2 = Some b' ∧
         t'.1.1.2 = Some sW' ∧ t'.1.2 = Some sb' ∧
         rmsprop_entrywise alpha beta eps (powerRZ beta t) W gW sW W' sW' ∧
         rmsprop_entrywise alpha beta eps (powerRZ beta t) b gb sb b' sb')
    (parameters, s, ∅)) as ([[p' s'] sc'] & Hrun & Hpost & Hframe).
  - intros i [[p s1] sc] _ (W & b & gW & gb & sW & sb & HW & Hb & HgW & Hgb & HsW & Hsb &
                            SgW & SsW & Sgb & Ssb).
    simpl in HW, Hb, HsW, Hsb.
    destruct (rmsprop_layer_Ok gradients alpha beta eps t i p s1 sc W b gW gb sW sb)
      as (W' & b' & sW' & sb' & sc'' & Hstep & HWs & Hbs); [done..|].
    eexists. split; [exact Hstep|]. split.
    + simpl. split; [by apply (size_insert_layer _ _ W b)|].
      exists W, b, gW, gb, sW, sb, W', b', sW', sb'. store_lookup. done.
    + intros j Hj. simpl. store_lookup. by rewrite (size_insert_layer _ _ W b).
  - intros i Hi.
    destruct (Hready i Hi) as (W & b & gW & gb & sW & sb & ?).
    by exists W, b, gW, gb, sW, sb.
  - exists p', s'. rewrite Hrun. split; [done|]. split.
    + specialize (Hframe 0 ltac:(lia)). simpl in Hframe. congruence.
    + intros i Hi. destruct (Hpost i Hi) as [_ H]. exact H.
Qed.

Lemma consistent_has_layers (topology : list nat) (parameters : gmap string ndarray) :
  consistent topology parameters → has_layers parameters ∧ has_weights parameters.
Proof.
  intros Hc. pose proof (consistent_layers _ _ Hc) as HL. destruct Hc as [_ Hc].
  split; intros i Hi; rewrite HL in Hi;
    destruct (Hc i) as (W & b & HW & Hb & _); try lia; rewrite ?HW, ?Hb; eauto.
Qed.

Lemma layer_ready_of_shapes (topology : list nat) (parameters gradients v : gmap string ndarray)
    (i : nat) :
  consistent topology parameters → shaped_like topology gradients → shaped_like topology v →
  1 ≤ i ≤ size parameters `div` 2 → layer_ready parameters gradients v i.
Proof.
  intros Hc Hg Hv Hi. rewrite (consistent_layers _ _ Hc) in Hi. destruct Hc as [_ Hc].
  destruct (Hc i) as (W & b & HW & Hb & [? ?] & [? ?]); [lia|].
  destruct (Hg i) as (gW & gb & HgW & Hgb & [? ?] & [? ?]); [lia|].
  destruct (Hv i) as (vW & vb & HvW & Hvb & [? ?] & [? ?]); [lia|].
  exists W, b, gW, gb, vW, vb. repeat split; try done; congruence.
Qed.

(** A store of the same size whose layers have the shapes of the old ones
    is consistent with the same topology. *)
Lemma consistent_same_shapes (topology : list nat) (p p' : gmap string ndarray) :
  consistent topology p → size p' = size p →
  (∀ i, 1 ≤ i < length topology →
     ∃ W b W' b', p !! key "W" i = Some W ∧ p !! key "b" i = Some b ∧
                  p' !! key "W" i = Some W' ∧ p' !! key "b" i = Some b' ∧
                  same_shape W' W ∧ same_shape b' b) →
  consistent topology p'.
Proof.
  intros [Hsize Hc] Hs Hl. split; [congruence|]. intros i Hi.
  destruct (Hl i Hi) as (W & b & W' & b' & HW & Hb & HW' & Hb' & [? ?] & [? ?]).
  destruct (Hc i Hi) as (W2 & b2 & HW2 & Hb2 & [? ?] & [? ?]). simplify_eq.
  exists W', b'. repeat split; try done; congruence.
Qed.

Lemma shaped_like_same_shapes (topology : list nat) (p d : gmap string ndarray) :
  consistent topology p →
  (∀ i, 1 ≤ i < length topology →
     ∃ W b dW db, p !! key "W" i = Some W ∧ p !! key "b" i = Some b ∧
                  d !! key "dW" i = Some dW ∧ d !! key "db" i = Some db ∧
                  same_shape dW W ∧ same_shape db b) →
  shaped_like topology d.
Proof.
  intros [_ Hc] Hl i Hi.
  destruct (Hl i Hi) as (W & b & dW & db & HW & Hb & HdW & Hdb & [? ?] & [? ?]).
  destruct (Hc i Hi) as (W2 & b2 & HW2 & Hb2 & [? ?] & [? ?]). simplify_eq.
  exists dW, db. repeat split; try done; congruence.
Qed.

Lemma compute_cost_Ok (act y : ndarray) (parameters : gmap string ndarray)
    (lambd : R) (regularization : string) :
  same_shape act y → shape1 y ≠ 0 → has_weights parameters →
  ∃ c, compute_cost act y parameters lambd regularization = Ok c.
Proof.
  intros [H0 H1] Hm Hw. unfold compute_cost.
  destruct (broadcast_same Rmult (mmap ln act) y) as (l1 & -> & [Hl10 Hl11] & _); [done..|].
  cbn [mbind res_bind].
  destruct (broadcast_same Rmult (mmap (λ a, ln (1 - a))%R act) (mmap (λ x, 1 - x)%R y))
    as (l2 & -> & [Hl20 Hl21] & _); [done..|].
  cbn [mbind res_bind].
  destruct (broadcast_same Rplus l1 l2) as (lp & -> & _); [simpl in *; congruence..|].
  cbn [mbind res_bind]. rewrite (py_div_Ok (-1)) by done. case_decide.
  - rewrite cost_reg_loop by (intros; by apply has_weights_range).
    cbn [mbind res_bind]. rewrite py_div_Ok by lia. cbn [mbind res_bind]. eauto.
  - cbn [mbind res_bind]. eauto.
Qed.

Lemma compute_cost_empty_ZeroDivisionError (act y : ndarray)
    (parameters : gmap string ndarray) (lambd : R) (regularization : string) :
  same_shape act y → shape1 y = 0 → has_weights parameters →
  compute_cost act y parameters lambd regularization = Raise ZeroDivisionError.
Proof.
  intros [H0 H1] Hm Hw. unfold compute_cost. rewrite Hm.
  destruct (broadcast_same Rmult (mmap ln act) y) as (l1 & -> & [Hl10 Hl11] & _); [done..|].
  cbn [mbind res_bind].
  destruct (broadcast_same Rmult (mmap (λ a, ln (1 - a))%R act) (mmap (λ x, 1 - x)%R y))
    as (l2 & -> & [Hl20 Hl21] & _); [done..|].
  cbn [mbind res_bind].
  destruct (broadcast_same Rplus l1 l2) as (lp & -> & _); [simpl in *; congruence..|].
  cbn [mbind res_bind]. case_decide.
  - rewrite cost_reg_loop by (intros; by apply has_weights_range). reflexivity.
  - reflexivity.
Qed.

(** Forward, then backward, on one mini-batch: the prediction has the
    shape of the labels, and the gradients the shapes of the parameters. *)
Lemma forward_backward_shapes (topology : list nat) (XB YB : ndarray)
    (parameters : gmap string ndarray) (lambd : R) (regularization : string) :
  consistent topology parameters → 2 ≤ length topology →
  shape0 XB = nth 0 topology 0 →
  has_shape YB (nth (length topology - 1) topology 0) (shape1 XB) → shape0 YB ≠ 0 →
  ∃ activations prediction gradients,
    forward_propagation XB parameters = Ok (activations, prediction) ∧
    same_shape prediction YB ∧
    backward_propagation YB parameters activations lambd regularization = Ok gradients ∧
    shaped_like topology gradients.
Proof.
  intros Hc Hlen HX HY Hm.
  destruct (forward_propagation_layers_Ok topology XB parameters Hc) as
    (acts & pred & Hf & _ & _ & _ & [Hp0 Hp1] & Hsh & _); [lia | done |].
  destruct (backward_propagation_gradients topology (shape1 XB) YB parameters acts lambd
              regularization Hc Hsh Hlen HY Hm) as (dz & g & Hdz & Herr & Hg & Hall).
  exists acts, pred, g. split; [done|]. split.
  { destruct HY as [HY0 HY1]. split; congruence. }
  split; [done|].
  apply (shaped_like_same_shapes topology parameters); [done|]. intros l Hl.
  destruct (Hall l Hl) as (dZ & Ap & W & dW & HdZ & _ & HW & _ & [? ?] & HgW & Hgb).
  destruct (Herr l Hl) as (dZ' & HdZ' & [HdZ0 _] & _). simplify_eq.
  destruct Hc as [_ Hc]. destruct (Hc l Hl) as (W' & b & HW' & Hb & _ & [Hb0 Hb1]).
  simplify_eq. exists W, b, dW, (layer_db (shape0 YB) dZ).
  repeat split; try done; simpl; congruence.
Qed.

Lemma layers_of_topology (topology : list nat) (parameters : gmap string ndarray) (i : nat) :
  consistent topology parameters →
  1 ≤ i < length topology ↔ 1 ≤ i ≤ size parameters `div` 2.
Proof. intros Hc. rewrite (consistent_layers _ _ Hc). lia. Qed.

Lemma update_parameters_shapes (topology : list nat) (parameters gradients : gmap string ndarray)
    (alpha : R) :
  consistent topology parameters → shaped_like topology gradients →
  ∃ parameters', update_parameters parameters gradients alpha = Ok parameters' ∧
                 consistent topology parameters'.
Proof.
  intros Hc Hg.
  destruct (update_parameters_Ok parameters gradients alpha) as (p' & Hp' & Hsize & Hl).
  { intros i Hi.
    destruct (layer_ready_of_shapes topology parameters gradients gradients i Hc Hg Hg Hi)
      as (W & b & gW & gb & _ & _ & ? & ? & ? & ? & _ & _ & ? & _ & ? & _).
    by exists W, b, gW, gb. }
  exists p'. split; [done|].
  apply (consistent_same_shapes topology parameters); [done..|].
  intros i Hi%(layers_of_topology _ _ _ Hc).
  destruct (Hl i Hi) as (W & b & gW & gb & W' & b' & ? & ? & _ & _ & ? & ? & [? _] & [? _]).
  by exists W, b, W', b'.
Qed.

Lemma update_parameters_momentum_shapes (topology : list nat)
    (parameters gradients v : gmap string ndarray) (alpha beta : R) :
  consistent topology parameters → shaped_like topology gradients → shaped_like topology v →
  ∃ parameters' v',
    update_parameters_momentum parameters gradients alpha v beta = Ok (parameters', v') ∧
    consistent topology parameters' ∧ shaped_like topology v'.
Proof.
  intros Hc Hg Hv.
  destruct (update_parameters_momentum_Ok parameters gradients v alpha beta)
    as (p' & v' & Hp' & Hsize & Hl).
  { intros i Hi. by apply (layer_ready_of_shapes topology). }
  exists p', v'. split; [done|]. split.
  - apply (consistent_same_shapes topology parameters); [done..|].
    intros i Hi%(layers_of_topology _ _ _ Hc).
    destruct (Hl i Hi) as (W & b & gW & gb & vW & vb & W' & b' & vW' & vb' &
                           ? & ? & _ & _ & _ & _ & ? & ? & _ & _ & (? & _) & (? & _)).
    by exists W, b, W', b'.
  - apply (shaped_like_same_shapes topology parameters); [done|].
    intros i Hi%(layers_of_topology _ _ _ Hc).
    destruct (Hl i Hi) as (W & b & gW & gb & vW & vb & W' & b' & vW' & vb' &
                           ? & ? & _ & _ & _ & _ & _ & _ & ? & ? & (_ & ? & _) & (_ & ? & _)).
    by exists W, b, vW', vb'.
Qed.

Lemma update_parameters_rmsprop_shapes (topology : list nat)
    (parameters gradients s : gmap string ndarray) (alpha beta eps : R) (t : Z) :
  (0 ≤ t)%Z ∨ beta ≠ 0%R →
  consistent topology parameters → shaped_like topology gradients → shaped_like topology s →
  ∃ parameters' s',
    update_parameters_rmsprop parameters gradients alpha s t beta eps = Ok (parameters', s') ∧
    consistent topology parameters' ∧ shaped_like topology s'.
Proof.
  intros Ht Hc Hg Hs.
  destruct (update_parameters_rmsprop_Ok parameters gradients s alpha beta eps t Ht)
    as (p' & s' & Hp' & Hsize & Hl).
  { intros i Hi. by apply (layer_ready_of_shapes topology). }
  exists p', s'. split; [done|]. split.
  - apply (consistent_same_shapes topology parameters); [done..|].
    intros i Hi%(layers_of_topology _ _ _ Hc).
    destruct (Hl i Hi) as (W & b & gW & gb & sW & sb & W' & b' & sW' & sb' &
                           ? & ? & _ & _ & _ & _ & ? & ? & _ & _ & (? & _) & (? & _)).
    by exists W, b, W', b'.
  - apply (shaped_like_same_shapes topology parameters); [done|].
    intros i Hi%(layers_of_topology _ _ _ Hc).
    destruct (Hl i Hi) as (W & b & gW & gb & sW & sb & W' & b' & sW' & sb' &
                           ? & ? & _ & _ & _ & _ & _ & _ & ? & ? & (_ & ? & _) & (_ & ? & _)).
    by exists W, b, sW', sb'.
Qed.

Lemma update_parameters_adam_shapes (topology : list nat)
    (parameters gradients v s : gmap string ndarray) (alpha beta1 beta2 eps : R) (t : Z) :
  (0 ≤ t)%Z ∨ (beta1 ≠ 0%R ∧ beta2 ≠ 0%R) →
  consistent topology parameters → shaped_like topology gradients →
  shaped_like topology v → shaped_like topology s →
  ∃ parameters' v' s',
    update_parameters_adam parameters gradients alpha v s t beta1 beta2 eps
      = Ok (parameters', v', s') ∧
    consistent topology parameters' ∧ shaped_like topology v' ∧ shaped_like topology s'.
Proof.
  intros Ht Hc Hg Hv Hs.
  destruct (update_parameters_adam_Ok parameters gradients v s alpha beta1 beta2 eps t Ht)
    as (p' & v' & s' & Hp' & Hsize & Hl).
  { intros i Hi. split; by apply (layer_ready_of_shapes topology). }
  exists p', v', s'. split; [done|]. split; [|split].
  - apply (consistent_same_shapes topology parameters); [done..|].
    intros i Hi%(layers_of_topology _ _ _ Hc).
    destruct (Hl i Hi) as (W & b & gW & gb & vW & vb & sW & sb & W' & b' & vW' & vb' & sW' & sb' &
      ? & ? & _ & _ & _ & _ & _ & _ & ? & ? & _ & _ & _ & _ & (? & _) & (? & _)).
    by exists W, b, W', b'.
  - apply (shaped_like_same_shapes topology parameters); [done|].
    intros i Hi%(layers_of_topology _ _ _ Hc).
    destruct (Hl i Hi) as (W & b & gW & gb & vW & vb & sW & sb & W' & b' & vW' & vb' & sW' & sb' &
      ? & ? & _ & _ & _ & _ & _ & _ & _ & _ & ? & ? & _ & _ & (_ & ? & _) & (_ & ? & _)).
    by exists W, b, vW', vb'.
  - apply (shaped_like_same_shapes topology parameters); [done|].
    intros i Hi%(layers_of_topology _ _ _ Hc).
    destruct (Hl i Hi) as (W & b & gW & gb & vW & vb & sW & sb & W' & b' & vW' & vb' & sW' & sb' &
      ? & ? & _ & _ & _ & _ & _ & _ & _ & _ & _ & _ & ? & ? & (_ & _ & ? & _) & (_ & _ & ? & _)).
    by exists W, b, sW', sb'.
Qed.

(** ** The training loop on valid data *)

Lemma snd_tell_bind {B : Type} (e : event) (f : unit → traced B) :
  snd (tell e ≫= f) = snd (f tt).
Proof. unfold tell, mbind, traced_bind. by destruct (f tt). Qed.

Lemma snd_bind_Ok {A B : Type} (m : traced A) (f : A → traced B) (a : A) :
  snd m = Ok a → snd (m ≫= f) = snd (f a).
Proof.
  destruct m as [tr r]. simpl. intros ->. unfold mbind, traced_bind. by destruct (f a).
Qed.

Lemma snd_bind_Raise {A B : Type} (m : traced A) (f : A → traced B) (e : exn) :
  snd m = Raise e → snd (m ≫= f) = Raise e.
Proof. destruct m as [tr r]. simpl. by intros ->. Qed.

(** One step on a mini-batch with at least one column. *)
Lemma minibatch_step_Ok (topology : list nat) (a : kwargs) (XB YB : ndarray) (st : locals) :
  ready_for topology a st → powers_defined a →
  2 ≤ length topology → nth (length topology - 1) topology 0 = 1 →
  shape0 XB = nth 0 topology 0 → has_shape YB 1 (shape1 XB) → shape1 XB ≠ 0 →
  ∃ st', snd (minibatch_step a (XB, YB) st) = Ok st' ∧ ready_for topology a st'.
Proof.
  intros (Hc & Hrms & Hadam & Hmom) Hpow Hlen Hout HX HY Hw.
  destruct (forward_backward_shapes topology XB YB (l_parameters st) (lambd a)
              (regularization a)) as (acts & pred & g & Hf & Hsp & Hb & Hg);
    [done | done | done | by rewrite Hout | destruct HY as [-> _]; lia |].
  destruct (compute_cost_Ok pred YB (l_parameters st) (lambd a) (regularization a))
    as (c & Hcost); [done | destruct HY as [_ ->]; done | by eapply consistent_has_layers |].
  unfold minibatch_step. rewrite Hf, lift_Ok_bind. cbv beta iota.
  rewrite Hb, lift_Ok_bind, Hcost, lift_Ok_bind.
  destruct (decide (optimization a = "rmsprop")) as [Hr|Hr].
  { destruct (Hrms Hr) as (s & Hs & Hss). rewrite Hs. simpl local.
    rewrite lift_Ok_bind, snd_tell_bind.
    destruct (update_parameters_rmsprop_shapes topology (l_parameters st) g s
                (learning_rate a) (beta2 a) (epsilon a) (t a))
      as (p' & s' & Hu & Hc' & Hs'); [destruct Hpow; tauto | done..|].
    rewrite Hu, lift_Ok_bind. cbv beta iota. eexists. split; [reflexivity|].
    split; [done|]. split; [by exists s'|]. split; intros Ho; congruence. }
  destruct (decide (optimization a = "adam")) as [Ha|Ha].
  { destruct (Hadam Ha) as (v & s & Hv & Hs & Hvs & Hss). rewrite Hv, Hs. simpl local.
    rewrite !lift_Ok_bind, snd_tell_bind.
    destruct (update_parameters_adam_shapes topology (l_parameters st) g v s
                (learning_rate a) (beta1 a) (beta2 a) (epsilon a) (t a))
      as (p' & v' & s' & Hu & Hc' & Hv' & Hs'); [done..|].
    rewrite Hu, lift_Ok_bind. cbv beta iota. eexists. split; [reflexivity|].
    split; [done|]. split; [intros Ho; congruence|].
    split; [by exists v', s'|]. intros Ho; congruence. }
  destruct (decide (optimization a = "momentum")) as [Hm|Hm].
  { destruct (Hmom Hm) as (v & Hv & Hvs). rewrite Hv. simpl local.
    rewrite lift_Ok_bind, snd_tell_bind.
    destruct (update_parameters_momentum_shapes topology (l_parameters st) g v
                (learning_rate a) (beta1 a)) as (p' & v' & Hu & Hc' & Hv'); [done..|].
    rewrite Hu, lift_Ok_bind. cbv beta iota. eexists. split; [reflexivity|].
    split; [done|]. split; [intros Ho; congruence|].
    split; [intros Ho; congruence|]. by exists v'. }
  rewrite snd_tell_bind.
  destruct (update_parameters_shapes topology (l_parameters st) g (learning_rate a))
    as (p' & Hu & Hc'); [done..|].
  rewrite Hu, lift_Ok_bind. eexists. split; [reflexivity|].
  split; [done|]. repeat split; intros Ho; congruence.
Qed.

(** One step on a mini-batch without a column. *)
Lemma minibatch_step_ZeroDivisionError (topology : list nat) (a : kwargs) (XB YB : ndarray)
    (st : locals) :
  ready_for topology a st →
  2 ≤ length topology → nth (length topology - 1) topology 0 = 1 →
  shape0 XB = nth 0 topology 0 → has_shape YB 1 (shape1 XB) → shape1 XB = 0 →
  snd (minibatch_step a (XB, YB) st) = Raise ZeroDivisionError.
Proof.
  intros (Hc & _) Hlen Hout HX HY Hw.
  destruct (forward_backward_shapes topology XB YB (l_parameters st) (lambd a)
              (regularization a)) as (acts & pred & g & Hf & Hsp & Hb & Hg);
    [done | done | done | by rewrite Hout | destruct HY as [-> _]; lia |].
  unfold minibatch_step. rewrite Hf, lift_Ok_bind. cbv beta iota.
  rewrite Hb, lift_Ok_bind.
  rewrite (compute_cost_empty_ZeroDivisionError pred YB);
    [done | done | destruct HY as [_ ->]; done | by eapply consistent_has_layers].
Qed.

Lemma for_traced_total {I S : Type} (P : S → Prop) (l : list I) (body : I → S → traced S)
    (s : S) :
  P s → (∀ x s1, x ∈ l → P s1 → ∃ s2, snd (body x s1) = Ok s2 ∧ P s2) →
  ∃ s', snd (for_traced l body s) = Ok s' ∧ P s'.
Proof.
  revert s. induction l as [|x l IH]; intros s Hs Hstep.
  - by exists s.
  - destruct (Hstep x s) as (s2 & Hb & Hs2); [by left | done |].
    destruct (IH s2) as (s' & Hrun & Hs'); [done | |].
    { intros y s1 Hy. apply Hstep. by right. }
    exists s'. split; [|done]. simpl. by rewrite (snd_bind_Ok _ _ s2).
Qed.

Lemma for_traced_last_Raise {I S : Type} (P : S → Prop) (l : list I) (y : I)
    (body : I → S → traced S) (s : S) (e : exn) :
  P s → (∀ x s1, x ∈ l → P s1 → ∃ s2, snd (body x s1) = Ok s2 ∧ P s2) →
  (∀ s1, P s1 → snd (body y s1) = Raise e) →
  snd (for_traced (l ++ [y]) body s) = Raise e.
Proof.
  revert s. induction l as [|x l IH]; intros s Hs Hstep Hlast.
  - simpl. apply snd_bind_Raise. by apply Hlast.
  - destruct (Hstep x s) as (s2 & Hb & Hs2); [by left | done |].
    simpl. rewrite (snd_bind_Ok _ _ s2) by done.
    apply IH; [done | | done]. intros z s1 Hz. apply Hstep. by right.
Qed.

(** The shapes of the chunks of the sampler with width 64. *)
Lemma sampler_chunks (perm : list nat) (X Y : ndarray) :
  has_shape Y 1 (shape1 X) → perm ≡ₚ seq 0 (shape1 X) →
  ∃ chunk : nat → ndarray * ndarray,
    generate_random_mini_batches perm X Y 64
    = Ok (map chunk (seq 0 (1 + shape1 X `div` 64))) ∧
    ∀ k, shape0 (chunk k).1 = shape0 X ∧
         has_shape (chunk k).2 1 (shape1 (chunk k).1) ∧
         shape1 (chunk k).1 = min ((k + 1) * 64) (shape1 X) - min (k * 64) (shape1 X).
Proof.
  intros HY Hp. eexists (λ k, (_, _)). split.
  - rewrite (sampler_Ok perm X Y 64) by (done || lia). reflexivity.
  - intros k. cbn [fst snd shape0 shape1 tabulate]. destruct HY as [HY0 HY1].
    split; [done|]. split; [by split|].
    rewrite chunk_indices_length by lia.
    destruct (permutation_in_range perm (shape1 X) Hp) as [-> _]. done.
Qed.

Lemma ready_for_cost (topology : list nat) (a : kwargs) (st : locals) (c : R) :
  ready_for topology a st →
  ready_for topology a (mk_locals (l_parameters st) (l_v st) (l_s st) c).
Proof. done. Qed.

Section epoch.
Variables (topology : list nat) (rng : np_random) (X y : ndarray) (a : kwargs).
Hypothesis Hlen : 2 ≤ length topology.
Hypothesis Hin : shape0 X = nth 0 topology 0.
Hypothesis Hout : nth (length topology - 1) topology 0 = 1.
Hypothesis Hy : has_shape y 1 (shape1 X).
Hypothesis Hperm : ∀ epoch, permutation rng epoch ≡ₚ seq 0 (shape1 X).
Hypothesis Hpow : powers_defined a.

Lemma epoch_step_Ok (epoch : nat) (st : locals) :
  shape1 X `mod` 64 ≠ 0 → ready_for topology a st →
  ∃ st', snd (epoch_step rng X y a 64 epoch st) = Ok st' ∧ ready_for topology a st'.
Proof.
  intros Hmod Hst. unfold epoch_step. rewrite snd_tell_bind.
  destruct (sampler_chunks (permutation rng epoch) X y Hy (Hperm epoch))
    as (chunk & -> & Hchunk).
  rewrite lift_Ok_bind.
  destruct (for_traced_total (ready_for topology a)
              (map chunk (seq 0 (1 + shape1 X `div` 64))) (minibatch_step a)
              (mk_locals (l_parameters st) (l_v st) (l_s st) 0))
    as (st' & Hrun & Hst'); [by apply ready_for_cost | |].
  { intros [XB YB] s1 (k & Hk & Hin')%list_elem_of_fmap Hs1.
    apply elem_of_seq in Hin'. destruct (Hchunk k) as (H0 & HY & Hw).
    rewrite <- Hk in H0, HY, Hw. cbn [fst snd] in H0, HY, Hw.
    apply (minibatch_step_Ok topology); try done; [congruence|].
    pose proof (Nat.div_mod_eq (shape1 X) 64). lia. }
  rewrite (snd_bind_Ok _ _ st') by done.
  exists st'. split; [|done]. case_decide; [|done].
  rewrite py_div_Ok by (rewrite length_map, length_seq; lia).
  rewrite lift_Ok_bind, snd_tell_bind. done.
Qed.

Lemma epoch_step_ZeroDivisionError (epoch : nat) (st : locals) :
  shape1 X `mod` 64 = 0 → ready_for topology a st →
  snd (epoch_step rng X y a 64 epoch st) = Raise ZeroDivisionError.
Proof.
  intros Hmod Hst. unfold epoch_step. rewrite snd_tell_bind.
  destruct (sampler_chunks (permutation rng epoch) X y Hy (Hperm epoch))
    as (chunk & -> & Hchunk).
  rewrite lift_Ok_bind. apply snd_bind_Raise.
  replace (1 + shape1 X `div` 64) with (S (shape1 X `div` 64)) by lia.
  rewrite seq_S, map_app. cbn [map]. rewrite Nat.add_0_l.
  pose proof (Nat.div_mod_eq (shape1 X) 64) as Hdm.
  apply (for_traced_last_Raise (ready_for topology a)); [by apply ready_for_cost | |].
  - intros [XB YB] s1 (k & Hk & Hin')%list_elem_of_fmap Hs1.
    apply elem_of_seq in Hin'. destruct (Hchunk k) as (H0 & HY & Hw).
    rewrite <- Hk in H0, HY, Hw. cbn [fst snd] in H0, HY, Hw.
    apply (minibatch_step_Ok topology); try done; [congruence|]. lia.
  - intros s1 Hs1. destruct (Hchunk (shape1 X `div` 64)) as (H0 & HY & Hw).
    destruct (chunk (shape1 X `div` 64)) as [XB YB]. cbn [fst snd] in H0, HY, Hw.
    apply (minibatch_step_ZeroDivisionError topology); try done; [congruence|]. lia.
Qed.
End epoch.

Lemma zeros_shaped_like (topology : list nat) (parameters v : gmap string ndarray) :
  consistent topology parameters →
  (∀ i, 1 ≤ i ≤ size parameters `div` 2 →
     ∃ W b, parameters !! key "W" i = Some W ∧ parameters !! key "b" i = Some b ∧
            v !! key "dW" i = Some (zeros (shape0 W) (shape1 W)) ∧
            v !! key "db" i = Some (zeros (shape0 b) (shape1 b))) →
  shaped_like topology v.
Proof.
  intros Hc Hv. apply (shaped_like_same_shapes topology parameters); [done|].
  intros i Hi%(layers_of_topology _ _ _ Hc).
  destruct (Hv i Hi) as (W & b & ? & ? & ? & ?).
  exists W, b, (zeros (shape0 W) (shape1 W)), (zeros (shape0 b) (shape1 b)). done.
Qed.

(** The initialization of [train_nn_model] on valid widths. *)
Lemma train_initialization (rng : np_random) (X : ndarray) (a : kwargs) :
  0 < shape0 X → Forall (λ n, 0 < n)%Z (hidden_layers a) →
  ∃ parameters v s,
    create_layers (gauss rng) ([Z.of_nat (shape0 X)] ++ hidden_layers a ++ [1%Z])
      = Ok parameters ∧
    (if decide (optimization a = "rmsprop") then
       s ← initialize_rmsprop_params parameters; Ok (None, Some s)
     else if decide (optimization a = "adam") then
       '(v, s) ← initialize_adam_params parameters; Ok (Some v, Some s)
     else if decide (optimization a = "momentum") then
       v ← initialize_momentum_params parameters; Ok (Some v, None)
     else Ok (None, None)) = Ok (v, s) ∧
    ready_for (topology_of X a) a (mk_locals parameters v s 0).
Proof.
  intros HX Hh.
  set (layers := [Z.of_nat (shape0 X)] ++ hidden_layers a ++ [1%Z]).
  assert (Forall (λ n, 0 < n)%Z layers) as Hpos.
  { apply Forall_app. split; [apply Forall_singleton; lia|].
    apply Forall_app. split; [done|]. apply Forall_singleton. lia. }
  destruct (create_layers_Ok (gauss rng) layers) as (p & Hp & Hc).
  { intros idx Hidx. rewrite Forall_forall in Hpos. split.
    - apply Hpos. apply list_elem_of_In, nth_In. lia.
    - apply Z.lt_le_incl, Hpos. apply list_elem_of_In, nth_In. lia. }
  assert (Z.to_nat <$> layers = topology_of X a) as Htop.
  { unfold layers, topology_of. rewrite !fmap_app. simpl. by rewrite Nat2Z.id. }
  rewrite Htop in Hc.
  destruct (initialize_accumulator_Ok p) as (v & Hv & _ & Hz);
    [by eapply consistent_has_layers|].
  pose proof (zeros_shaped_like _ _ _ Hc Hz) as Hvs.
  assert (initialize_adam_params p = (v ← initialize_accumulator p; Ok (v, v))) as Hadam
    by apply adam_accumulators_loop.
  exists p. unfold initialize_rmsprop_params, initialize_momentum_params.
  rewrite Hadam, Hv. cbn [mbind res_bind].
  repeat case_decide; eexists _, _; (split; [done|]); (split; [reflexivity|]);
    (split; [done|]); repeat split; intros; try congruence; eauto.
  by exists v, v.
Qed.

(** X21. The outcome of a training run on valid data: a batch [X] with
    at least one feature, positive hidden widths, labels of shape [(1, m)],
    permutations drawn by the sampler, a step counter [t >= 1] and decay
    rates [0 <= beta1, beta2 < 1].  If
    the number [m] of examples is not a multiple of 64 the run returns a
    parameter store consistent with the topology
    [[n_features] + hidden_layers + [1]], whatever the update rule.  If [m]
    is a multiple of 64 and at least one epoch is asked for, the run raises
    [ZeroDivisionError]: the sampler's last chunk is empty. *)
Theorem train_nn_model_outcome (rng : np_random) (X y : ndarray) (a : kwargs) :
  0 < shape0 X → Forall (λ n, 0 < n)%Z (hidden_layers a) →
  has_shape y 1 (shape1 X) →
  (∀ epoch, permutation rng epoch ≡ₚ seq 0 (shape1 X)) →
  hyperparameters_in_range a →
  (shape1 X `mod` 64 ≠ 0 →
   ∃ parameters, snd (train_nn_model rng X y a) = Ok parameters ∧
                 consistent (topology_of X a) parameters) ∧
  (shape1 X `mod` 64 = 0 → (1 ≤ epochs a)%Z →
   snd (train_nn_model rng X y a) = Raise ZeroDivisionError).
Proof.
  intros HX Hh Hy Hperm Hrange.
  assert (powers_defined a) as Hpow.
  { left. destruct Hrange as [[? _] _]. lia. }
  destruct (train_initialization rng X a HX Hh) as (p & v & s & Hp & Hinit & Hready).
  assert (2 ≤ length (topology_of X a)) as Hlen.
  { unfold topology_of. rewrite length_cons, length_app. simpl. lia. }
  assert (nth (length (topology_of X a) - 1) (topology_of X a) 0 = 1) as Hout.
  { unfold topology_of. rewrite app_comm_cons.
    set (l := shape0 X :: (Z.to_nat <$> hidden_layers a)).
    rewrite length_app, app_nth2 by (simpl; lia).
    replace (length l + length [1] - 1 - length l) with 0 by (simpl; lia). done. }
  unfold train_nn_model. rewrite Hp, lift_Ok_bind, Hinit, lift_Ok_bind. cbv beta iota.
  split.
  - intros Hmod.
    destruct (for_traced_total (ready_for (topology_of X a) a)
                (seq 1 (Z.to_nat (epochs a))) (epoch_step rng X y a 64)
                (mk_locals p v s 0)) as (st' & Hrun & [Hc _]); [done | |].
    { intros epoch s1 _ Hs1. by apply (epoch_step_Ok (topology_of X a)). }
    exists (l_parameters st'). split; [|done].
    by rewrite (snd_bind_Ok _ _ st').
  - intros Hmod Hep. apply snd_bind_Raise.
    replace (Z.to_nat (epochs a)) with (S (Z.to_nat (epochs a) - 1)) by lia.
    cbn [seq for_traced]. apply snd_bind_Raise.
    by apply (epoch_step_ZeroDivisionError (topology_of X a)).
Qed.

Lemma train_nn_model_outcome_witness :
  (∃ parameters,
     snd (train_nn_model zero_rng one_X one_y
            (mk_kwargs [2%Z] 3 0.1 2 "l2" "adam" 0.9 0.999 1e-8 2)) = Ok parameters ∧
     consistent (topology_of one_X (mk_kwargs [2%Z] 3 0.1 2 "l2" "adam" 0.9 0.999 1e-8 2))
       parameters) ∧
  snd (train_nn_model ordered_rng (zeros 1 64) (zeros 1 64)
         (mk_kwargs [2%Z] 3 0.1 2 "l2" "adam" 0.9 0.999 1e-8 2)) = Raise ZeroDivisionError.
Proof.
  assert (hyperparameters_in_range (mk_kwargs [2%Z] 3 0.1 2 "l2" "adam" 0.9 0.999 1e-8 2))
    as Hrange.
  { split; [exact step_counter_2|]. unfold decay_rate. simpl. lra. }
  split.
  - destruct (train_nn_model_outcome zero_rng one_X one_y
                (mk_kwargs [2%Z] 3 0.1 2 "l2" "adam" 0.9 0.999 1e-8 2)) as [H _].
    + simpl. lia.
    + apply Forall_singleton. lia.
    + split; reflexivity.
    + intros epoch. reflexivity.
    + exact Hrange.
    + apply H. intros Hmod. vm_compute in Hmod. discriminate.
  - destruct (train_nn_model_outcome ordered_rng (zeros 1 64) (zeros 1 64)
                (mk_kwargs [2%Z] 3 0.1 2 "l2" "adam" 0.9 0.999 1e-8 2)) as [_ H].
    + simpl. lia.
    + apply Forall_singleton. lia.
    + split; reflexivity.
    + intros epoch. reflexivity.
    + exact Hrange.
    + apply H; [reflexivity | simpl; lia].
Defined.
